(** * limesub: subtitle conversion pipeline and ASS resampler

    A shallow embedding of the Go sources (utils.go, parsers.go,
    pipeline.go, ass_resample.go) and the properties of the time parser,
    the style classifier, the merge engine, the JSON decoder and the
    style-line resampler.

    Conventions.
    - A Go [string] is a sequence of bytes: Rocq's [string] (a list of
      [ascii]).
    - [int64] is [Z] with the wrap-around written out ([wrap64]).
    - [float64] is the IEEE-754 binary64 format of the Standard Library's
      [SpecFloat] (53 bits of precision, round to nearest even).
    - [map[K]V] is stdpp's [gmap]. *)

From Stdlib Require Import ZArith Lia Bool List Ascii String.
From Stdlib Require Import Floats.SpecFloat.
From stdpp Require Import gmap strings list fin_maps sorting.

Local Open Scope string_scope.
Local Open Scope Z_scope.

(* ===================================================================== *)
(** * Machine integers and floats *)
(* ===================================================================== *)

Module Int64.
Definition min_int : Z := - 2 ^ 63.
Definition max_int : Z := 2 ^ 63 - 1.

(** Two's complement wrap-around of the 64-bit signed operations. *)
Definition wrap64 (z : Z) : Z := (z + 2 ^ 63) mod 2 ^ 64 - 2 ^ 63.

Definition add (x y : Z) : Z := wrap64 (x + y).
Definition sub (x y : Z) : Z := wrap64 (x - y).

Definition in_range (z : Z) : bool := (min_int <=? z) && (z <=? max_int).
End Int64.

Module F64.
Definition float64 : Type := spec_float.

Definition prec : Z := 53.
Definition emax : Z := 1024.

Definition mul : float64 -> float64 -> float64 := SFmul prec emax.
Definition add : float64 -> float64 -> float64 := SFadd prec emax.
Definition div : float64 -> float64 -> float64 := SFdiv prec emax.
Definition abs : float64 -> float64 := SFabs.
Definition leb : float64 -> float64 -> bool := SFleb.
Definition ltb : float64 -> float64 -> bool := SFltb.

(** [float64(z)] for an integer [z]: the nearest binary64. *)
Definition of_Z (z : Z) : float64 := binary_normalize prec emax z 0 false.

(** The nearest binary64 to the rational [n / d], for [n, d > 0]: the
    quotient of the Standard Library's division, fed the two integers
    unrounded. *)
Definition of_ratio (neg : bool) (n d : positive) : float64 :=
  let '(mz, ez, lz) := SFdiv_core_binary prec emax (Zpos n) 0 (Zpos d) 0 in
  binary_round_aux prec emax neg mz ez lz.

(** The nearest binary64 to [m * 10 ^ e] ([m >= 0]). *)
Definition of_decimal (neg : bool) (m : Z) (e : Z) : float64 :=
  match m with
  | Zpos p =>
      if 0 <=? e then binary_round prec emax neg (Z.to_pos (m * 10 ^ e)) 0
      else of_ratio neg p (Z.to_pos (10 ^ (- e)))
  | _ => S754_zero neg
  end.

(** The nearest binary64 to [m * 2 ^ e] ([m >= 0]). *)
Definition of_binary (neg : bool) (m : Z) (e : Z) : float64 :=
  match m with
  | Zpos p => binary_round prec emax neg p e
  | _ => S754_zero neg
  end.

(** The integer part of a finite float, rounded towards zero. *)
Definition trunc (f : float64) : option Z :=
  match f with
  | S754_zero _ => Some 0
  | S754_finite s m e =>
      let a := Z.shiftl (Zpos m) e in
      Some (if s then - a else a)
  | _ => None
  end.

(** [int64(f)]. Go leaves the conversion of NaN, of the infinities and of
    values outside the int64 range implementation-defined; on amd64 the
    conversion instruction yields the minimal int64, which is what is
    modelled here. *)
Definition to_int64 (f : float64) : Z :=
  match trunc f with
  | Some z => if Int64.in_range z then z else Int64.min_int
  | None => Int64.min_int
  end.

Definition is_inf (f : float64) : bool :=
  match f with S754_infinity _ => true | _ => false end.
End F64.
Export F64 (float64).

(* ===================================================================== *)
(** * The [strings] package *)
(* ===================================================================== *)

Module strings.

Definition byte_in (lo hi : N) (c : ascii) : bool :=
  let n := N_of_ascii c in (lo <=? n)%N && (n <=? hi)%N.

Definition is_byte (n : N) (c : ascii) : bool := (N_of_ascii c =? n)%N.

(** The six ASCII white-space bytes of [unicode.IsSpace]:
    tab, line feed, vertical tab, form feed, carriage return, space. *)
Definition ascii_space (c : ascii) : bool :=
  byte_in 9 13 c || is_byte 32 c.

Fixpoint rev_acc (s acc : string) : string :=
  match s with
  | EmptyString => acc
  | String c s' => rev_acc s' (String c acc)
  end.

Definition rev (s : string) : string := rev_acc s EmptyString.

Fixpoint HasPrefix (s prefix : string) : bool :=
  match prefix, s with
  | EmptyString, _ => true
  | String p prefix', String c s' =>
      if Ascii.eqb c p then HasPrefix s' prefix' else false
  | String _ _, EmptyString => false
  end.

Definition HasSuffix (s suffix : string) : bool :=
  HasPrefix (rev s) (rev suffix).

Fixpoint drop (n : nat) (s : string) : string :=
  match n, s with
  | O, _ => s
  | S n', String _ s' => drop n' s'
  | S _, EmptyString => EmptyString
  end.

Fixpoint take (n : nat) (s : string) : string :=
  match n, s with
  | S n', String c s' => String c (take n' s')
  | _, _ => EmptyString
  end.

Definition TrimPrefix (s prefix : string) : string :=
  if HasPrefix s prefix then drop (String.length prefix) s else s.

Definition TrimSuffix (s suffix : string) : string :=
  if HasSuffix s suffix
  then take (String.length s - String.length suffix) s
  else s.

(** The number of bytes of the white-space rune [s] starts with, or [0]
    when it starts with none. Beyond ASCII, [unicode.IsSpace] holds of
    U+0085, U+00A0, U+1680, U+2000..U+200A, U+2028, U+2029, U+202F,
    U+205F and U+3000; the bytes are their UTF-8 encodings. *)
Definition space_rune_len (s : string) : nat :=
  match s with
  | EmptyString => 0
  | String c1 s1 =>
      if ascii_space c1 then 1
      else match s1 with
      | EmptyString => 0
      | String c2 s2 =>
          if is_byte 194 c1 && (is_byte 133 c2 || is_byte 160 c2) then 2
          else match s2 with
          | EmptyString => 0
          | String c3 _ =>
              if is_byte 225 c1 && is_byte 154 c2 && is_byte 128 c3 then 3
              else if is_byte 226 c1 && is_byte 128 c2 &&
                      (byte_in 128 138 c3 || is_byte 168 c3 ||
                       is_byte 169 c3 || is_byte 175 c3) then 3
              else if is_byte 226 c1 && is_byte 129 c2 && is_byte 159 c3 then 3
              else if is_byte 227 c1 && is_byte 128 c2 && is_byte 128 c3 then 3
              else 0
          end
      end
  end%nat.

(** The same, for the rune [s] ends with, on the reversed string. The
    lead byte of each encoding starts a rune wherever it stands, so the
    backwards decoding of [utf8.DecodeLastRuneInString] finds exactly
    these byte sequences. *)
Definition space_rune_len_rev (r : string) : nat :=
  match r with
  | EmptyString => 0
  | String c1 r1 =>
      if ascii_space c1 then 1
      else match r1 with
      | EmptyString => 0
      | String c2 r2 =>
          if is_byte 194 c2 && (is_byte 133 c1 || is_byte 160 c1) then 2
          else match r2 with
          | EmptyString => 0
          | String c3 _ =>
              if is_byte 225 c3 && is_byte 154 c2 && is_byte 128 c1 then 3
              else if is_byte 226 c3 && is_byte 128 c2 &&
                      (byte_in 128 138 c1 || is_byte 168 c1 ||
                       is_byte 169 c1 || is_byte 175 c1) then 3
              else if is_byte 226 c3 && is_byte 129 c2 && is_byte 159 c1 then 3
              else if is_byte 227 c3 && is_byte 128 c2 && is_byte 128 c1 then 3
              else 0
          end
      end
  end%nat.

(** Drop leading runes while [len] recognises one. [fuel] bounds the
    number of runes dropped; the length of the string always suffices. *)
Fixpoint drop_while_rune (len : string -> nat) (fuel : nat) (s : string) : string :=
  match fuel with
  | O => s
  | S fuel' =>
      match len s with
      | O => s
      | n => drop_while_rune len fuel' (drop n s)
      end
  end.

Definition TrimLeftSpace (s : string) : string :=
  drop_while_rune space_rune_len (String.length s) s.

Definition TrimRightSpace (s : string) : string :=
  rev (drop_while_rune space_rune_len_rev (String.length s) (rev s)).

(** [strings.TrimSpace]: all leading and trailing white space removed. *)
Definition TrimSpace (s : string) : string :=
  TrimRightSpace (TrimLeftSpace s).

(** The lowercase of an ASCII byte: [A-Z] to [a-z]. *)
Definition lower_byte (c : ascii) : ascii :=
  if byte_in 65 90 c then ascii_of_N (N_of_ascii c + 32) else c.

(** [strings.ToLower]: [A-Z] to [a-z], and the two runes beyond ASCII
    that the Unicode tables lower to an ASCII letter, U+0130 (bytes C4
    B0) to [i] and U+212A (bytes E2 84 AA) to [k]. The other runes
    beyond ASCII, which Go lowers to runes beyond ASCII, and the invalid
    bytes, which Go replaces by U+FFFD, keep their bytes here: the
    sources test the result for the suffixes [ms] and [s] and hand the
    rest to [ParseFloat], which refuses every byte beyond ASCII. *)
Fixpoint ToLower (s : string) : string :=
  match s with
  | EmptyString => EmptyString
  | String c s' =>
      match s' with
      | String c1 s1 =>
          if is_byte 196 c && is_byte 176 c1 then String "i" (ToLower s1)
          else
            match s1 with
            | String c2 s2 =>
                if is_byte 226 c && is_byte 132 c1 && is_byte 170 c2
                then String "k" (ToLower s2)
                else String (lower_byte c) (ToLower s')
            | EmptyString => String (lower_byte c) (ToLower s')
            end
      | EmptyString => String (lower_byte c) EmptyString
      end
  end.

(** [strings.Split(s, sep)] for a non-empty [sep]: the pieces between
    the non-overlapping occurrences of [sep], found from the left.
    [cur] holds the bytes of the piece being read, in reverse. *)
Fixpoint split_go (sep : string) (skip : nat) (cur : string) (s : string) : list string :=
  match s with
  | EmptyString => [rev cur]
  | String c s' =>
      match skip with
      | S k => split_go sep k cur s'
      | O =>
          if HasPrefix s sep
          then rev cur :: split_go sep (String.length sep - 1) EmptyString s'
          else split_go sep O (String c cur) s'
      end
  end.

Definition Split (s sep : string) : list string := split_go sep O EmptyString s.

(** [strings.SplitN(s, sep, n)] for [n > 0] and a non-empty [sep]: at
    most [n] pieces, the last one being the unsplit remainder. *)
Fixpoint splitn_go (sep : string) (n : nat) (skip : nat) (cur : string) (s : string) : list string :=
  match s with
  | EmptyString => [rev cur]
  | String c s' =>
      match skip with
      | S k => splitn_go sep n k cur s'
      | O =>
          match n with
          | O | S O => [rev_acc cur s]
          | S n' =>
              if HasPrefix s sep
              then rev cur :: splitn_go sep n' (String.length sep - 1) EmptyString s'
              else splitn_go sep n O (String c cur) s'
          end
      end
  end.

Definition SplitN (s sep : string) (n : nat) : list string :=
  splitn_go sep n O EmptyString s.

(** [strings.Count(s, sep)] for a non-empty [sep]. *)
Definition Count (s sep : string) : nat := Nat.pred (length (Split s sep)).

Fixpoint Contains (s sub : string) : bool :=
  HasPrefix s sub ||
  match s with
  | EmptyString => false
  | String _ s' => Contains s' sub
  end.

Fixpoint Join (elems : list string) (sep : string) : string :=
  match elems with
  | [] => EmptyString
  | [x] => x
  | x :: rest => x ++ sep ++ Join rest sep
  end.

(** [strings.ReplaceAll(s, old, new)] for a non-empty [old]. *)
Definition ReplaceAll (s old new : string) : string :=
  Join (Split s old) new.

(** [strings.Replace(s, old, new, 1)] for a non-empty [old]. *)
Definition ReplaceFirst (s old new : string) : string :=
  Join (SplitN s old 2) new.

End strings.

(* ===================================================================== *)
(** * The [strconv] package *)
(* ===================================================================== *)

Module strconv.
Import strings.

Definition is_digit (c : ascii) : bool := byte_in 48 57 c.

Definition digit_val (c : ascii) : Z := Z.of_N (N_of_ascii c) - 48.

(** [a-f] or [A-F]. *)
Definition is_hex_letter (c : ascii) : bool := byte_in 97 102 (lower_byte c).

Definition hex_letter_val (c : ascii) : Z :=
  Z.of_N (N_of_ascii (lower_byte c)) - 97 + 10.

(** ** [ParseInt(s, 10, 64)] *)

(** The digits of [s] read as a natural number; [None] when [s] holds a
    byte that is no digit. *)
Fixpoint read_uint (acc : Z) (s : string) : option Z :=
  match s with
  | EmptyString => Some acc
  | String c s' =>
      if is_digit c then read_uint (acc * 10 + digit_val c) s' else None
  end.

(** The value and whether [err == nil]. A syntax error yields [0]; a
    value out of range yields the nearest bound of int64. *)
Definition ParseInt (s : string) : Z * bool :=
  match s with
  | EmptyString => (0, false)
  | String c s' =>
      let neg := Ascii.eqb c "-" in
      let body := if Ascii.eqb c "+" || neg then s' else s in
      match body with
      | EmptyString => (0, false)
      | _ =>
          match read_uint 0 body with
          | None => (0, false)
          | Some un =>
              if negb neg && (2 ^ 63 <=? un) then (Int64.max_int, false)
              else if neg && (2 ^ 63 <? un) then (Int64.min_int, false)
              else (if neg then - un else un, true)
          end
      end
  end.

(** [Atoi]: [ParseInt] in base 10 at the width of [int] (64 bits). *)
Definition Atoi (s : string) : Z * bool := ParseInt s.

(** ** [ParseFloat(s, 64)] *)

(** The length of the longest common prefix of [s] and [prefix], [s]
    being read with [A-Z] lowered. *)
Fixpoint commonPrefixLenIgnoreCase (s prefix : string) : nat :=
  match s, prefix with
  | String c s', String p prefix' =>
      if Ascii.eqb (lower_byte c) p
      then S (commonPrefixLenIgnoreCase s' prefix')
      else O
  | _, _ => O
  end.

(** [special]: the infinities and NaN, with the number of bytes read. *)
Definition special (s : string) : option (float64 * nat) :=
  let inf (neg : bool) (nsign : nat) (body : string) :=
    let n := commonPrefixLenIgnoreCase body "infinity" in
    let n := if (3 <? n)%nat && (n <? 8)%nat then 3%nat else n in
    if (n =? 3)%nat || (n =? 8)%nat
    then Some (S754_infinity neg, (nsign + n)%nat)
    else None in
  match s with
  | EmptyString => None
  | String c s' =>
      if Ascii.eqb c "+" then inf false 1%nat s'
      else if Ascii.eqb c "-" then inf true 1%nat s'
      else if Ascii.eqb (lower_byte c) "i" then inf false 0%nat s
      else if Ascii.eqb (lower_byte c) "n" then
        if (commonPrefixLenIgnoreCase s "nan" =? 3)%nat
        then Some (S754_nan, 3%nat) else None
      else None
  end.

(** The state of [readFloat]'s loop over the mantissa. The mantissa is
    kept in full: Go keeps 19 digits and a truncation flag, and reads
    the digits again when the flag would matter, so that the result is
    the correctly rounded one in every case. *)
Record mant_state := {
  sawdot : bool;
  sawdigits : bool;
  nd : Z;     (* digits read, leading zeros apart *)
  dp : Z;     (* position of the point *)
  mantissa : Z
}.

Definition mant_init : mant_state :=
  {| sawdot := false; sawdigits := false; nd := 0; dp := 0; mantissa := 0 |}.

Fixpoint read_mantissa (hex : bool) (st : mant_state) (s : string)
  : mant_state * string :=
  match s with
  | EmptyString => (st, s)
  | String c s' =>
      if Ascii.eqb c "_" then read_mantissa hex st s'
      else if Ascii.eqb c "." then
        if sawdot st then (st, s)
        else read_mantissa hex
               {| sawdot := true; sawdigits := sawdigits st; nd := nd st;
                  dp := nd st; mantissa := mantissa st |} s'
      else if is_digit c then
        if Ascii.eqb c "0" && (nd st =? 0) then
          read_mantissa hex
            {| sawdot := sawdot st; sawdigits := true; nd := nd st;
               dp := dp st - 1; mantissa := mantissa st |} s'
        else
          read_mantissa hex
            {| sawdot := sawdot st; sawdigits := true; nd := nd st + 1;
               dp := dp st;
               mantissa := mantissa st * (if hex then 16 else 10) + digit_val c |} s'
      else if hex && is_hex_letter c then
        read_mantissa hex
          {| sawdot := sawdot st; sawdigits := true; nd := nd st + 1;
             dp := dp st;
             mantissa := mantissa st * 16 + hex_letter_val c |} s'
      else (st, s)
  end.

(** The digits of the exponent; an exponent stops growing at 10000. *)
Fixpoint read_exp_digits (e : Z) (s : string) : Z * string :=
  match s with
  | EmptyString => (e, s)
  | String c s' =>
      if Ascii.eqb c "_" then read_exp_digits e s'
      else if is_digit c then
        read_exp_digits (if e <? 10000 then e * 10 + digit_val c else e) s'
      else (e, s)
  end.

(** The optional exponent: the signed exponent and what follows it;
    [None] when the exponent is cut short, or missing from a
    hexadecimal mantissa. *)
Definition read_exponent (hex : bool) (s : string) : option (Z * string) :=
  match s with
  | String c s' =>
      if Ascii.eqb (lower_byte c) (if hex then "p" else "e")%char then
        match s' with
        | EmptyString => None
        | String d s'' =>
            let esign := if Ascii.eqb d "-" then (-1) else 1 in
            let body := if Ascii.eqb d "+" || Ascii.eqb d "-" then s'' else s' in
            match body with
            | String b _ =>
                if is_digit b then
                  let '(e, rest) := read_exp_digits 0 body in
                  Some (e * esign, rest)
                else None
            | EmptyString => None
            end
        end
      else if hex then None else Some (0, s)
  | EmptyString => if hex then None else Some (0, s)
  end.

(** [underscoreOK]: an underscore stands between two digits, or between
    the base prefix and a digit. [saw] is the kind of the byte before:
    [0] the start, [1] a digit or base prefix, [2] an underscore,
    [3] anything else. *)
Fixpoint underscore_scan (hex : bool) (saw : nat) (s : string) : bool :=
  match s with
  | EmptyString => negb (saw =? 2)%nat
  | String c s' =>
      if is_digit c || (hex && is_hex_letter c) then underscore_scan hex 1 s'
      else if Ascii.eqb c "_" then
        if (saw =? 1)%nat then underscore_scan hex 2 s' else false
      else if (saw =? 2)%nat then false
      else underscore_scan hex 3 s'
  end.

Definition underscoreOK (s : string) : bool :=
  let s := match s with
           | String c s' => if Ascii.eqb c "-" || Ascii.eqb c "+" then s' else s
           | EmptyString => s
           end in
  match s with
  | String c1 (String c2 s') =>
      let l := lower_byte c2 in
      if Ascii.eqb c1 "0" && (Ascii.eqb l "b" || Ascii.eqb l "o" || Ascii.eqb l "x")
      then underscore_scan (Ascii.eqb l "x") 1 s'
      else underscore_scan false 0 s
  | _ => underscore_scan false 0 s
  end.

(** [readFloat] and the conversion, on a string that is no special
    value. [None] is a syntax error. *)
Definition read_number (s : string) : option float64 :=
  let neg := HasPrefix s "-" in
  let body := if HasPrefix s "+" || neg then drop 1 s else s in
  let hex :=
    match body with
    | String c1 (String c2 (String _ _)) =>
        Ascii.eqb c1 "0" && Ascii.eqb (lower_byte c2) "x"
    | _ => false
    end in
  let digits := if hex then drop 2 body else body in
  let '(st, rest) := read_mantissa hex mant_init digits in
  if negb (sawdigits st) then None
  else
    let dp := if sawdot st then dp st else nd st in
    match read_exponent hex rest with
    | None => None
    | Some (e, rest') =>
        match rest' with
        | EmptyString =>
            if underscoreOK s then
              Some (if hex
                    then F64.of_binary neg (mantissa st) (4 * dp + e - 4 * nd st)
                    else F64.of_decimal neg (mantissa st) (dp + e - nd st))
            else None
        | _ => None
        end
    end.

(** The value and whether [err == nil]: a syntax error yields [0], a
    number beyond the largest float yields an infinity and a range
    error. *)
Definition ParseFloat (s : string) : float64 * bool :=
  match special s with
  | Some (f, n) =>
      if (n =? String.length s)%nat then (f, true) else (S754_zero false, false)
  | None =>
      match read_number s with
      | Some f => (f, negb (F64.is_inf f))
      | None => (S754_zero false, false)
      end
  end.

End strconv.

(* ===================================================================== *)
(** * utils.go *)
(* ===================================================================== *)

Import strings.

(** Float constants of the sources. *)
Definition f1000 : float64 := F64.of_Z 1000.
Definition f3600 : float64 := F64.of_Z 3600.
Definition f60 : float64 := F64.of_Z 60.
Definition f0 : float64 := S754_zero false.

(** [parseTimeStringToMs]: HH:MM:SS.mmm, MM:SS.mmm, "1234ms", "1.234s"
    and the SRT form with a comma. The products and sums are rounded one
    by one, as the compiler does on amd64. *)
Definition parseTimeStringToMs (s : string) : Z :=
  if String.eqb s "" then 0
  else
    let s := TrimSpace s in
    let s := ReplaceAll s "," "." in
    if HasSuffix (ToLower s) "ms" then
      let v := TrimSuffix (ToLower s) "ms" in
      let '(f, _) := strconv.ParseFloat (TrimSpace v) in
      F64.to_int64 f
    else if HasSuffix (ToLower s) "s" then
      let v := TrimSuffix (ToLower s) "s" in
      let '(f, _) := strconv.ParseFloat (TrimSpace v) in
      F64.to_int64 (F64.mul f f1000)
    else if (1 <=? Count s ":")%nat then
      let parts := Split s ":" in
      let total (hh mm ss : float64) :=
        F64.add (F64.add (F64.mul hh f3600) (F64.mul mm f60)) ss in
      match parts with
      | [p0; p1; p2] =>
          let hh := fst (strconv.ParseFloat p0) in
          let mm := fst (strconv.ParseFloat p1) in
          let ss := fst (strconv.ParseFloat p2) in
          F64.to_int64 (F64.mul (total hh mm ss) f1000)
      | [p0; p1] =>
          let mm := fst (strconv.ParseFloat p0) in
          let ss := fst (strconv.ParseFloat p1) in
          F64.to_int64 (F64.mul (total f0 mm ss) f1000)
      | _ =>
          let '(f, _) := strconv.ParseFloat s in
          F64.to_int64 (F64.mul f f1000)
      end
    else
      let '(f, ok) := strconv.ParseFloat s in
      if ok then
        if F64.ltb f1000 f then F64.to_int64 f
        else F64.to_int64 (F64.mul f f1000)
      else 0.

(** [safeTrimAndNormalizeSpaces]: every line trimmed, the line structure
    kept. *)
Definition safeTrimAndNormalizeSpaces (text : string) : string :=
  Join (map TrimSpace (Split text (String "010" ""))) (String "010" "").

(* ===================================================================== *)
(** * The [regexp] package *)
(* ===================================================================== *)

(** The patterns of the sources, as syntax trees, with the leftmost-first
    (backtracking-order) matching of Go's [regexp]. Matching is done on
    bytes. Go matches runes; the two agree on these patterns, whose
    literals are ASCII and whose classes are ASCII sets or complements of
    ASCII sets: an ASCII byte is always a rune of its own, and the bytes
    of any other rune (or a stray byte, which Go reads as U+FFFD) belong
    to every complemented class and to [.]. A repetition is always that
    of a single class, which keeps the matcher structural. *)
Module regexp.
Import strings.

Inductive re : Type :=
| Eps
| Byte (p : ascii -> bool)
| Cat (r1 r2 : re)
| Alt (r1 r2 : re)                                (* [r1] is preferred *)
| Rep (p : ascii -> bool) (min : nat) (greedy : bool)
| Opt (r : re)                                    (* greedy [r?] *)
| Group (i : nat) (r : re)                        (* capturing group *)
| Bol (multiline : bool)                          (* [^] *)
| Eol (multiline : bool).                         (* [$] *)

Definition captures : Type := list (nat * string).

(** A continuation receives the byte before the position, the rest of
    the text and the captures so far. *)
Definition cont : Type := option ascii -> string -> captures -> option (string * captures).

Definition is_nl (c : ascii) : bool := is_byte 10 c.

Fixpoint rep_greedy (p : ascii -> bool) (k : option ascii -> string -> option (string * captures))
    (min : nat) (prev : option ascii) (s : string) : option (string * captures) :=
  let stop := match min with O => k prev s | S _ => None end in
  match s with
  | String c s' =>
      if p c then
        match rep_greedy p k (Nat.pred min) (Some c) s' with
        | Some r => Some r
        | None => stop
        end
      else stop
  | EmptyString => stop
  end.

Fixpoint rep_lazy (p : ascii -> bool) (k : option ascii -> string -> option (string * captures))
    (min : nat) (prev : option ascii) (s : string) : option (string * captures) :=
  let more :=
    match s with
    | String c s' => if p c then rep_lazy p k (Nat.pred min) (Some c) s' else None
    | EmptyString => None
    end in
  match min with
  | O => match k prev s with
         | Some r => Some r
         | None => more
         end
  | S _ => more
  end.

Fixpoint run (r : re) (k : cont) (prev : option ascii) (s : string) (caps : captures)
  : option (string * captures) :=
  match r with
  | Eps => k prev s caps
  | Byte p =>
      match s with
      | String c s' => if p c then k (Some c) s' caps else None
      | EmptyString => None
      end
  | Cat r1 r2 => run r1 (fun prev' s' caps' => run r2 k prev' s' caps') prev s caps
  | Alt r1 r2 =>
      match run r1 k prev s caps with
      | Some x => Some x
      | None => run r2 k prev s caps
      end
  | Rep p min greedy =>
      (if greedy then rep_greedy else rep_lazy) p (fun prev' s' => k prev' s' caps) min prev s
  | Opt r1 =>
      match run r1 k prev s caps with
      | Some x => Some x
      | None => k prev s caps
      end
  | Group i r1 =>
      run r1 (fun prev' s' caps' =>
                k prev' s' ((i, take (String.length s - String.length s') s) :: caps'))
          prev s caps
  | Bol multiline =>
      match prev with
      | None => k prev s caps
      | Some c => if multiline && is_nl c then k prev s caps else None
      end
  | Eol multiline =>
      match s with
      | EmptyString => k prev s caps
      | String c _ => if multiline && is_nl c then k prev s caps else None
      end
  end.

(** The match that starts at this position: its length and captures. *)
Definition match_here (r : re) (prev : option ascii) (s : string) : option (nat * captures) :=
  match run r (fun _ s' caps => Some (s', caps)) prev s [] with
  | Some (rest, caps) => Some ((String.length s - String.length rest)%nat, caps)
  | None => None
  end.

(** The leftmost match: the text before it, the match, its captures. *)
Fixpoint find_from (r : re) (prev : option ascii) (before : string) (s : string)
  : option (string * string * captures) :=
  match match_here r prev s with
  | Some (n, caps) => Some (rev before, take n s, caps)
  | None =>
      match s with
      | String c s' => find_from r (Some c) (String c before) s'
      | EmptyString => None
      end
  end.

Definition MatchString (r : re) (s : string) : bool :=
  match find_from r None EmptyString s with Some _ => true | None => false end.

(** The latest capture of group [i], the empty string when it took no
    part in the match. *)
Fixpoint capture (i : nat) (caps : captures) : string :=
  match caps with
  | [] => EmptyString
  | (j, v) :: rest => if (i =? j)%nat then v else capture i rest
  end.

(** [FindStringSubmatch]: the match and the groups [1..n]; the empty
    list when there is no match. *)
Definition FindStringSubmatch (r : re) (n : nat) (s : string) : list string :=
  match find_from r None EmptyString s with
  | Some (_, m, caps) => m :: map (fun i => capture i caps) (seq 1 n)
  | None => []
  end.

(** All the successive matches, from the left: each with the text that
    separates it from the match before, and the text after the last.
    None of the patterns of the sources matches the empty string; an
    empty match is passed over. *)
Fixpoint scan (r : re) (skip : nat) (prev : option ascii) (cur : string) (s : string)
  : list (string * string) * string :=
  match s with
  | EmptyString => ([], rev cur)
  | String c s' =>
      match skip with
      | S k => scan r k (Some c) cur s'
      | O =>
          match match_here r prev s with
          | Some (S n, _) =>
              let '(l, t) := scan r n (Some c) EmptyString s' in
              ((rev cur, take (S n) s) :: l, t)
          | _ => scan r O (Some c) (String c cur) s'
          end
      end
  end.

Definition FindAll (r : re) (s : string) : list (string * string) * string :=
  scan r O None EmptyString s.

Fixpoint concat_strings (l : list string) : string :=
  match l with
  | [] => EmptyString
  | x :: l' => x ++ concat_strings l'
  end.

Definition ReplaceAllStringFunc (r : re) (src : string) (repl : string -> string) : string :=
  let '(l, t) := FindAll r src in
  concat_strings (map (fun '(pre, m) => pre ++ repl m) l) ++ t.

(** [ReplaceAllString] with a template free of [$]. *)
Definition ReplaceAllString (r : re) (src repl : string) : string :=
  ReplaceAllStringFunc r src (fun _ => repl).

(** [Split(s, -1)]. *)
Definition Split (r : re) (s : string) : list string :=
  let '(l, t) := FindAll r s in
  (map fst l ++ [t])%list.

(** ** Pattern constructors *)

Definition lit (c : ascii) : re := Byte (Ascii.eqb c).

Fixpoint str (s : string) : re :=
  match s with
  | EmptyString => Eps
  | String c EmptyString => lit c
  | String c s' => Cat (lit c) (str s')
  end.

(** One letter under [(?i)]: both cases, and for [s] and [k] the two
    letters beyond ASCII that fold to them (U+017F, U+212A). *)
Definition lit_ci (c : ascii) : re :=
  let l := lower_byte c in
  let both := Byte (fun x => Ascii.eqb (lower_byte x) l) in
  if Ascii.eqb l "s" then Alt both (Cat (Byte (is_byte 197)) (Byte (is_byte 191)))
  else if Ascii.eqb l "k"
       then Alt both (Cat (Byte (is_byte 226)) (Cat (Byte (is_byte 132)) (Byte (is_byte 170))))
       else both.

Fixpoint str_ci (s : string) : re :=
  match s with
  | EmptyString => Eps
  | String c EmptyString => lit_ci c
  | String c s' => Cat (lit_ci c) (str_ci s')
  end.

Fixpoint seq_re (l : list re) : re :=
  match l with
  | [] => Eps
  | [r] => r
  | r :: l' => Cat r (seq_re l')
  end.

(** Classes. [\s] is [[\t\n\f\r ]], [\d] is [[0-9]], [.] is any byte
    but the line feed. *)
Definition cls_space (c : ascii) : bool :=
  is_byte 9 c || is_byte 10 c || is_byte 12 c || is_byte 13 c || is_byte 32 c.
Definition cls_digit (c : ascii) : bool := byte_in 48 57 c.
Definition cls_dot (c : ascii) : bool := negb (is_nl c).
Definition cls_one_of (set : string) (c : ascii) : bool :=
  existsb (Ascii.eqb c) (list_ascii_of_string set).
Definition cls_none_of (set : string) (c : ascii) : bool := negb (cls_one_of set c).
Definition cls_lower (c : ascii) : bool := byte_in 97 122 c.

End regexp.

(* ===================================================================== *)
(** * The [fmt] package: the verbs the sources use on integers *)
(* ===================================================================== *)

Module fmt.

(** Decimal digits of a natural number. [fuel] bounds the number of
    digits; a number below [2 ^ fuel] has no more than [fuel]. *)
Fixpoint digits_go (fuel : nat) (n : Z) (acc : string) : string :=
  match fuel with
  | O => acc
  | S fuel' =>
      let acc' := String (ascii_of_N (Z.to_N (48 + n mod 10))) acc in
      if n <? 10 then acc' else digits_go fuel' (n / 10) acc'
  end.

Definition digits (n : Z) : string :=
  digits_go (S (Z.to_nat (Z.log2 n))) n EmptyString.

Fixpoint zeros (n : nat) : string :=
  match n with
  | O => EmptyString
  | S n' => String "0" (zeros n')
  end.

(** [%d]. *)
Definition d (z : Z) : string :=
  if z <? 0 then String "-" (digits (- z)) else digits z.

(** [%0wd]: padded with zeros to the width [w], the sign included. *)
Definition d0 (w : nat) (z : Z) : string :=
  let ds := digits (Z.abs z) in
  let w' := if z <? 0 then Nat.pred w else w in
  let padded := zeros (w' - String.length ds) ++ ds in
  if z <? 0 then String "-" padded else padded.

End fmt.

(* ===================================================================== *)
(** * utils.go: the SRT time stamp *)
(* ===================================================================== *)

(** [formatMsToSRTTime]: HH:MM:SS,mmm. *)
Definition formatMsToSRTTime (ms : Z) : string :=
  let h := Z.quot ms 3600000 in
  let m := Z.quot (Z.rem ms 3600000) 60000 in
  let s := Z.quot (Z.rem ms 60000) 1000 in
  let msr := Z.rem ms 1000 in
  fmt.d0 2 h ++ ":" ++ fmt.d0 2 m ++ ":" ++ fmt.d0 2 s ++ "," ++ fmt.d0 3 msr.

(* ===================================================================== *)
(** * pipeline.go *)
(* ===================================================================== *)

Import regexp.

(** [SRTBlock]: the in-memory cue of the decoders. *)
Record SRTBlock := {
  Index : Z;
  StartMs : Z;
  EndMs : Z;
  BlockText : string   (* may contain line feeds *)
}.

(** [Dlg]: a dialogue line of the pipeline. *)
Record Dlg := {
  Start : Z;
  End_ : Z;
  Text : string;       (* text with original tags intact *)
  Style : string
}.

Definition nl : string := String "010" "".

(** [splitMultiline]: one block per line, with the timing of the cue. *)
Definition splitMultiline (blocks : list SRTBlock) : list SRTBlock :=
  fold_left
    (fun out b =>
       fold_left
         (fun out ln =>
            (out ++ [{| Index := Index b; StartMs := StartMs b; EndMs := EndMs b;
                        BlockText := TrimSpace ln |}])%list)
         (strings.Split (BlockText b) nl) out)
    blocks [].

(** [\{.*?\}] *)
Definition reTag : re :=
  seq_re [lit "{"; Rep cls_dot 0 false; lit "}"].

(** [^[^a-z]+$] *)
Definition reFullCaps : re :=
  seq_re [Bol false; Rep (fun c => negb (cls_lower c)) 1 true; Eol false].

(** [^\s*[\(\[].*[\)\]]\s*$] *)
Definition reWrapped : re :=
  seq_re [Bol false; Rep cls_space 0 true; Byte (cls_one_of "(["); Rep cls_dot 0 true;
          Byte (cls_one_of ")]"); Rep cls_space 0 true; Eol false].

(** [detectStyle]: "tanda" or "Default". *)
Definition detectStyle (text : string) : string :=
  (* remove all {..} tags temporarily *)
  let clean := ReplaceAllString reTag text "" in
  let clean := TrimSpace clean in
  if String.eqb clean "" then "Default"
  (* check if full caps (no lowercase a-z) *)
  else if MatchString reFullCaps clean then "tanda"
  (* check if wrapped in () or [] *)
  else if MatchString reWrapped clean then "tanda"
  else "Default".

(** [\s+] *)
Definition reSpaces : re := Rep cls_space 1 true.

(** [normalizeSpaces]: runs of white space collapsed, then trimmed. *)
Definition normalizeSpaces (s : string) : string :=
  TrimSpace (ReplaceAllString reSpaces s " ").

(** The comparison handed to the sort: [arr[i].Start < arr[j].Start]. *)
Definition less (a b : Dlg) : bool := Start a <? Start b.

(** [sort.SliceStable]: elements that compare equal keep their order, so
    the result is that of the insertion sort below, which takes the
    elements from the last to the first and lets an element pass only
    the elements that are less than it. *)
Fixpoint insert_by_start (x : Dlg) (l : list Dlg) : list Dlg :=
  match l with
  | [] => [x]
  | y :: l' => if less y x then y :: insert_by_start x l' else x :: l
  end.

Definition sort_stable_by_start (l : list Dlg) : list Dlg :=
  foldr insert_by_start [] l.

Definition with_end (d : Dlg) (e : Z) : Dlg :=
  {| Start := Start d; End_ := e; Text := Text d; Style := Style d |}.

(** One turn of the loop of [mergeSameOrContinuous] over the sorted
    slice: [merged] before and after [cur] is handled. [last] points at
    the last element of [merged]. *)
Definition merge_step (tolerance : float64) (merged : list Dlg) (cur : Dlg) : list Dlg :=
  match last merged with
  | None => (merged ++ [cur])%list
  | Some lst =>
      if String.eqb (Style lst) (Style cur) &&
         String.eqb (normalizeSpaces (Text lst)) (normalizeSpaces (Text cur))
      then
        (* exact duplicate (same start and end) *)
        if (Start lst =? Start cur) && (End_ lst =? End_ cur) then merged
        (* continuous? *)
        else if F64.leb (F64.abs (F64.of_Z (Int64.sub (Start cur) (End_ lst))))
                        (F64.mul tolerance f1000)
        then <[Nat.pred (length merged) := with_end lst (End_ cur)]> merged
        else (merged ++ [cur])%list
      else (merged ++ [cur])%list
  end.

(** [mergeSameOrContinuous]: exact duplicates removed, keeping the first;
    consecutive blocks of the same style and text merged when the gap is
    within the tolerance. *)
Definition mergeSameOrContinuous (dlgs : list Dlg) (tolerance : float64) : list Dlg :=
  let arr := sort_stable_by_start dlgs in
  fold_left (merge_step tolerance) arr [].

(** The key of a group: start, end and style. *)
Definition key : Type := Z * Z * string.

Definition key_of (d : Dlg) : key := (Start d, End_ d, Style d).

Definition group_step (st : gmap key (list string) * list key) (d : Dlg)
  : gmap key (list string) * list key :=
  let '(groups, order) := st in
  let k := key_of d in
  let order' := match groups !! k with
                | None => (order ++ [k])%list
                | Some _ => order
                end in
  (<[k := (default [] (groups !! k) ++ [Text d])%list]> groups, order').

Definition joinN : string := "\N".

(** [mergeSameTimeAndStyle]: the blocks of the same start, end and style
    grouped, their texts joined with [\N]. *)
Definition mergeSameTimeAndStyle (dlgs : list Dlg) : list Dlg :=
  let '(groups, order) := fold_left group_step dlgs (∅, []) in
  map (fun k : key =>
         let texts := default [] (groups !! k) in
         {| Start := k.1.1; End_ := k.1.2; Text := Join texts joinN; Style := k.2 |})
      order.

(** The patterns of [cleanFontAndEffects]. *)
Definition reFn : re :=            (* (?i)\\fn[^\\\}]+ *)
  seq_re [lit "\"; str_ci "fn"; Rep (cls_none_of "\}") 1 true].
Definition reFs : re :=            (* (?i)\\fs\d+ *)
  seq_re [lit "\"; str_ci "fs"; Rep cls_digit 1 true].
Definition reBlur : re :=          (* (?i)\{\\blur[^}]*\} *)
  seq_re [str "{\"; str_ci "blur"; Rep (cls_none_of "}") 0 true; lit "}"].
Definition reFad : re :=           (* (?i)\{\\fad\([^}]*\)} *)
  seq_re [str "{\"; str_ci "fad"; lit "("; Rep (cls_none_of "}") 0 true; str ")}"].
Definition reBlurInline : re :=    (* (?i)\\blur[0-9.]+ *)
  seq_re [lit "\"; str_ci "blur"; Rep (fun c => cls_digit c || is_byte 46 c) 1 true].
Definition reFadInline : re :=     (* (?i)\\fad\([^)]*\) *)
  seq_re [lit "\"; str_ci "fad"; lit "("; Rep (cls_none_of ")") 0 true; lit ")"].

(** [cleanFontAndEffects]: [\fn...], [\fs...], [\blur...] and [\fad...]
    removed, and the tag wrappers they leave empty. *)
Definition cleanFontAndEffects (s : string) : string :=
  let out := ReplaceAllString reFn s "" in
  let out := ReplaceAllString reFs out "" in
  let out := ReplaceAllString reBlur out "" in
  let out := ReplaceAllString reFad out "" in
  let out := ReplaceAllString reBlurInline out "" in
  let out := ReplaceAllString reFadInline out "" in
  strings.ReplaceAll out "{}" "".

(** [formatMsToASSTime]: H:MM:SS.xx (centiseconds). Go's [/] and [%]
    truncate towards zero. *)
Definition formatMsToASSTime (ms : Z) : string :=
  let totalSec := Z.quot ms 1000 in
  let h := Z.quot totalSec 3600 in
  let m := Z.quot (Z.rem totalSec 3600) 60 in
  let s := Z.rem totalSec 60 in
  let centi := Z.quot (Z.rem ms 1000) 10 in
  fmt.d h ++ ":" ++ fmt.d0 2 m ++ ":" ++ fmt.d0 2 s ++ "." ++ fmt.d0 2 centi.

Definition effectPrefix : string := "{\blur3}{\fad(00,40)}".

(** Step 2 of [ConvertSRTBlocksToASS]: every line becomes a dialogue
    with the style [detectStyle] finds for its text. *)
Definition classifyLines (lines : list SRTBlock) : list Dlg :=
  fold_left
    (fun dlgs b =>
       let style := detectStyle (BlockText b) in
       (dlgs ++ [{| Start := StartMs b; End_ := EndMs b; Text := BlockText b;
                    Style := style |}])%list)
    lines [].

Definition with_text (d : Dlg) (t : string) : Dlg :=
  {| Start := Start d; End_ := End_ d; Text := t; Style := Style d |}.

(** Steps 1 to 5 of [ConvertSRTBlocksToASS]: the merged and cleaned
    dialogues. *)
Definition pipelineDialogues (blocks : list SRTBlock) (tolerance : float64) : list Dlg :=
  (* 1. split multiline -> make one block per line (but keep original timing) *)
  let lines := splitMultiline blocks in
  (* 2. detectStyle *)
  let dlgs := classifyLines lines in
  (* 3. mergeSameOrContinuous *)
  let dlgs := mergeSameOrContinuous dlgs tolerance in
  (* 4. mergeSameTimeAndStyle -> combine text with \N *)
  let dlgs := mergeSameTimeAndStyle dlgs in
  (* 5. clean tags *)
  map (fun d => with_text d (cleanFontAndEffects (Text d))) dlgs.

(** The [Dialogue:] line of a block: the default effects are put before
    the text unless the style is tanda. *)
Definition dialogueLine (d : Dlg) : string :=
  let text := if negb (String.eqb (Style d) "tanda")
              then effectPrefix ++ Text d else Text d in
  let start := formatMsToASSTime (Start d) in
  let end_ := formatMsToASSTime (End_ d) in
  "Dialogue: 0," ++ start ++ "," ++ end_ ++ "," ++ Style d ++ ",,0,0,0,," ++ text.

(** [ConvertSRTBlocksToASS]: the pipeline from the blocks to the
    [Dialogue:] lines. *)
Definition ConvertSRTBlocksToASS (blocks : list SRTBlock) (tolerance : float64) : list string :=
  let dlgs := pipelineDialogues blocks tolerance in
  (* 6. apply default effects except style tanda *)
  fold_left (fun assLines d => (assLines ++ [dialogueLine d])%list) dlgs [].

(* ===================================================================== *)
(** * parsers.go *)
(* ===================================================================== *)

(** [parseSRTTimeLine]: the two time stamps around the arrow. *)
Definition parseSRTTimeLine (line : string) : Z * Z :=
  match strings.Split line "-->" with
  | p0 :: p1 :: _ =>
      let start := TrimSpace p0 in
      let end_ := TrimSpace p1 in
      (parseTimeStringToMs start, parseTimeStringToMs end_)
  | _ => (0, 0)
  end.

(** The inner loop of [parseSRTString]: the first line that holds an
    arrow, with the lines after it. *)
Fixpoint find_timeline (lines : list string) : option (string * list string) :=
  match lines with
  | [] => None
  | l :: rest =>
      if Contains l "-->" then Some (l, rest) else find_timeline rest
  end.

(** [\n{2,}] *)
Definition reBlank : re := Rep regexp.is_nl 2 true.

Definition cr : string := String "013" "".

(** [parseSRTString]: the cues of an SRT document. *)
Definition parseSRTString (content : string) : list SRTBlock :=
  let content := strings.ReplaceAll content (cr ++ nl) nl in
  let content := strings.ReplaceAll content cr nl in
  let parts := regexp.Split reBlank (TrimSpace content) in
  fst (fold_left
         (fun '(out, idx) p =>
            let lines := strings.Split p nl in
            if (length lines <? 2)%nat then (out, idx)
            else
              match find_timeline lines with
              | Some (timeLine, textLines) =>
                  let '(startMs, endMs) := parseSRTTimeLine timeLine in
                  let text := Join textLines nl in
                  ((out ++ [{| Index := idx; StartMs := startMs; EndMs := endMs;
                               BlockText := text |}])%list,
                   idx + 1)
              | None => (out, idx)
              end)
         parts ([], 1)).

(** ** The JSON decoder *)

(** A value as [encoding/json] decodes it into [interface{}]: [nil],
    [bool], [float64], [string], [[]interface{}] and
    [map[string]interface{}]. *)
#[warnings="-register-all"]
Inductive json : Type :=
| JNull
| JBool (b : bool)
| JNumber (f : float64)
| JString (s : string)
| JArray (l : list json)
| JObject (m : gmap string json).

Inductive error : Type :=
| UnmarshalTypeError (value : string) (type : string)
| Errorf (msg : string).

Definition json_kind (v : json) : string :=
  match v with
  | JNull => "null"
  | JBool _ => "bool"
  | JNumber _ => "number"
  | JString _ => "string"
  | JArray _ => "array"
  | JObject _ => "object"
  end.

(** [json.Unmarshal(data, &root)] for [root map[string]interface{}]: an
    object fills the map, [null] leaves it nil, and any other value is a
    type error. *)
Definition Unmarshal_map (data : json) : error + gmap string json :=
  match data with
  | JObject m => inr m
  | JNull => inr ∅
  | v => inl (UnmarshalTypeError (json_kind v) "map[string]interface {}")
  end.

(** [json.Unmarshal(data, &arr)] for [arr []interface{}]. *)
Definition Unmarshal_slice (data : json) : error + list json :=
  match data with
  | JArray l => inr l
  | JNull => inr []
  | v => inl (UnmarshalTypeError (json_kind v) "[]interface {}")
  end.

(** [asInt64]: the cases of the values a JSON document decodes to. *)
Definition asInt64 (v : json) : Z :=
  match v with
  | JNumber t => F64.to_int64 t
  | JString t => fst (strconv.ParseInt (TrimSpace t))
  | _ => 0
  end.

Section JSONDecoder.
(** [fmt.Sprintf("%v", v)] on a decoded value. *)
Variable Sprintf_v : json -> string.
(** [sort.Slice(out, less)] with [less] comparing [StartMs]: the order
    of blocks of equal start is the library's choice. *)
Variable sort_Slice : list SRTBlock -> list SRTBlock.

(** The text of one element of [segs]. *)
Definition seg_text (s : json) : string :=
  match s with
  | JObject m =>
      match m !! "utf8" with
      | Some ut => Sprintf_v ut
      | None =>
          match m !! "text" with
          | Some txt => Sprintf_v txt
          | None => ""
          end
      end
  | _ => Sprintf_v s
  end.

(** The body of the loop of [jsonEventsToSRT] on the event [e] at the
    index [i]; [None] when the event is no object and is passed over. *)
Definition event_block (i : Z) (e : json) : option SRTBlock :=
  match e with
  | JObject ev =>
      let startMs :=
        match ev !! "tStartMs" with
        | Some v => asInt64 v
        | None => match ev !! "start" with
                  | Some v => asInt64 v
                  | None => 0
                  end
        end in
      let durMs :=
        match ev !! "dDurationMs" with
        | Some v => asInt64 v
        | None => match ev !! "duration" with
                  | Some v => asInt64 v
                  | None => 0
                  end
        end in
      (* fallback small duration *)
      let durMs := if durMs =? 0 then 2000 else durMs in
      let endMs := Int64.add startMs durMs in
      let text :=
        match ev !! "segs" with
        | Some (JArray segs) =>
            fold_left (fun sb s => sb ++ seg_text s) segs ""
        | _ =>
            match ev !! "text" with
            | Some v => Sprintf_v v
            | None => ""
            end
        end in
      Some {| Index := i + 1; StartMs := startMs; EndMs := endMs;
              BlockText := TrimSpace text |}
  | _ => None
  end.

Fixpoint events_loop (i : Z) (events : list json) (out : list SRTBlock) : list SRTBlock :=
  match events with
  | [] => out
  | e :: rest =>
      match event_block i e with
      | Some b => events_loop (i + 1) rest (out ++ [b])%list
      | None => events_loop (i + 1) rest out
      end
  end.

Definition jsonEventsToSRT (events : list json) : error + list SRTBlock :=
  inr (sort_Slice (events_loop 0 events [])).

(** [parseJSONToSRT] on the JSON value the bytes of the file stand
    for. Reading the file and scanning its syntax come first in the
    source and are left out. *)
Definition parseJSONToSRT (data : json) : error + list SRTBlock :=
  (* Try to decode into generic *)
  match Unmarshal_map data with
  | inl err => inl err
  | inr root =>
      match root !! "events" with
      | None =>
          (* try "body" or top-level array *)
          match Unmarshal_slice data with
          | inr arr => jsonEventsToSRT arr
          | inl _ => inl (Errorf "no events array found in JSON")
          end
      | Some eventsRaw =>
          match eventsRaw with
          | JArray events => jsonEventsToSRT events
          | _ => inl (Errorf "events is not array")
          end
      end
  end.
End JSONDecoder.

(** ** The text of XML and TTML cues *)

(** [(?i)<br\s*/?>] *)
Definition reBr : re :=
  seq_re [lit "<"; str_ci "br"; Rep cls_space 0 true; Opt (lit "/"); lit ">"].

(** [normalizeBrTags]: the variants of [<br />] replaced with a line
    feed, and the line ends CR LF and CR as well. *)
Definition normalizeBrTags (s : string) : string :=
  let out := ReplaceAllString reBr s nl in
  let out := strings.ReplaceAll out (cr ++ nl) nl in
  strings.ReplaceAll out cr nl.

(** [(?s)<[^>]+>] *)
Definition reXmlTag : re :=
  seq_re [lit "<"; Rep (cls_none_of ">") 1 true; lit ">"].

(** [stripTagsButPreserveNewlines]: the tags removed, the text between
    them kept. *)
Definition stripTagsButPreserveNewlines (s : string) : string :=
  ReplaceAllString reXmlTag s "".

(* ===================================================================== *)
(** * Formatting floats: the verbs [%.Nf] and [%g] *)
(* ===================================================================== *)

Module ftoa.
Import fmt.

(** The quotient [n / d] rounded to the nearest integer, a tie going to
    the even one ([n >= 0], [d > 0]). *)
Definition div_half_even (n d : Z) : Z :=
  let q := n / d in
  let r := n mod d in
  match 2 * r ?= d with
  | Lt => q
  | Gt => q + 1
  | Eq => if Z.even q then q else q + 1
  end.

(** The digits of [n], padded on the left with zeros to [w] digits. *)
Definition digits_w (w : nat) (n : Z) : string :=
  let ds := digits n in
  zeros (w - String.length ds) ++ ds.

(** [%.Nf]: the exact value rounded to [N] decimals. *)
Definition fixed (N : nat) (f : float64) : string :=
  match f with
  | S754_nan => "NaN"
  | S754_infinity false => "+Inf"
  | S754_infinity true => "-Inf"
  | S754_zero s =>
      (if s then "-" else "") ++ "0" ++
      (match N with O => "" | _ => "." ++ zeros N end)
  | S754_finite s m e =>
      let scale := 10 ^ Z.of_nat N in
      let n := if 0 <=? e then Zpos m * 2 ^ e * scale
               else div_half_even (Zpos m * scale) (2 ^ (- e)) in
      (if s then "-" else "") ++ digits (n / scale) ++
      (match N with O => "" | _ => "." ++ digits_w N (n mod scale) end)
  end.

(** ** The shortest decimal that reads back as the float *)

(** A positive finite float [m * 2 ^ e] and the interval of the reals
    that round to it, all three as numerators over [2 ^ sh]:
    the value, the lower and the upper bound. The lower neighbour is
    half as far when [m] is a power of two above the smallest
    exponent. *)
Definition bounds (m : positive) (e : Z) : Z * Z * Z * Z :=
  let close := (Zpos m =? 2 ^ 52) && (-1074 <? e) in
  (* two extra bits, so that the half-gaps are integers *)
  let e' := e - 2 in
  let v := 4 * Zpos m in
  let lo := if close then v - 1 else v - 2 in
  let hi := v + 2 in
  if 0 <=? e' then (v * 2 ^ e', lo * 2 ^ e', hi * 2 ^ e', 1)
  else (v, lo, hi, 2 ^ (- e')).

(** At the decimal position [k], the candidates are the two multiples
    of [10 ^ k] around the value. The result is the multiplier of the
    one that lies in the interval ([incl]: bounds included), the closer
    one if both do, the even one in a tie. *)
Definition candidate (v lo hi den : Z) (incl : bool) (k : Z) : option Z :=
  (* the value, the bounds and a multiple [c * 10^k] over one denominator *)
  let num := if 0 <=? k then 1 else 10 ^ (- k) in
  let unit := if 0 <=? k then den * 10 ^ k else den in
  let V := v * num in
  let L := lo * num in
  let H := hi * num in
  let a := V / unit in
  let b := a + 1 in
  let ok_a := (0 <? a) && (if incl then L <=? a * unit else L <? a * unit) in
  let ok_b := if incl then b * unit <=? H else b * unit <? H in
  match ok_a, ok_b with
  | true, true =>
      match V - a * unit ?= b * unit - V with
      | Lt => Some a
      | Gt => Some b
      | Eq => Some (if Z.even a then a else b)
      end
  | true, false => Some a
  | false, true => Some b
  | false, false => None
  end.

(** The first position, from [k] downwards, that has a candidate. *)
Fixpoint shortest_from (fuel : nat) (v lo hi den : Z) (incl : bool) (k : Z) : Z * Z :=
  match fuel with
  | O => (0, k)
  | S fuel' =>
      match candidate v lo hi den incl k with
      | Some c => (c, k)
      | None => shortest_from fuel' v lo hi den incl (k - 1)
      end
  end.

Fixpoint strip_zeros (fuel : nat) (c k : Z) : Z * Z :=
  match fuel with
  | O => (c, k)
  | S fuel' => if (c mod 10 =? 0) && (0 <? c) then strip_zeros fuel' (c / 10) (k + 1) else (c, k)
  end.

(** The digits [d] and the position [dp] of the point: the float reads
    [0.d * 10 ^ dp]. *)
Definition shortest (m : positive) (e : Z) : string * Z :=
  let '(v, lo, hi, den) := bounds m e in
  let k0 := Z.of_nat (String.length (digits (hi / den))) in
  let '(c, k) := shortest_from 400 v lo hi den (Z.even (Zpos m)) k0 in
  let '(c, k) := strip_zeros 400 c k in
  let ds := digits c in
  (ds, Z.of_nat (String.length ds) + k).

(** [%e] with the digits [ds]: [d.ddde+XX]. *)
Definition fmtE (ds : string) (dp : Z) : string :=
  let exp := dp - 1 in
  let first := strings.take 1 ds in
  let rest := strings.drop 1 ds in
  first ++ (if String.eqb rest "" then "" else "." ++ rest) ++ "e" ++
  (if exp <? 0 then "-" else "+") ++ digits_w 2 (Z.abs exp).

(** [%f] with the digits [ds] and as many decimals as they need. *)
Definition fmtF (ds : string) (dp : Z) : string :=
  let n := Z.of_nat (String.length ds) in
  let int_part :=
    if 0 <? dp
    then strings.take (Z.to_nat dp) ds ++ zeros (Z.to_nat (dp - n))
    else "0" in
  let frac :=
    if dp <? n
    then "." ++ zeros (Z.to_nat (- dp)) ++ strings.drop (Z.to_nat dp) ds
    else "" in
  int_part ++ frac.

(** [%g] (and [%v] of a float): the shortest digits, in the exponent
    form when the decimal exponent is below -4 or at least 6. *)
Definition g (f : float64) : string :=
  match f with
  | S754_nan => "NaN"
  | S754_infinity false => "+Inf"
  | S754_infinity true => "-Inf"
  | S754_zero s => if s then "-0" else "0"
  | S754_finite s m e =>
      let '(ds, dp) := shortest m e in
      let exp := dp - 1 in
      (if s then "-" else "") ++
      (if (exp <? -4) || (6 <=? exp) then fmtE ds dp else fmtF ds dp)
  end.

End ftoa.

(* ===================================================================== *)
(** * ass_resample.go *)
(* ===================================================================== *)

Definition targetFont : string := "Basic Comical NC".

Definition cls_num (c : ascii) : bool := cls_digit c || is_byte 46 c.          (* [0-9.] *)
Definition cls_signed (c : ascii) : bool := cls_num c || cls_one_of "+-" c.    (* [0-9.+-] *)
Definition sp : re := Rep cls_space 0 true.                                     (* \s* *)

(** [(?m)^PlayResX\s*:\s*([0-9]+)] and the same for [PlayResY]. *)
Definition rePlayRes (axis : string) (grouped : bool) : re :=
  let num := Rep cls_digit 1 true in
  seq_re [Bol true; str ("PlayRes" ++ axis); sp; lit ":"; sp;
          if grouped then Group 1 num else num].

Definition detectPlayRes (content : string) : Z * Z :=
  let get axis :=
    match FindStringSubmatch (rePlayRes axis true) 1 content with
    | _ :: m1 :: _ => fst (strconv.Atoi m1)
    | _ => 0
    end in
  (get "X", get "Y").

Definition styles_header : string := "[V4+ Styles]".

Definition updateOrInsertPlayRes (content : string) (x y : Z) : string :=
  let reX := rePlayRes "X" false in
  let reY := rePlayRes "Y" false in
  let content :=
    if MatchString reX content
    then ReplaceAllString reX content ("PlayResX: " ++ fmt.d x)
    else ReplaceFirst content styles_header
           ("PlayResX: " ++ fmt.d x ++ nl ++ "PlayResY: " ++ fmt.d y ++ nl ++ nl ++ styles_header) in
  if MatchString reY content
  then ReplaceAllString reY content ("PlayResY: " ++ fmt.d y)
  else content.

(** [(?m)^\[V4\+ Styles\]] *)
Definition reStylesHeader : re := Cat (Bol true) (str styles_header).

Definition insertResampleComment (content : string) : string :=
  ReplaceAllString reStylesHeader content
    ("; Resampled to 1920x1080 and normalized by Limesub v3" ++ nl ++ nl ++ styles_header).

(** [(?m)^Style:\s*([^,]+),([^,]+),([0-9.]+),(R)$], where [R] is [.*]. *)
Definition reStyle : re :=
  seq_re [Bol true; str "Style:"; sp;
          Group 1 (Rep (cls_none_of ",") 1 true); lit ",";
          Group 2 (Rep (cls_none_of ",") 1 true); lit ",";
          Group 3 (Rep cls_num 1 true); lit ",";
          Group 4 (Rep cls_dot 0 true); Eol true].

(** The function handed to [reStyle.ReplaceAllStringFunc]: the font name
    of a style line replaced. *)
Definition replaceStyleFont (line : string) : string :=
  match SplitN line "," 4 with
  | p0 :: _ :: p2 :: p3 :: _ =>
      let name := TrimSpace (TrimPrefix p0 "Style:") in
      let fontsizePart := p2 in
      let rest := p3 in
      "Style: " ++ TrimSpace name ++ "," ++ targetFont ++ "," ++
      TrimSpace fontsizePart ++ "," ++ rest
  | _ => line
  end.

(** [(?i)\\fn[^\\\}]+] is [reFn] of the pipeline. *)
Definition reFnInline : re := reFn.

(** [splitCSVPreserve]: the fields between the commas, trimmed. *)
Definition splitCSVPreserve (s : string) : list string :=
  map TrimSpace (strings.Split s ",").

(** [parts[i] = format(v * factor)] when [parts[i]] reads as a float; the
    slice is left as it is otherwise, and when it has no index [i]. *)
Definition scale_field (format : float64 -> string) (factor : float64) (i : nat)
    (parts : list string) : list string :=
  match parts !! i with
  | Some p =>
      let '(v, ok) := strconv.ParseFloat p in
      if ok then <[i := format (F64.mul v factor)]> parts else parts
  | None => parts
  end.

(** The body of the loop of [rescaleStyleMargins]: one line of the
    document. Fontsize is field 2, Outline 16, Shadow 17, MarginL 19,
    MarginR 20, MarginV 21. *)
Definition rescaleStyleLine (fx fy f : float64) (line : string) : string :=
  if HasPrefix line "Style:" then
    (* split by commas *)
    let parts := splitCSVPreserve (strings.drop (String.length "Style:") line) in
    (* ensure length *)
    if (22 <=? length parts)%nat then
      let parts := map TrimSpace parts in
      (* fontsize *)
      let parts := scale_field (ftoa.fixed 0) f 2 parts in
      (* Outline *)
      let parts := scale_field ftoa.g f 16 parts in
      (* Shadow *)
      let parts := scale_field ftoa.g f 17 parts in
      (* Margins *)
      let parts := scale_field (ftoa.fixed 0) fx 19 parts in
      let parts := scale_field (ftoa.fixed 0) fx 20 parts in
      let parts := scale_field (ftoa.fixed 0) fy 21 parts in
      (* reconstruct *)
      "Style: " ++ Join parts ","
    else line
  else line.

(** The lines a [bufio.Scanner] yields: split at line feeds, one
    trailing carriage return dropped, no empty line after the last line
    feed. The scanner stops, without a word, at a line of 64 KiB or more;
    the lines after it are lost. *)
Definition dropCR (l : string) : string :=
  if HasSuffix l cr then strings.take (String.length l - 1) l else l.

Definition fits_token (p : string) : bool :=
  (N.of_nat (String.length p) <? 65536)%N.

Fixpoint scan_tokens (pieces : list string) : list string :=
  match pieces with
  | [] => []
  | [p] => if String.eqb p "" then []
           else if fits_token p then [dropCR p] else []
  | p :: rest =>
      if fits_token p then dropCR p :: scan_tokens rest else []
  end.

Definition scanner_lines (content : string) : list string :=
  scan_tokens (strings.Split content nl).

Definition rescaleStyleMargins (content : string) (fx fy f : float64) : string :=
  Join (map (rescaleStyleLine fx fy f) (scanner_lines content)) nl.

(** The patterns of [rescaleDialogueTags]. *)
Definition num_group (i : nat) : re := Group i (Rep cls_signed 1 true).
Definition comma : re := seq_re [sp; lit ","; sp].

(** [(?i)\\NAME\(\s*(n)\s*,\s*(n)\s*\)] *)
Definition rePair (name : string) : re :=
  seq_re [lit "\"; str_ci name; lit "("; sp; num_group 1; comma; num_group 2; sp; lit ")"].

Definition rePos : re := rePair "pos".
Definition reOrg : re := rePair "org".

(** [(?i)\\move\(\s*(n)\s*,\s*(n)\s*,\s*(n)\s*,\s*(n)(,.*?)?\)] *)
Definition reMove : re :=
  seq_re [lit "\"; str_ci "move"; lit "("; sp; num_group 1; comma; num_group 2; comma;
          num_group 3; comma; num_group 4;
          Opt (Group 5 (Cat (lit ",") (Rep cls_dot 0 false))); lit ")"].

(** [(?i)\\iclip\(\s*(n)\s*,\s*(n)\s*,\s*(n)\s*,\s*(n)\s*\)] *)
Definition reClip : re :=
  seq_re [lit "\"; str_ci "iclip"; lit "("; sp; num_group 1; comma; num_group 2; comma;
          num_group 3; comma; num_group 4; sp; lit ")"].

(** [(?i)\\NAME([0-9.]+)] *)
Definition reScalar (name : string) : re :=
  seq_re [lit "\"; str_ci name; Group 1 (Rep cls_num 1 true)].

Definition pf (s : string) : float64 := fst (strconv.ParseFloat s).

Definition f2 (v : float64) : string := ftoa.fixed 2 v.

(** The replacement of one match of a pair pattern ([\pos], [\org]). *)
Definition scalePair (r : re) (name : string) (fx fy : float64) (s : string) : string :=
  match FindStringSubmatch r 2 s with
  | [_; m1; m2] =>
      "\" ++ name ++ "(" ++ f2 (F64.mul (pf m1) fx) ++ "," ++ f2 (F64.mul (pf m2) fy) ++ ")"
  | _ => s
  end.

Definition scaleMove (fx fy : float64) (s : string) : string :=
  match FindStringSubmatch reMove 5 s with
  | [_; m1; m2; m3; m4; rest] =>
      "\move(" ++ f2 (F64.mul (pf m1) fx) ++ "," ++ f2 (F64.mul (pf m2) fy) ++ "," ++
      f2 (F64.mul (pf m3) fx) ++ "," ++ f2 (F64.mul (pf m4) fy) ++ rest ++ ")"
  | _ => s
  end.

Definition scaleClip (fx fy : float64) (s : string) : string :=
  match FindStringSubmatch reClip 4 s with
  | [_; a; b; c; d] =>
      "\iclip(" ++ f2 (F64.mul (pf a) fx) ++ "," ++ f2 (F64.mul (pf b) fy) ++ "," ++
      f2 (F64.mul (pf c) fx) ++ "," ++ f2 (F64.mul (pf d) fy) ++ ")"
  | _ => s
  end.

Definition scaleScalar (name : string) (f : float64) (s : string) : string :=
  match FindStringSubmatch (reScalar name) 1 s with
  | [_; m1] => "\" ++ name ++ f2 (F64.mul (pf m1) f)
  | _ => s
  end.

Definition rescaleDialogueTags (content : string) (fx fy f : float64) : string :=
  let content := ReplaceAllStringFunc rePos content (scalePair rePos "pos" fx fy) in
  let content := ReplaceAllStringFunc reMove content (scaleMove fx fy) in
  let content := ReplaceAllStringFunc reOrg content (scalePair reOrg "org" fx fy) in
  let content := ReplaceAllStringFunc reClip content (scaleClip fx fy) in
  fold_left
    (fun content name =>
       ReplaceAllStringFunc (reScalar name) content (scaleScalar name f))
    ["fs"; "fsp"; "bord"; "shad"; "blur"] content.

(** [ResampleASSFileTo1080], from the content read to the content
    written. *)
Definition ResampleASS (content : string) : string :=
  (* detect PlayResX and PlayResY *)
  let '(oldX, oldY) := detectPlayRes content in
  let '(oldX, oldY) :=
    if (oldX =? 0) || (oldY =? 0) then (1280, 720) else (oldX, oldY) in
  let fx := F64.div (F64.of_Z 1920) (F64.of_Z oldX) in
  let fy := F64.div (F64.of_Z 1080) (F64.of_Z oldY) in
  let f := F64.div (F64.add fx fy) (F64.of_Z 2) in
  (* 1. Update PlayResX and PlayResY (replace or insert) *)
  let content := updateOrInsertPlayRes content 1920 1080 in
  (* 2. Insert comment about resample under [Script Info] *)
  let content := insertResampleComment content in
  (* 3. Replace font names in Styles and in {\fn...} inline tags *)
  let content := ReplaceAllStringFunc reStyle content replaceStyleFont in
  let content := ReplaceAllString reFnInline content ("\fn" ++ targetFont) in
  (* 4. Rescale margins in Styles *)
  let content := rescaleStyleMargins content fx fy f in
  (* 5. Rescale tags in Dialogue lines *)
  rescaleDialogueTags content fx fy f.

(* ===================================================================== *)
(** * The properties: definitions *)
(* ===================================================================== *)

(** A tolerance as the command line gives it, in seconds. *)
Definition seconds (s : string) : float64 := fst (strconv.ParseFloat s).

Definition cue (i s e : Z) (t : string) : SRTBlock :=
  {| Index := i; StartMs := s; EndMs := e; BlockText := t |}.

Definition dlg (s e : Z) (t sty : string) : Dlg :=
  {| Start := s; End_ := e; Text := t; Style := sty |}.

(** An SRT document of two cues. *)
Definition srt_hello : string :=
  Join ["1"; "00:00:00,000 --> 00:00:02,000"; "HELLO"; "";
        "2"; "00:00:02,050 --> 00:00:04,000"; "HELLO"; ""] nl.

(** ** The grouping pass, in the words of the specification *)

(** The distinct keys of a list, in the order of their first occurrence. *)
Fixpoint distinct_keys (l : list key) : list key :=
  match l with
  | [] => []
  | k :: l' => k :: filter (λ k', k' ≠ k) (distinct_keys l')
  end.

(** The members of the group of [k], in the order of the input. *)
Definition members (k : key) (dlgs : list Dlg) : list Dlg :=
  filter (λ d, key_of d = k) dlgs.

Definition group_block (k : key) (texts : list string) : Dlg :=
  {| Start := k.1.1; End_ := k.1.2; Text := Join texts joinN; Style := k.2 |}.

(** One block per distinct key, in the order of the first occurrence of
    the keys; its text is the texts of the members, in their order,
    joined with [\N]. *)
Definition groups_spec (dlgs : list Dlg) : list Dlg :=
  map (λ k, group_block k (map Text (members k dlgs))) (distinct_keys (map key_of dlgs)).

(** ** Order of the output *)

Definition le_start (a b : Dlg) : Prop := Start a <= Start b.

(** Each block starts no earlier than the block before it. *)
Definition StartSorted (l : list Dlg) : Prop := Sorted le_start l.

Definition starts (l : list Dlg) : list Z := map Start l.

(** ** The split into lines *)

(** The lines of a cue, each with the timing of the cue. *)
Definition cue_lines (b : SRTBlock) : list SRTBlock :=
  map (fun ln => cue (Index b) (StartMs b) (EndMs b) (TrimSpace ln))
      (strings.Split (BlockText b) nl).

(** The number of line feeds of a text. *)
Fixpoint count_nl (s : string) : nat :=
  match s with
  | EmptyString => 0
  | String c s' => ((if regexp.is_nl c then 1 else 0) + count_nl s')%nat
  end.


(** ** The classifier, in the words of the specification *)

(** The text is wrapped in one matching pair: it opens with a
    parenthesis and closes with one, or opens with a square bracket and
    closes with one. *)
Definition wrapped_in_matching_pair (clean : string) : bool :=
  (HasPrefix clean "(" && HasSuffix clean ")") ||
  (HasPrefix clean "[" && HasSuffix clean "]").

(** ** Fields of a style line *)

(** [s] holds no byte [c]. *)
Fixpoint no_byte (c : ascii) (s : string) : bool :=
  match s with
  | EmptyString => true
  | String x s' => negb (Ascii.eqb x c) && no_byte c s'
  end.

Definition comma_byte : ascii := ",".

(** The fields of a style line: what follows [Style:], split at the
    commas and trimmed. Field 0 is the name, field 1 the font name. *)
Definition style_fields (line : string) : list string :=
  splitCSVPreserve (strings.drop (String.length "Style:") line).

(** A field that reads as a number is replaced by the number times
    [factor], printed with [format]; any other field is kept. *)
Definition scaled (format : float64 -> string) (factor : float64) (p : string) : string :=
  let '(v, ok) := strconv.ParseFloat p in
  if ok then format (F64.mul v factor) else p.

(** What the resampler does to the field [j] of a style line: Fontsize
    (2) and the margins (19, 20, 21) are printed with [%.0f], Outline
    (16) and Shadow (17) with [%g]. *)
Definition style_rule (fx fy f : float64) (j : nat) (p : string) : string :=
  if (j =? 2)%nat then scaled (ftoa.fixed 0) f p
  else if (j =? 16)%nat || (j =? 17)%nat then scaled ftoa.g f p
  else if (j =? 19)%nat || (j =? 20)%nat then scaled (ftoa.fixed 0) fx p
  else if (j =? 21)%nat then scaled (ftoa.fixed 0) fy p
  else p.

(** The same with Spacing (field 13) multiplied by [f] as well, as the
    specification has it, printed with [format13]. *)
Definition style_rule_with_spacing (format13 : float64 -> string)
    (fx fy f : float64) (j : nat) (p : string) : string :=
  if (j =? 13)%nat then scaled format13 f p else style_rule fx fy f j p.

(** The line made of the fields [fields]. *)
Definition style_line (fields : list string) : string :=
  "Style: " ++ Join fields ",".

(** The line is a style line of 22 fields or more, which the rescaling
    pass rewrites. *)
Definition full_style_line (l : string) : bool :=
  HasPrefix l "Style:" && (22 <=? length (style_fields l))%nat.

(** The scale factor from 1280 to 1920, and from 720 to 1080. *)
Definition f15 : float64 := F64.div (F64.of_Z 1920) (F64.of_Z 1280).

(** A style line with Spacing 2, and a document at 1280x720 around it. *)
Definition style0 : string :=
  "Style: Default,Arial,20,&H00FFFFFF,&H000000FF,&H00000000,&H00000000,0,0,0,0,100,100,2,0,1,1.5,1,2,10,10,15,1".

Definition doc0 : string :=
  Join ["[Script Info]"; "PlayResX: 1280"; "PlayResY: 720"; ""; "[V4+ Styles]";
        "Format: Name, Fontname, Fontsize, PrimaryColour, SecondaryColour, OutlineColour, BackColour, Bold, Italic, Underline, StrikeOut, ScaleX, ScaleY, Spacing, Angle, BorderStyle, Outline, Shadow, Alignment, MarginL, MarginR, MarginV, Encoding";
        style0; ""; "[Events]";
        "Dialogue: 0,0:00:00.00,0:00:04.00,Default,,0,0,0,,HELLO"; ""] nl.

(** The same document with an inline spacing tag in its dialogue. *)
Definition doc_spacing : string :=
  Join ["[Script Info]"; "PlayResX: 1280"; "PlayResY: 720"; ""; "[V4+ Styles]";
        "Format: Name, Fontname, Fontsize, PrimaryColour, SecondaryColour, OutlineColour, BackColour, Bold, Italic, Underline, StrikeOut, ScaleX, ScaleY, Spacing, Angle, BorderStyle, Outline, Shadow, Alignment, MarginL, MarginR, MarginV, Encoding";
        style0; ""; "[Events]";
        "Dialogue: 0,0:00:00.00,0:00:04.00,Default,,0,0,0,,{\fsp2}HELLO"; ""] nl.


(** ** A JSON document that is an array of events *)

(** [[{"tStartMs": 0, "dDurationMs": 1000, "text": "hi"}]] *)
Definition json_event : json :=
  JObject (<["tStartMs" := JNumber (F64.of_Z 0)]>
           (<["dDurationMs" := JNumber (F64.of_Z 1000)]>
            (<["text" := JString "hi"]> ∅))).

Definition json_events : json := JArray [json_event].

(** ** The matcher, declaratively *)

(** The byte before the position after [s] has been read. *)
Definition last_byte (prev : option ascii) (s : string) : option ascii :=
  match strings.rev s with
  | String c _ => Some c
  | EmptyString => prev
  end.

Definition bol_ok (multiline : bool) (prev : option ascii) : bool :=
  match prev with
  | None => true
  | Some c => multiline && regexp.is_nl c
  end.

Definition eol_ok (multiline : bool) (rest : string) : bool :=
  match rest with
  | EmptyString => true
  | String c _ => multiline && regexp.is_nl c
  end.

Fixpoint all_bytes (p : ascii -> bool) (s : string) : bool :=
  match s with
  | EmptyString => true
  | String c s' => p c && all_bytes p s'
  end.

(** [matches r prev s rest]: the pattern [r] matches the text [s], which
    stands after the byte [prev] and before the text [rest]. *)
Inductive matches : re -> option ascii -> string -> string -> Prop :=
| M_Eps prev rest : matches Eps prev "" rest
| M_Byte p c prev rest : p c = true -> matches (Byte p) prev (String c "") rest
| M_Cat r1 r2 prev s1 s2 rest :
    matches r1 prev s1 (s2 ++ rest) ->
    matches r2 (last_byte prev s1) s2 rest ->
    matches (Cat r1 r2) prev (s1 ++ s2) rest
| M_AltL r1 r2 prev s rest : matches r1 prev s rest -> matches (Alt r1 r2) prev s rest
| M_AltR r1 r2 prev s rest : matches r2 prev s rest -> matches (Alt r1 r2) prev s rest
| M_Rep p min greedy prev s rest :
    all_bytes p s = true -> (min <= String.length s)%nat ->
    matches (Rep p min greedy) prev s rest
| M_OptSome r prev s rest : matches r prev s rest -> matches (Opt r) prev s rest
| M_OptNone r prev rest : matches (Opt r) prev "" rest
| M_Group i r prev s rest : matches r prev s rest -> matches (Group i r) prev s rest
| M_Bol m prev rest : bol_ok m prev = true -> matches (Bol m) prev "" rest
| M_Eol m prev rest : eol_ok m rest = true -> matches (Eol m) prev "" rest.

(** A sequence of patterns matches the texts of its members, one after
    the other. *)
Inductive matches_seq : list re -> option ascii -> string -> string -> Prop :=
| MS_nil prev rest : matches_seq [] prev "" rest
| MS_cons r l prev s1 s2 rest :
    matches r prev s1 (s2 ++ rest) ->
    matches_seq l (last_byte prev s1) s2 rest ->
    matches_seq (r :: l) prev (s1 ++ s2) rest.

(** The pattern ends with [$]. *)
Inductive ends_with_eol : re -> Prop :=
| E_Eol m : ends_with_eol (Eol m)
| E_Cat r1 r2 : ends_with_eol r2 -> ends_with_eol (Cat r1 r2).

(** The continuation that ends a match. *)
Definition accept : cont := fun _ s' caps => Some (s', caps).

(** The flag of the [$] a pattern ends with. *)
Fixpoint eol_flag (r : re) : bool :=
  match r with
  | Eol m => m
  | Cat _ r2 => eol_flag r2
  | _ => true
  end.

(** ** Lines of a document *)

Definition nl_byte : ascii := "010".

(** The font pattern matches the line: it has four fields or more, the
    first three are not empty, and the third is made of digits and dots. *)
Definition font_pattern_ok (line : string) : bool :=
  match strings.Split (strings.drop (String.length "Style:") line) "," with
  | f0 :: f1 :: f2 :: _ :: _ =>
      negb (String.eqb f0 "") && negb (String.eqb f1 "") && negb (String.eqb f2 "") &&
      all_bytes cls_num f2
  | _ => false
  end.

(** A line the scanner hands on as it is: no line feed in it, shorter
    than 64 KiB, no carriage return at its end. *)
Definition line_ok (l : string) : bool :=
  no_byte nl_byte l && fits_token l && negb (HasSuffix l cr).

(** The lines without the empty line that follows a final line feed. *)
Fixpoint without_final_empty (l : list string) : list string :=
  match l with
  | [] => []
  | [p] => if String.eqb p "" then [] else [p]
  | p :: rest => p :: without_final_empty rest
  end.

(** ** The bracket test of the classifier, as the code has it *)

(** The text opens with a bracket of either kind, closes with a bracket
    of either kind, and has no line feed in between. *)
Definition bracketed (clean : string) : bool :=
  match clean with
  | String o rest =>
      cls_one_of "([" o &&
      match strings.rev rest with
      | String c rmid => cls_one_of ")]" c && no_byte nl_byte rmid
      | EmptyString => false
      end
  | EmptyString => false
  end.

(** The text holds a lowercase ASCII letter. *)
Definition has_lower (s : string) : bool :=
  negb (all_bytes (fun c => negb (cls_lower c)) s).

(** ** Definitions for the further properties *)

(** Where a block of the output comes from. *)
Definition from_input (dlgs : list Dlg) (d : Dlg) : Prop :=
  exists a b, a ∈ dlgs /\ b ∈ dlgs /\
    Start d = Start a /\ Text d = Text a /\ Style d = Style a /\ End_ d = End_ b.

(** The test of the merge loop: same style and same text, white space
    apart. *)
Definition same_line (a b : Dlg) : bool :=
  String.eqb (Style a) (Style b) &&
  String.eqb (normalizeSpaces (Text a)) (normalizeSpaces (Text b)).

(** No block is followed by a block of the same style and text. *)
Fixpoint neighbours_differ (l : list Dlg) : bool :=
  match l with
  | a :: l' =>
      match l' with
      | b :: _ => negb (same_line a b)
      | [] => true
      end && neighbours_differ l'
  | [] => true
  end.

(** Every byte. *)
Definition all_ascii : list ascii := map ascii_of_nat (seq 0 256).

(** Every match of the pattern holds the byte [c]. *)
Fixpoint needs_byte (c : ascii) (r : re) : bool :=
  let only_c p := forallb (fun x => implb (p x) (Ascii.eqb x c)) all_ascii in
  match r with
  | Byte p => only_c p
  | Cat r1 r2 => needs_byte c r1 || needs_byte c r2
  | Alt r1 r2 => needs_byte c r1 && needs_byte c r2
  | Rep p min _ => (0 <? min)%nat && only_c p
  | Group _ r1 => needs_byte c r1
  | _ => false
  end.

(** The text the matches and the pieces between them make up. *)
Definition pieces (l : list (string * string)) (t : string) : string :=
  concat_strings (map (fun '(pre, m) => pre ++ m) l) ++ t.

(** The byte that opens an override tag. *)
Definition backslash : ascii := "\".

(** Every byte of the class [p] belongs to [set]. *)
Definition in_set (p set : ascii -> bool) : bool :=
  forallb (fun x => implb (p x) (set x)) all_ascii.

(** Every match of the pattern starts with a byte of [set]. *)
Fixpoint first_in (set : ascii -> bool) (r : re) : bool :=
  match r with
  | Byte p => in_set p set
  | Cat r1 _ => first_in set r1
  | Alt r1 r2 => first_in set r1 && first_in set r2
  | Rep p min _ => (0 <? min)%nat && in_set p set
  | Group _ r1 => first_in set r1
  | _ => false
  end.

(** The pattern is a byte followed by a pattern whose matches start
    with a byte of [set]. *)
Definition second_in (set : ascii -> bool) (r : re) : bool :=
  match r with
  | Cat (Byte _) r2 => first_in set r2
  | _ => false
  end.

(** The initials of the tags [rescaleDialogueTags] looks for: those of
    pos, move, org, iclip, fs, fsp, bord, shad and blur, in either case,
    and the first byte of U+017F, which [(?i)] takes for an s. *)
Definition scaled_initial (d : ascii) : bool :=
  cls_one_of "pmoifbs" (lower_byte d) || is_byte 197 d.

(** No backslash of the text is followed by a byte of [set]. *)
Fixpoint quiet (set : ascii -> bool) (s : string) : bool :=
  match s with
  | EmptyString => true
  | String c s' =>
      (negb (Ascii.eqb c "\") ||
       match s' with
       | EmptyString => true
       | String d _ => negb (set d)
       end) && quiet set s'
  end.

(** The bytes [%.Nf] can print: digits, the point, the signs and the
    letters of NaN and Inf. *)
Definition cls_fixed (c : ascii) : bool := cls_digit c || cls_one_of ".-+NaIfn" c.

(** The repetition of the class [p] cannot go on into [rest]. *)
Definition stops (p : ascii -> bool) (rest : string) : bool :=
  match rest with
  | EmptyString => true
  | String c _ => negb (p c)
  end.

(** The initials of the tags other than [\pos]. *)
Definition other_initial (d : ascii) : bool :=
  cls_one_of "moifbs" (lower_byte d) || is_byte 197 d.

(** The number of lines of text of the cues. *)
Definition text_lines (blocks : list SRTBlock) : nat :=
  foldr (fun b n => (S (count_nl (BlockText b)) + n)%nat) 0%nat blocks.

(** The two styles of the pipeline. *)
Definition known_style (s : string) : Prop := s = "Default" \/ s = "tanda".

(** The commas of a text turned into points. *)
Fixpoint commas_to_points (s : string) : string :=
  match s with
  | EmptyString => EmptyString
  | String c s' => String (if Ascii.eqb c "," then "."%char else c) (commas_to_points s')
  end.

(** The arrow of an SRT time line. *)
Definition arrow : string := "-->".

(** What every block made from an event satisfies, [n] being the number
    of events. *)
Definition event_ok (n : nat) (b : SRTBlock) : Prop :=
  EndMs b <> StartMs b /\ 1 <= Index b <= Z.of_nat n /\
  TrimSpace (BlockText b) = BlockText b.

(** The carriage return. *)
Definition cr_byte : ascii := "013".

(** A line with neither a line feed nor a carriage return, short enough
    for the scanner with a carriage return added. *)
Definition bare_line (l : string) : bool :=
  no_byte nl_byte l && no_byte cr_byte l && (N.of_nat (String.length l) <? 65535)%N.

(** The pieces between the line feeds of a document with CR LF line
    ends. *)
Fixpoint with_cr (l : list string) : list string :=
  match l with
  | [] => []
  | x :: rest =>
      match rest with
      | [] => [x]
      | _ => (x ++ cr) :: with_cr rest
      end
  end.

(** Runs of [\s] collapsed into one blank each; [in_run] tells that the
    byte before belongs to a run. *)
Fixpoint collapse_go (in_run : bool) (s : string) : string :=
  match s with
  | EmptyString => EmptyString
  | String c s' =>
      if cls_space c
      then (if in_run then collapse_go true s' else String " " (collapse_go true s'))
      else String c (collapse_go false s')
  end.

(** Every byte of [\s] is a blank, and no two of them are neighbours;
    [after_space] tells that the byte before is one. *)
Fixpoint single_blanks (after_space : bool) (s : string) : bool :=
  match s with
  | EmptyString => true
  | String c s' =>
      if cls_space c
      then Ascii.eqb c " " && negb after_space && single_blanks true s'
      else single_blanks false s'
  end.

(** What the replacement of the matches leaves. *)
Definition blanked (x : list (string * string) * string) : string :=
  concat_strings (map (fun '(pre, _) => pre ++ " ") x.1) ++ x.2.

(** The byte that closes a tag. *)
Definition gt_byte : ascii := ">".

(** The text starts with a tag: [<], one byte or more other than [>],
    and [>]. *)
Definition tag_at (s : string) : Prop :=
  exists u rest, s = String "<" (u ++ String ">" rest) /\ u <> "" /\ no_byte gt_byte u = true.

(** The text the scan leaves, the matches dropped. *)
Definition kept (x : list (string * string) * string) : string :=
  concat_strings (map (fun '(pre, _) => pre ++ "") x.1) ++ x.2.

(** Reading the SRT stamp of [n] milliseconds gives [n], or [n - 1]. *)
Definition reads_back (n : nat) : bool :=
  let ms := Z.of_nat n in
  let r := parseTimeStringToMs (formatMsToSRTTime ms) in
  (r =? ms) || (r =? ms - 1).

(** No line of the text starts with the word [w]; [at_bol] tells that
    the text starts a line. *)
Fixpoint no_line_starts_with (w : string) (at_bol : bool) (s : string) : bool :=
  match s with
  | EmptyString => true
  | String x s' =>
      negb (at_bol && HasPrefix s w) && no_line_starts_with w (regexp.is_nl x) s'
  end.

(** The same for the lines that start in [a], when [a] is followed by
    the text [s]. *)
Fixpoint quiet_prefix (w : string) (at_bol : bool) (a s : string) : bool :=
  match a with
  | EmptyString => true
  | String x a' =>
      negb (at_bol && HasPrefix (a ++ s) w) && quiet_prefix w (regexp.is_nl x) a' s
  end.

(** The position after the byte [prev] starts a line. *)
Definition at_line_start (prev : option ascii) : bool :=
  match prev with
  | None => true
  | Some c => regexp.is_nl c
  end.

(** The two lines [updateOrInsertPlayRes] inserts. *)
Definition playres_lines (x y : Z) : string :=
  "PlayResX: " ++ fmt.d x ++ nl ++ "PlayResY: " ++ fmt.d y ++ nl.

(** What follows the word in the resolution patterns. *)
Definition res_tail (grouped : bool) : re :=
  seq_re [sp; lit ":"; sp;
          if grouped then Group 1 (Rep cls_digit 1 true) else Rep cls_digit 1 true].

(** The position after the text [a] starts a line; [b] tells that the
    position before it does. *)
Definition flag_after (b : bool) (a : string) : bool :=
  match strings.rev a with
  | String x _ => regexp.is_nl x
  | EmptyString => b
  end.

(* ===================================================================== *)
(** * Lemmas *)
(* ===================================================================== *)

Section StringFacts.

Lemma sapp_cons (c : ascii) (s t : string) : String c s ++ t = String c (s ++ t).
Proof. reflexivity. Qed.

Lemma sapp_nil_l (s : string) : "" ++ s = s.
Proof. reflexivity. Qed.

Lemma sapp_nil_r (s : string) : s ++ "" = s.
Proof. induction s as [|c s IH]; [done | by rewrite sapp_cons, IH]. Qed.

Lemma sapp_assoc (a b c : string) : (a ++ b) ++ c = a ++ (b ++ c).
Proof. induction a as [|x a IH]; [done | by rewrite !sapp_cons, IH]. Qed.

Lemma slength_app (a b : string) :
  String.length (a ++ b) = (String.length a + String.length b)%nat.
Proof. induction a as [|x a IH]; [done | rewrite sapp_cons; simpl; by rewrite IH]. Qed.

Lemma rev_acc_spec (s acc : string) : strings.rev_acc s acc = strings.rev s ++ acc.
Proof.
  unfold strings.rev. revert acc.
  induction s as [|c s IH]; intros acc; [done|].
  cbn [strings.rev_acc]. rewrite IH, (IH (String c "")), sapp_assoc. done.
Qed.

Lemma rev_cons (c : ascii) (s : string) :
  strings.rev (String c s) = strings.rev s ++ String c "".
Proof. unfold strings.rev at 1. simpl. apply rev_acc_spec. Qed.

Lemma rev_app (a b : string) : strings.rev (a ++ b) = strings.rev b ++ strings.rev a.
Proof.
  induction a as [|x a IH].
  - change (strings.rev "") with "". by rewrite sapp_nil_r.
  - rewrite sapp_cons. by rewrite !rev_cons, IH, sapp_assoc.
Qed.

Lemma rev_involutive (s : string) : strings.rev (strings.rev s) = s.
Proof.
  induction s as [|c s IH]; [done|].
  by rewrite rev_cons, rev_app, IH.
Qed.

Lemma slength_rev (s : string) : String.length (strings.rev s) = String.length s.
Proof.
  induction s as [|c s IH]; [done|].
  rewrite rev_cons, slength_app, IH. simpl. lia.
Qed.

Lemma take_drop (n : nat) (s : string) : strings.take n s ++ strings.drop n s = s.
Proof.
  revert s. induction n as [|n IH]; intros [|c s]; try done.
  cbn [strings.take strings.drop]. by rewrite sapp_cons, IH.
Qed.

Lemma slength_drop (n : nat) (s : string) :
  String.length (strings.drop n s) = (String.length s - n)%nat.
Proof. revert s. induction n as [|n IH]; intros [|c s]; simpl; try done; lia. Qed.

(** ** White space *)

Lemma space_rune_len_le s : (space_rune_len s <= String.length s)%nat.
Proof.
  destruct s as [|c1 [|c2 [|c3 s]]]; simpl;
    repeat match goal with |- context [if ?b then _ else _] => destruct b end; lia.
Qed.

Lemma space_rune_len_rev_le s : (space_rune_len_rev s <= String.length s)%nat.
Proof.
  destruct s as [|c1 [|c2 [|c3 s]]]; simpl;
    repeat match goal with |- context [if ?b then _ else _] => destruct b end; lia.
Qed.

(** A white-space rune at the head of [s] is at the head of [s ++ q]. *)
Lemma space_rune_len_app s q n :
  space_rune_len s = S n -> space_rune_len (s ++ q) = S n.
Proof.
  destruct s as [|c1 [|c2 [|c3 s]]]; simpl;
    repeat match goal with |- context [if ?b then _ else _] => destruct b end;
    try done; destruct q as [|q1 [|q2 q]]; simpl;
    repeat match goal with |- context [if ?b then _ else _] => destruct b end; done.
Qed.

Lemma space_rune_len_rev_app s q n :
  space_rune_len_rev s = S n -> space_rune_len_rev (s ++ q) = S n.
Proof.
  destruct s as [|c1 [|c2 [|c3 s]]]; simpl;
    repeat match goal with |- context [if ?b then _ else _] => destruct b end;
    try done; destruct q as [|q1 [|q2 q]]; simpl;
    repeat match goal with |- context [if ?b then _ else _] => destruct b end; done.
Qed.

Section DropWhile.
Variable len : string -> nat.
Hypothesis len_le : forall s, (len s <= String.length s)%nat.

Lemma drop_while_rune_stop fuel s :
  len s = 0%nat -> drop_while_rune len fuel s = s.
Proof. intros H. destruct fuel; simpl; [done | by rewrite H]. Qed.

(** With fuel enough, what is left starts with no rune of the kind,
    and is a suffix of the string. *)
Lemma drop_while_rune_spec fuel s :
  (String.length s <= fuel)%nat ->
  len (drop_while_rune len fuel s) = 0%nat /\
  exists p, s = p ++ drop_while_rune len fuel s.
Proof.
  revert s. induction fuel as [|fuel IH]; intros s Hlen.
  - destruct s; [|simpl in Hlen; lia]. simpl.
    pose proof (len_le "") as H. simpl in H. split; [lia | by exists ""].
  - cbn [drop_while_rune]. destruct (len s) as [|n] eqn:E.
    + split; [done | by exists ""].
    + pose proof (len_le s) as Hle.
      destruct (IH (strings.drop (S n) s)) as [H0 [p Hp]].
      { rewrite slength_drop. lia. }
      split; [done|].
      exists (strings.take (S n) s ++ p).
      rewrite sapp_assoc, <- Hp. by rewrite take_drop.
Qed.
End DropWhile.

Lemma TrimLeftSpace_spec s :
  space_rune_len (TrimLeftSpace s) = 0%nat /\ exists p, s = p ++ TrimLeftSpace s.
Proof. apply drop_while_rune_spec; [apply space_rune_len_le | done]. Qed.

Lemma TrimRightSpace_spec s :
  space_rune_len_rev (strings.rev (TrimRightSpace s)) = 0%nat /\
  exists q, s = TrimRightSpace s ++ q.
Proof.
  unfold TrimRightSpace. rewrite rev_involutive.
  destruct (drop_while_rune_spec space_rune_len_rev space_rune_len_rev_le
              (String.length s) (strings.rev s)) as [H0 [p Hp]].
  { by rewrite slength_rev. }
  split; [done|]. exists (strings.rev p).
  rewrite <- rev_app, <- Hp. by rewrite rev_involutive.
Qed.

(** What [TrimSpace] returns starts and ends with no white space, and
    is a part of the string. *)
Lemma TrimSpace_spec s :
  space_rune_len (TrimSpace s) = 0%nat /\
  space_rune_len_rev (strings.rev (TrimSpace s)) = 0%nat /\
  exists p q, s = p ++ TrimSpace s ++ q.
Proof.
  unfold TrimSpace.
  destruct (TrimLeftSpace_spec s) as [HL [p Hp]].
  destruct (TrimRightSpace_spec (TrimLeftSpace s)) as [HR [q Hq]].
  split; [|split; [done|]].
  - destruct (space_rune_len (TrimRightSpace (TrimLeftSpace s))) as [|n] eqn:E; [done|].
    apply (space_rune_len_app _ q) in E. rewrite <- Hq in E. congruence.
  - exists p, q. by rewrite <- Hq.
Qed.

Lemma TrimSpace_fixed s :
  space_rune_len s = 0%nat -> space_rune_len_rev (strings.rev s) = 0%nat ->
  TrimSpace s = s.
Proof.
  intros HL HR. unfold TrimSpace, TrimLeftSpace.
  rewrite drop_while_rune_stop by done.
  unfold TrimRightSpace. rewrite drop_while_rune_stop by done.
  apply rev_involutive.
Qed.

Lemma TrimSpace_idemp s : TrimSpace (TrimSpace s) = TrimSpace s.
Proof.
  destruct (TrimSpace_spec s) as [HL [HR _]]. by apply TrimSpace_fixed.
Qed.

Lemma TrimSpace_space s : TrimSpace (String " " s) = TrimSpace s.
Proof. reflexivity. Qed.

End StringFacts.

Section SplitFacts.

Lemma no_byte_app c a b : no_byte c (a ++ b) = no_byte c a && no_byte c b.
Proof.
  induction a as [|x a IH]; [done|].
  rewrite sapp_cons. simpl. by rewrite IH, andb_assoc.
Qed.

Lemma no_byte_app_inv c a b :
  no_byte c (a ++ b) = true -> no_byte c a = true /\ no_byte c b = true.
Proof. rewrite no_byte_app. apply andb_prop. Qed.

Lemma HasPrefix_nil s : HasPrefix s "" = true.
Proof. by destruct s. Qed.

Lemma HasPrefix_byte b c s : HasPrefix (String c s) (String b "") = Ascii.eqb c b.
Proof.
  change (HasPrefix (String c s) (String b "")) with
    (if Ascii.eqb c b then HasPrefix s "" else false).
  rewrite HasPrefix_nil. by destruct (Ascii.eqb c b).
Qed.

Lemma HasPrefix_split s p :
  HasPrefix s p = true -> s = p ++ strings.drop (String.length p) s.
Proof.
  revert s. induction p as [|x p IH]; intros s H; [by destruct s|].
  destruct s as [|c s]; [done|].
  change (HasPrefix (String c s) (String x p))
    with (if Ascii.eqb c x then HasPrefix s p else false) in H.
  destruct (Ascii.eqb_spec c x) as [->|]; [|done].
  rewrite sapp_cons. cbn [String.length strings.drop]. by rewrite <- IH.
Qed.

Lemma Join_cons x y l sep : Join (x :: y :: l) sep = x ++ sep ++ Join (y :: l) sep.
Proof. reflexivity. Qed.

Lemma split_go_nonempty sep s : forall skip cur, strings.split_go sep skip cur s <> [].
Proof.
  induction s as [|c s IH]; intros skip cur; [done|].
  cbn [strings.split_go]. destruct skip; [|apply IH].
  destruct (HasPrefix (String c s) sep); [done | apply IH].
Qed.

(** ** Splitting at one byte *)

Variable b : ascii.

(** Reading a field free of the separator up to the separator that ends
    it. *)
Lemma split_go_field a : forall cur rest,
  no_byte b a = true ->
  strings.split_go (String b "") 0 cur (a ++ String b rest)
  = (strings.rev cur ++ a) :: strings.split_go (String b "") 0 "" rest.
Proof.
  induction a as [|x a IH]; intros cur rest Ha.
  - rewrite sapp_nil_l, sapp_nil_r. cbn [strings.split_go].
    rewrite HasPrefix_byte, Ascii.eqb_refl. reflexivity.
  - rewrite sapp_cons. cbn [strings.split_go]. rewrite HasPrefix_byte.
    simpl in Ha. apply andb_prop in Ha as [Hx Ha].
    apply negb_true_iff in Hx. rewrite Hx.
    rewrite IH by done. rewrite rev_cons, sapp_assoc. reflexivity.
Qed.

Lemma split_go_last a : forall cur,
  no_byte b a = true -> strings.split_go (String b "") 0 cur a = [strings.rev cur ++ a].
Proof.
  induction a as [|x a IH]; intros cur Ha.
  - by rewrite sapp_nil_r.
  - cbn [strings.split_go]. rewrite HasPrefix_byte.
    simpl in Ha. apply andb_prop in Ha as [Hx Ha].
    apply negb_true_iff in Hx. rewrite Hx.
    rewrite IH by done. by rewrite rev_cons, sapp_assoc.
Qed.

Lemma Split_field a rest :
  no_byte b a = true ->
  strings.Split (a ++ String b rest) (String b "") = a :: strings.Split rest (String b "").
Proof. intros Ha. unfold strings.Split. by rewrite split_go_field. Qed.

Lemma Split_last a : no_byte b a = true -> strings.Split a (String b "") = [a].
Proof. intros Ha. unfold strings.Split. by rewrite split_go_last. Qed.

(** The fields of a split hold no separator, and joined with it they
    give the string back. *)
Lemma split_go_fields s : forall cur,
  no_byte b (strings.rev cur) = true ->
  Forall (fun f => no_byte b f = true) (strings.split_go (String b "") 0 cur s) /\
  Join (strings.split_go (String b "") 0 cur s) (String b "") = strings.rev cur ++ s.
Proof.
  induction s as [|c s IH]; intros cur Hcur.
  - cbn [strings.split_go Join]. rewrite sapp_nil_r. by split; [repeat constructor|].
  - cbn [strings.split_go]. rewrite HasPrefix_byte.
    destruct (Ascii.eqb_spec c b) as [->|Hne].
    + change (String.length (String b "") - 1)%nat with 0%nat.
      destruct (IH "" eq_refl) as [Hall Hjoin].
      split; [by constructor|].
      destruct (strings.split_go (String b "") 0 "" s) eqn:E.
      * by apply split_go_nonempty in E.
      * rewrite Join_cons, Hjoin. reflexivity.
    + assert (Hc : no_byte b (strings.rev (String c cur)) = true).
      { rewrite rev_cons, no_byte_app, Hcur. simpl.
        apply Ascii.eqb_neq in Hne. by rewrite Hne. }
      destruct (IH _ Hc) as [Hall Hjoin]. split; [done|].
      by rewrite Hjoin, rev_cons, sapp_assoc.
Qed.

Lemma Split_fields s :
  Forall (fun f => no_byte b f = true) (strings.Split s (String b "")) /\
  Join (strings.Split s (String b "")) (String b "") = s.
Proof. apply (split_go_fields s ""). reflexivity. Qed.

Lemma Split_Join l :
  l <> [] -> Forall (fun f => no_byte b f = true) l ->
  strings.Split (Join l (String b "")) (String b "") = l.
Proof.
  intros Hne Hall. induction Hall as [|x l Hx Hall IH]; [done|].
  destruct l as [|y l].
  - by apply Split_last.
  - rewrite Join_cons.
    change (String b "" ++ Join (y :: l) (String b "")) with (String b (Join (y :: l) (String b ""))).
    rewrite Split_field by done. by rewrite IH.
Qed.

(** The same for [SplitN], which stops splitting at the last piece. *)
Lemma splitn_go_field n a : forall cur rest,
  no_byte b a = true ->
  strings.splitn_go (String b "") (S (S n)) 0 cur (a ++ String b rest)
  = (strings.rev cur ++ a) :: strings.splitn_go (String b "") (S n) 0 "" rest.
Proof.
  induction a as [|x a IH]; intros cur rest Ha.
  - rewrite sapp_nil_l, sapp_nil_r. cbn [strings.splitn_go].
    rewrite HasPrefix_byte, Ascii.eqb_refl. reflexivity.
  - rewrite sapp_cons. cbn [strings.splitn_go]. rewrite HasPrefix_byte.
    simpl in Ha. apply andb_prop in Ha as [Hx Ha].
    apply negb_true_iff in Hx. rewrite Hx.
    rewrite IH by done. rewrite rev_cons, sapp_assoc. reflexivity.
Qed.

Lemma splitn_go_rest sep s : strings.splitn_go sep 1 0 "" s = [s].
Proof. by destruct s. Qed.

Lemma TrimSpace_no_byte s : no_byte b s = true -> no_byte b (TrimSpace s) = true.
Proof.
  intros Hs. destruct (TrimSpace_spec s) as (_ & _ & p & q & Heq).
  rewrite Heq in Hs.
  apply no_byte_app_inv in Hs as [_ Hs].
  by apply no_byte_app_inv in Hs as [Hs _].
Qed.

End SplitFacts.

Section RegexpFacts.

Lemma last_byte_nil prev : last_byte prev "" = prev.
Proof. reflexivity. Qed.

Lemma last_byte_cons prev c s : last_byte prev (String c s) = last_byte (Some c) s.
Proof.
  unfold last_byte. rewrite rev_cons.
  destruct (strings.rev s) as [|x r]; reflexivity.
Qed.

Lemma last_byte_app prev s1 s2 :
  last_byte prev (s1 ++ s2) = last_byte (last_byte prev s1) s2.
Proof.
  revert prev. induction s1 as [|c s1 IH]; intros prev; [done|].
  by rewrite sapp_cons, !last_byte_cons, IH.
Qed.

(** ** Completeness: a match that exists is found *)

Lemma rep_greedy_complete p k s : forall min prev rest,
  all_bytes p s = true -> (min <= String.length s)%nat ->
  is_Some (k (last_byte prev s) rest) ->
  is_Some (rep_greedy p k min prev (s ++ rest)).
Proof.
  induction s as [|c s IH]; intros min prev rest Hall Hmin Hk.
  - rewrite sapp_nil_l. simpl in Hmin. assert (min = 0%nat) as -> by lia.
    rewrite last_byte_nil in Hk.
    destruct rest as [|c rest]; cbn [rep_greedy]; [done|].
    destruct (p c); [|done].
    by destruct (rep_greedy p k (Nat.pred 0) (Some c) rest).
  - rewrite sapp_cons. cbn [rep_greedy].
    simpl in Hall. apply andb_prop in Hall as [Hc Hall]. rewrite Hc.
    rewrite last_byte_cons in Hk.
    destruct (IH (Nat.pred min) (Some c) rest Hall) as [x Hx]; [simpl in Hmin; lia | done |].
    by rewrite Hx.
Qed.

Lemma rep_lazy_complete p k s : forall min prev rest,
  all_bytes p s = true -> (min <= String.length s)%nat ->
  is_Some (k (last_byte prev s) rest) ->
  is_Some (rep_lazy p k min prev (s ++ rest)).
Proof.
  induction s as [|c s IH]; intros min prev rest Hall Hmin Hk.
  - rewrite sapp_nil_l. simpl in Hmin. assert (min = 0%nat) as -> by lia.
    rewrite last_byte_nil in Hk. destruct Hk as [x Hx].
    destruct rest as [|c rest]; cbn [rep_lazy]; by rewrite Hx.
  - rewrite sapp_cons. cbn [rep_lazy].
    simpl in Hall. apply andb_prop in Hall as [Hc Hall]. rewrite Hc.
    rewrite last_byte_cons in Hk.
    destruct (IH (Nat.pred min) (Some c) rest Hall) as [x Hx]; [simpl in Hmin; lia | done |].
    rewrite Hx. destruct min; [|done].
    by destruct (k prev (String c (s ++ rest))).
Qed.

Lemma run_complete r prev s rest :
  matches r prev s rest ->
  forall (k : cont) caps,
    (forall caps', is_Some (k (last_byte prev s) rest caps')) ->
    is_Some (run r k prev (s ++ rest) caps).
Proof.
  induction 1 as [prev rest|p c prev rest Hp|r1 r2 prev s1 s2 rest _ IH1 _ IH2
                 |r1 r2 prev s rest _ IH|r1 r2 prev s rest _ IH
                 |p min greedy prev s rest Hall Hmin
                 |r prev s rest _ IH|r prev rest|i r prev s rest _ IH
                 |m prev rest Hb|m prev rest He]; intros k caps Hk.
  - apply Hk.
  - rewrite sapp_cons, sapp_nil_l. cbn [run]. rewrite Hp.
    rewrite last_byte_cons in Hk. apply Hk.
  - rewrite sapp_assoc. cbn [run]. apply IH1. intros caps'.
    apply IH2. intros caps''. rewrite <- last_byte_app. apply Hk.
  - cbn [run]. destruct (IH k caps Hk) as [x Hx]. by rewrite Hx.
  - cbn [run]. destruct (run r1 k prev (s ++ rest) caps); [done|]. by apply IH.
  - cbn [run]. destruct greedy.
    + apply rep_greedy_complete; [done | done | apply Hk].
    + apply rep_lazy_complete; [done | done | apply Hk].
  - cbn [run]. destruct (IH k caps Hk) as [x Hx]. by rewrite Hx.
  - cbn [run]. rewrite sapp_nil_l.
    destruct (run r k prev rest caps); [done | apply Hk].
  - cbn [run]. apply IH. intros caps'. apply Hk.
  - cbn [run]. rewrite sapp_nil_l. unfold bol_ok in Hb.
    destruct prev as [c|]; [|apply Hk]. rewrite Hb. apply Hk.
  - cbn [run]. rewrite sapp_nil_l. unfold eol_ok in He.
    destruct rest as [|c rest]; [apply Hk|]. rewrite He. apply Hk.
Qed.

Lemma matches_seq_re l prev s rest :
  matches_seq l prev s rest -> matches (seq_re l) prev s rest.
Proof.
  induction 1 as [prev rest|r l prev s1 s2 rest Hr Hl IH].
  - constructor.
  - destruct l as [|r' l].
    + inversion Hl; subst. rewrite sapp_nil_r. rewrite sapp_nil_l in Hr. exact Hr.
    + change (seq_re (r :: r' :: l)) with (Cat r (seq_re (r' :: l))).
      by constructor.
Qed.

(** ** Where a match ends *)

(** What the matcher returns is what the continuation returned, on a
    suffix of the text. *)
Lemma rep_greedy_cont p k : forall s min prev x,
  rep_greedy p k min prev s = Some x ->
  exists prev' pre s', s = pre ++ s' /\ k prev' s' = Some x.
Proof.
  induction s as [|c s IH]; intros min prev x H; cbn [rep_greedy] in H.
  - destruct min; [|done]. by exists prev, "", "".
  - assert (Hstop : match min with 0%nat => k prev (String c s) | S _ => None end = Some x ->
                    exists prev' pre s', String c s = pre ++ s' /\ k prev' s' = Some x).
    { destruct min; [|done]. intros Hk. by exists prev, "", (String c s). }
    destruct (p c); [|by apply Hstop].
    destruct (rep_greedy p k (Nat.pred min) (Some c) s) as [y|] eqn:E; [|by apply Hstop].
    injection H as ->.
    destruct (IH _ _ _ E) as (prev' & pre & s' & -> & Hk).
    by exists prev', (String c pre), s'.
Qed.

Lemma rep_lazy_cont p k : forall s min prev x,
  rep_lazy p k min prev s = Some x ->
  exists prev' pre s', s = pre ++ s' /\ k prev' s' = Some x.
Proof.
  induction s as [|c s IH]; intros min prev x H; cbn [rep_lazy] in H.
  - destruct min; [|done]. destruct (k prev "") eqn:E; [|done].
    injection H as ->. by exists prev, "", "".
  - assert (Hmore : (if p c then rep_lazy p k (Nat.pred min) (Some c) s else None) = Some x ->
                    exists prev' pre s', String c s = pre ++ s' /\ k prev' s' = Some x).
    { destruct (p c); [|done]. intros E.
      destruct (IH _ _ _ E) as (prev' & pre & s' & -> & Hk).
      by exists prev', (String c pre), s'. }
    destruct min; [|by apply Hmore].
    destruct (k prev (String c s)) eqn:E; [|by apply Hmore].
    injection H as ->. by exists prev, "", (String c s).
Qed.

Lemma run_cont r : forall (k : cont) prev s caps x,
  run r k prev s caps = Some x ->
  exists prev' pre s' caps', s = pre ++ s' /\ k prev' s' caps' = Some x.
Proof.
  induction r as [|p|r1 IH1 r2 IH2|r1 IH1 r2 IH2|p min greedy|r IH|i r IH|m|m];
    intros k prev s caps x H; cbn [run] in H.
  - by exists prev, "", s, caps.
  - destruct s as [|c s]; [done|]. destruct (p c); [|done].
    by exists (Some c), (String c ""), s, caps.
  - destruct (IH1 _ _ _ _ _ H) as (prev1 & pre1 & s1 & caps1 & -> & H1).
    destruct (IH2 _ _ _ _ _ H1) as (prev2 & pre2 & s2 & caps2 & -> & H2).
    exists prev2, (pre1 ++ pre2), s2, caps2. by rewrite sapp_assoc.
  - destruct (run r1 k prev s caps) as [y|] eqn:E.
    + injection H as ->. by eapply IH1.
    + by eapply IH2.
  - destruct greedy.
    + destruct (rep_greedy_cont _ _ _ _ _ _ H) as (prev' & pre & s' & -> & Hk).
      by exists prev', pre, s', caps.
    + destruct (rep_lazy_cont _ _ _ _ _ _ H) as (prev' & pre & s' & -> & Hk).
      by exists prev', pre, s', caps.
  - destruct (run r k prev s caps) as [y|] eqn:E.
    + injection H as ->. by eapply IH.
    + by exists prev, "", s, caps.
  - destruct (IH _ _ _ _ _ H) as (prev' & pre & s' & caps' & -> & Hk).
    by eexists prev', pre, s', _.
  - destruct prev as [c|].
    + destruct (m && regexp.is_nl c); [|done]. by exists (Some c), "", s, caps.
    + by exists None, "", s, caps.
  - destruct s as [|c s].
    + by exists prev, "", "", caps.
    + destruct (m && regexp.is_nl c); [|done]. by exists prev, "", (String c s), caps.
Qed.

Lemma run_eol r :
  ends_with_eol r ->
  forall (k : cont) prev s caps x,
    run r k prev s caps = Some x ->
    exists prev' pre s' caps',
      s = pre ++ s' /\ eol_ok (eol_flag r) s' = true /\ k prev' s' caps' = Some x.
Proof.
  induction 1 as [m|r1 r2 _ IH]; intros k prev s caps x H.
  - cbn [run] in H. exists prev, "", s, caps. split; [done|].
    destruct s as [|c s]; [done|]. cbn [eol_ok eol_flag].
    destruct (m && regexp.is_nl c); [done | discriminate].
  - cbn [run] in H.
    destruct (run_cont _ _ _ _ _ _ H) as (prev1 & pre1 & s1 & caps1 & -> & H1).
    destruct (IH _ _ _ _ _ H1) as (prev2 & pre2 & s2 & caps2 & -> & He & Hk).
    exists prev2, (pre1 ++ pre2), s2, caps2. by rewrite sapp_assoc.
Qed.
End RegexpFacts.

Section RegexpSound.

(** ** Soundness: what is found is a match *)

Lemma rep_greedy_sound p k : forall s min prev x,
  rep_greedy p k min prev s = Some x ->
  exists s1 s2, s = s1 ++ s2 /\ all_bytes p s1 = true /\
    (min <= String.length s1)%nat /\ k (last_byte prev s1) s2 = Some x.
Proof.
  induction s as [|c s IH]; intros min prev x H; cbn [rep_greedy] in H.
  - destruct min; [|done]. exists "", "". by repeat split.
  - assert (Hstop : match min with 0%nat => k prev (String c s) | S _ => None end = Some x ->
                    exists s1 s2, String c s = s1 ++ s2 /\ all_bytes p s1 = true /\
                      (min <= String.length s1)%nat /\ k (last_byte prev s1) s2 = Some x).
    { destruct min; [|done]. intros Hk. exists "", (String c s). by repeat split. }
    destruct (p c) eqn:Hc; [|by apply Hstop].
    destruct (rep_greedy p k (Nat.pred min) (Some c) s) as [y|] eqn:E; [|by apply Hstop].
    injection H as ->.
    destruct (IH _ _ _ E) as (s1 & s2 & -> & Hall & Hmin & Hk).
    exists (String c s1), s2. rewrite last_byte_cons.
    repeat split; [by simpl; rewrite Hc | simpl; lia | done].
Qed.

Lemma rep_lazy_sound p k : forall s min prev x,
  rep_lazy p k min prev s = Some x ->
  exists s1 s2, s = s1 ++ s2 /\ all_bytes p s1 = true /\
    (min <= String.length s1)%nat /\ k (last_byte prev s1) s2 = Some x.
Proof.
  induction s as [|c s IH]; intros min prev x H; cbn [rep_lazy] in H.
  - destruct min; [|done]. destruct (k prev "") eqn:E; [|done].
    injection H as ->. exists "", "". by repeat split.
  - assert (Hmore : (if p c then rep_lazy p k (Nat.pred min) (Some c) s else None) = Some x ->
                    exists s1 s2, String c s = s1 ++ s2 /\ all_bytes p s1 = true /\
                      (min <= String.length s1)%nat /\ k (last_byte prev s1) s2 = Some x).
    { destruct (p c) eqn:Hc; [|done]. intros E.
      destruct (IH _ _ _ E) as (s1 & s2 & -> & Hall & Hmin & Hk).
      exists (String c s1), s2. rewrite last_byte_cons.
      repeat split; [by simpl; rewrite Hc | simpl; lia | done]. }
    destruct min; [|by apply Hmore].
    destruct (k prev (String c s)) eqn:E; [|by apply Hmore].
    injection H as ->. exists "", (String c s). by repeat split.
Qed.

Lemma run_sound r : forall (k : cont) prev s caps x,
  run r k prev s caps = Some x ->
  exists s1 s2 caps', s = s1 ++ s2 /\ matches r prev s1 s2 /\
    k (last_byte prev s1) s2 caps' = Some x.
Proof.
  induction r as [|p|r1 IH1 r2 IH2|r1 IH1 r2 IH2|p min greedy|r IH|i r IH|m|m];
    intros k prev s caps x H; cbn [run] in H.
  - exists "", s, caps. repeat split; [constructor | done].
  - destruct s as [|c s]; [done|]. destruct (p c) eqn:Hc; [|done].
    exists (String c ""), s, caps. repeat split; [by constructor | done].
  - destruct (IH1 _ _ _ _ _ H) as (s1 & t & caps1 & -> & M1 & H1).
    destruct (IH2 _ _ _ _ _ H1) as (s2 & s3 & caps2 & -> & M2 & H2).
    exists (s1 ++ s2), s3, caps2. rewrite sapp_assoc, last_byte_app.
    repeat split; [by constructor | done].
  - destruct (run r1 k prev s caps) as [y|] eqn:E.
    + injection H as ->.
      destruct (IH1 _ _ _ _ _ E) as (s1 & s2 & caps' & -> & M & Hk).
      exists s1, s2, caps'. repeat split; [by apply M_AltL | done].
    + destruct (IH2 _ _ _ _ _ H) as (s1 & s2 & caps' & -> & M & Hk).
      exists s1, s2, caps'. repeat split; [by apply M_AltR | done].
  - destruct greedy.
    + destruct (rep_greedy_sound _ _ _ _ _ _ H) as (s1 & s2 & -> & Hall & Hmin & Hk).
      exists s1, s2, caps. repeat split; [by constructor | done].
    + destruct (rep_lazy_sound _ _ _ _ _ _ H) as (s1 & s2 & -> & Hall & Hmin & Hk).
      exists s1, s2, caps. repeat split; [by constructor | done].
  - destruct (run r k prev s caps) as [y|] eqn:E.
    + injection H as ->.
      destruct (IH _ _ _ _ _ E) as (s1 & s2 & caps' & -> & M & Hk).
      exists s1, s2, caps'. repeat split; [by apply M_OptSome | done].
    + exists "", s, caps. repeat split; [apply M_OptNone | done].
  - destruct (IH _ _ _ _ _ H) as (s1 & s2 & caps' & -> & M & Hk).
    eexists s1, s2, _. repeat split; [by constructor | exact Hk].
  - exists "", s, caps. destruct prev as [c|].
    + destruct (m && regexp.is_nl c) eqn:E; [|done].
      repeat split; [by constructor | done].
    + repeat split; [by constructor | done].
  - exists "", s, caps. destruct s as [|c s].
    + repeat split; [by constructor | done].
    + destruct (m && regexp.is_nl c) eqn:E; [|done].
      repeat split; [by constructor | done].
Qed.

(** A pattern anchored with [^] matches at the start of the text only. *)
Lemma find_from_bol r s : forall c before,
  find_from (Cat (Bol false) r) (Some c) before s = None.
Proof.
  induction s as [|x s IH]; intros c before; cbn [find_from].
  - reflexivity.
  - unfold match_here. cbn [run andb]. apply IH.
Qed.

Lemma MatchString_bol r s :
  MatchString (Cat (Bol false) r) s = true <->
  exists s1 s2, s = s1 ++ s2 /\ matches r None s1 s2.
Proof.
  unfold MatchString. split.
  - intros H. destruct s as [|c s]; cbn [find_from] in H.
    + unfold match_here in H. cbn [run] in H.
      destruct (run r _ None "" []) as [[rest caps]|] eqn:E; [|done].
      destruct (run_sound _ _ _ _ _ _ E) as (s1 & s2 & caps' & Hs & M & _).
      by exists s1, s2.
    + unfold match_here in H. cbn [run] in H.
      destruct (run r _ None (String c s) []) as [[rest caps]|] eqn:E.
      * destruct (run_sound _ _ _ _ _ _ E) as (s1 & s2 & caps' & Hs & M & _).
        by exists s1, s2.
      * by rewrite find_from_bol in H.
  - intros (s1 & s2 & -> & M).
    assert (Hrun : is_Some (run (Cat (Bol false) r) accept None (s1 ++ s2) [])).
    { apply run_complete; [|done].
      change s1 with ("" ++ s1). constructor; [by constructor | done]. }
    destruct Hrun as [[rest caps] Hrun]. unfold accept in Hrun.
    destruct (s1 ++ s2) as [|c s]; cbn [find_from]; unfold match_here; by rewrite Hrun.
Qed.

End RegexpSound.

Section StyleLineProofs.

Lemma scale_field_alter format factor i parts :
  scale_field format factor i parts = alter (scaled format factor) i parts.
Proof.
  unfold scale_field. apply list_eq. intros j.
  destruct (parts !! i) as [p|] eqn:E.
  - destruct (decide (i = j)) as [<-|Hne].
    + rewrite list_lookup_alter_eq, E. simpl. unfold scaled.
      destruct (strconv.ParseFloat p) as [v [|]]; [|done].
      rewrite list_lookup_insert_eq; [done|]. by eapply lookup_lt_Some.
    + rewrite list_lookup_alter_ne by done.
      destruct (strconv.ParseFloat p) as [v [|]]; [|done].
      by rewrite list_lookup_insert_ne.
  - destruct (decide (i = j)) as [<-|Hne].
    + by rewrite list_lookup_alter_eq, E.
    + by rewrite list_lookup_alter_ne.
Qed.

Lemma scale_fields_imap fx fy f parts :
  scale_field (ftoa.fixed 0) fy 21
    (scale_field (ftoa.fixed 0) fx 20
       (scale_field (ftoa.fixed 0) fx 19
          (scale_field ftoa.g f 17
             (scale_field ftoa.g f 16
                (scale_field (ftoa.fixed 0) f 2 parts)))))
  = imap (style_rule fx fy f) parts.
Proof.
  rewrite !scale_field_alter. apply list_eq. intros j.
  rewrite list_lookup_imap. unfold style_rule.
  destruct (decide (j = 21%nat)) as [->|?]; [by rewrite list_lookup_alter_eq, !list_lookup_alter_ne by lia|].
  rewrite (list_lookup_alter_ne _ _ 21%nat) by done.
  destruct (decide (j = 20%nat)) as [->|?]; [by rewrite list_lookup_alter_eq, !list_lookup_alter_ne by lia|].
  rewrite (list_lookup_alter_ne _ _ 20%nat) by done.
  destruct (decide (j = 19%nat)) as [->|?]; [by rewrite list_lookup_alter_eq, !list_lookup_alter_ne by lia|].
  rewrite (list_lookup_alter_ne _ _ 19%nat) by done.
  destruct (decide (j = 17%nat)) as [->|?]; [by rewrite list_lookup_alter_eq, !list_lookup_alter_ne by lia|].
  rewrite (list_lookup_alter_ne _ _ 17%nat) by done.
  destruct (decide (j = 16%nat)) as [->|?]; [by rewrite list_lookup_alter_eq, !list_lookup_alter_ne by lia|].
  rewrite (list_lookup_alter_ne _ _ 16%nat) by done.
  destruct (decide (j = 2%nat)) as [->|?]; [by rewrite list_lookup_alter_eq|].
  rewrite (list_lookup_alter_ne _ _ 2%nat) by done.
  repeat match goal with
  | H : j <> ?n |- _ => apply Nat.eqb_neq in H; rewrite H; clear H
  end.
  simpl. by destruct (parts !! j).
Qed.

Lemma map_TrimSpace_idemp l : map TrimSpace (map TrimSpace l) = map TrimSpace l.
Proof. rewrite map_map. apply map_ext. intros s. apply TrimSpace_idemp. Qed.

(** The rescaling pass on a style line of at least 22 fields. *)
Lemma rescaleStyleLine_fields fx fy f line :
  HasPrefix line "Style:" = true ->
  (22 <= length (style_fields line))%nat ->
  rescaleStyleLine fx fy f line
  = style_line (imap (style_rule fx fy f) (style_fields line)).
Proof.
  intros Hpre Hlen. unfold rescaleStyleLine. rewrite Hpre.
  fold (style_fields line).
  apply Nat.leb_le in Hlen. rewrite Hlen.
  unfold style_fields at 1, splitCSVPreserve. rewrite map_TrimSpace_idemp.
  fold (splitCSVPreserve (strings.drop (String.length "Style:") line)).
  fold (style_fields line).
  by rewrite scale_fields_imap.
Qed.

(** Any other line is kept. *)
Lemma rescaleStyleLine_other fx fy f l :
  full_style_line l = false -> rescaleStyleLine fx fy f l = l.
Proof.
  unfold full_style_line, rescaleStyleLine, style_fields. intros H.
  destruct (HasPrefix l "Style:"); [|done]. cbn [andb] in H. by rewrite H.
Qed.

End StyleLineProofs.

Section FontPassProofs.

Lemma HasPrefix_app p s : HasPrefix (p ++ s) p = true.
Proof.
  induction p as [|x p IH]; [apply HasPrefix_nil|].
  rewrite sapp_cons.
  change (HasPrefix (String x (p ++ s)) (String x p))
    with (if Ascii.eqb x x then HasPrefix (p ++ s) p else false).
  by rewrite Ascii.eqb_refl.
Qed.

Lemma drop_app p s : strings.drop (String.length p) (p ++ s) = s.
Proof. induction p as [|x p IH]; [done | by rewrite sapp_cons]. Qed.

Lemma TrimPrefix_app p s : TrimPrefix (p ++ s) p = s.
Proof. unfold TrimPrefix. by rewrite HasPrefix_app, drop_app. Qed.

Lemma insert_1 {A} (x y0 y1 : A) (l : list A) :
  <[1%nat := x]> (y0 :: y1 :: l) = y0 :: x :: l.
Proof. reflexivity. Qed.

(** The font pass on a style line of at least four fields: the font
    name is replaced, the other fields are as they were. *)
Lemma replaceStyleFont_fields line :
  HasPrefix line "Style:" = true ->
  (4 <= length (style_fields line))%nat ->
  HasPrefix (replaceStyleFont line) "Style:" = true /\
  style_fields (replaceStyleFont line) = <[1%nat := targetFont]> (style_fields line).
Proof.
  intros Hpre Hlen.
  pose proof (HasPrefix_split _ _ Hpre) as Hline.
  set (body := strings.drop (String.length "Style:") line) in *.
  destruct (Split_fields comma_byte body) as [Hall Hjoin].
  change (String comma_byte "") with "," in Hall, Hjoin.
  unfold style_fields in Hlen |- *. fold body in Hlen |- *.
  unfold splitCSVPreserve in Hlen |- *. rewrite length_map in Hlen.
  destruct (strings.Split body ",") as [|f0 [|f1 [|f2 [|r rest]]]] eqn:Hsplit;
    try (simpl in Hlen; lia).
  apply Forall_cons in Hall as [H0 Hall].
  apply Forall_cons in Hall as [H1 Hall].
  apply Forall_cons in Hall as [H2 Hall].
  set (p3 := Join (r :: rest) ",") in *.
  assert (Hbody : body = f0 ++ String comma_byte (f1 ++ String comma_byte (f2 ++ String comma_byte p3))).
  { rewrite <- Hjoin. reflexivity. }
  assert (Hsplitn : SplitN line "," 4 = ["Style:" ++ f0; f1; f2; p3]).
  { rewrite Hline, Hbody. unfold SplitN.
    rewrite <- sapp_assoc.
    rewrite (splitn_go_field comma_byte 2 ("Style:" ++ f0)).
    2:{ rewrite no_byte_app. by rewrite H0. }
    rewrite (splitn_go_field comma_byte 1 f1) by done.
    rewrite (splitn_go_field comma_byte 0 f2) by done.
    by rewrite splitn_go_rest. }
  unfold replaceStyleFont. rewrite Hsplitn.
  rewrite TrimPrefix_app.
  rewrite TrimSpace_idemp.
  split; [reflexivity|].
  change (strings.drop (String.length "Style:")
            ("Style: " ++ TrimSpace f0 ++ "," ++ targetFont ++ "," ++ TrimSpace f2 ++ "," ++ p3))
    with (String " " (TrimSpace f0) ++ String comma_byte
            (targetFont ++ String comma_byte (TrimSpace f2 ++ String comma_byte p3))).
  rewrite Split_field.
  2:{ simpl. by apply TrimSpace_no_byte. }
  rewrite (Split_field comma_byte) by reflexivity.
  rewrite (Split_field comma_byte) by (by apply TrimSpace_no_byte).
  unfold p3. rewrite (Split_Join comma_byte) by done.
  cbn [map]. rewrite insert_1.
  rewrite TrimSpace_space, !TrimSpace_idemp. reflexivity.
Qed.

End FontPassProofs.

Section FontPattern.

Lemma matches_str s : forall prev rest, s <> "" -> matches (str s) prev s rest.
Proof.
  induction s as [|c s IH]; intros prev rest Hne; [done|].
  destruct s as [|c' s].
  - cbn [str]. constructor. apply Ascii.eqb_refl.
  - change (str (String c (String c' s))) with (Cat (lit c) (str (String c' s))).
    change (String c (String c' s)) with (String c "" ++ String c' s).
    constructor.
    + constructor. apply Ascii.eqb_refl.
    + by apply IH.
Qed.

Lemma all_bytes_none_of c s :
  no_byte c s = true -> all_bytes (cls_none_of (String c "")) s = true.
Proof.
  induction s as [|x s IH]; [done|]. simpl. intros H.
  apply andb_prop in H as [Hx Hs]. rewrite IH by done.
  unfold cls_none_of, cls_one_of. simpl. rewrite orb_false_r. by rewrite Hx.
Qed.

Lemma all_bytes_dot s : no_byte nl_byte s = true -> all_bytes cls_dot s = true.
Proof.
  induction s as [|x s IH]; [done|]. simpl. intros H.
  apply andb_prop in H as [Hx Hs]. rewrite IH by done.
  unfold cls_dot, regexp.is_nl, is_byte. rewrite andb_true_r.
  apply negb_true_iff in Hx. apply negb_true_iff, N.eqb_neq. intros Hc.
  apply Ascii.eqb_neq in Hx. apply Hx.
  rewrite <- (ascii_N_embedding x), Hc. reflexivity.
Qed.

Lemma nonempty_length (s : string) : s <> "" -> (1 <= String.length s)%nat.
Proof. destruct s; [done | simpl; lia]. Qed.

Lemma take_all s : strings.take (String.length s) s = s.
Proof. induction s as [|c s IH]; [done | simpl; by rewrite IH]. Qed.

Lemma scan_skip r s : forall prev cur,
  scan r (String.length s) prev cur s = ([], strings.rev cur).
Proof. induction s as [|c s IH]; intros prev cur; [done | apply IH]. Qed.

(** A pattern that ends with [$] and matches a line without line feed
    from its start is found by the scan once, over the whole line. *)
Lemma FindAll_whole_line r line :
  ends_with_eol r -> eol_flag r = true ->
  line <> "" -> no_byte nl_byte line = true ->
  matches r None line "" ->
  FindAll r line = ([("", line)], "").
Proof.
  intros Hend Hflag Hne Hnl Hm.
  destruct (run_complete _ _ _ _ Hm accept []) as [[rest caps] Hrun]; [done|].
  rewrite sapp_nil_r in Hrun.
  destruct (run_eol _ Hend _ _ _ _ _ Hrun) as (prev' & pre & s' & caps' & Hline & He & Hacc).
  injection Hacc as <- <-.
  assert (Hrest : s' = "").
  { destruct s' as [|c s']; [done|]. rewrite Hflag in He. cbn [eol_ok andb] in He.
    rewrite Hline in Hnl. apply no_byte_app_inv in Hnl as [_ Hnl].
    simpl in Hnl. apply andb_prop in Hnl as [Hc _].
    unfold regexp.is_nl, is_byte in He. apply N.eqb_eq in He.
    assert (c = nl_byte) as -> by (rewrite <- (ascii_N_embedding c), He; reflexivity).
    done. }
  subst s'.
  unfold FindAll. destruct line as [|c line]; [done|].
  cbn [scan]. unfold match_here. unfold accept in Hrun. rewrite Hrun.
  change (String.length (String c line) - String.length "")%nat with (S (String.length line)).
  cbv iota beta. rewrite scan_skip. change (strings.rev "") with "".
  change (S (String.length line)) with (String.length (String c line)).
  by rewrite take_all.
Qed.

Lemma reStyle_whole_line line :
  no_byte nl_byte line = true ->
  HasPrefix line "Style:" = true ->
  font_pattern_ok line = true ->
  FindAll reStyle line = ([("", line)], "").
Proof.
  intros Hnl Hpre Hok.
  pose proof (HasPrefix_split _ _ Hpre) as Hline.
  unfold font_pattern_ok in Hok.
  set (body := strings.drop (String.length "Style:") line) in *.
  destruct (Split_fields comma_byte body) as [Hall Hjoin].
  change (String comma_byte "") with "," in Hall, Hjoin.
  destruct (strings.Split body ",") as [|f0 [|f1 [|f2 [|r rest]]]] eqn:Hsplit; try done.
  apply andb_prop in Hok as [Hok H2n]. apply andb_prop in Hok as [Hok H2e].
  apply andb_prop in Hok as [H0e H1e].
  apply negb_true_iff, String.eqb_neq in H0e, H1e, H2e.
  apply Forall_cons in Hall as [H0 Hall].
  apply Forall_cons in Hall as [H1 Hall].
  apply Forall_cons in Hall as [H2 Hall].
  set (p3 := Join (r :: rest) ",") in *.
  assert (Hbody : body = f0 ++ String comma_byte (f1 ++ String comma_byte (f2 ++ String comma_byte p3))).
  { rewrite <- Hjoin. reflexivity. }
  assert (Hp3 : no_byte nl_byte p3 = true).
  { rewrite Hline, Hbody in Hnl.
    repeat (apply no_byte_app_inv in Hnl as [_ Hnl]; simpl in Hnl;
            try apply andb_prop in Hnl as [_ Hnl]).
    exact Hnl. }
  apply FindAll_whole_line; try done.
  - repeat constructor.
  - intros ->. done.
  - apply (matches_seq_re
             [Bol true; str "Style:"; sp;
              Group 1 (Rep (cls_none_of ",") 1 true); lit ",";
              Group 2 (Rep (cls_none_of ",") 1 true); lit ",";
              Group 3 (Rep cls_num 1 true); lit ",";
              Group 4 (Rep cls_dot 0 true); Eol true]).
    assert (Hshape : line =
      "" ++ ("Style:" ++ ("" ++ (f0 ++ (String comma_byte "" ++ (f1 ++ (String comma_byte "" ++
        (f2 ++ (String comma_byte "" ++ (p3 ++ ("" ++ ""))))))))))).
    { rewrite Hline at 1. rewrite Hbody. by rewrite !sapp_nil_l, sapp_nil_r. }
    rewrite Hshape.
    constructor; [by constructor|].
    constructor; [by apply matches_str|].
    constructor; [by constructor|].
    constructor; [constructor; constructor; [by apply all_bytes_none_of | by apply nonempty_length]|].
    constructor; [constructor; apply Ascii.eqb_refl|].
    constructor; [constructor; constructor; [by apply all_bytes_none_of | by apply nonempty_length]|].
    constructor; [constructor; apply Ascii.eqb_refl|].
    constructor; [constructor; constructor; [done | by apply nonempty_length]|].
    constructor; [constructor; apply Ascii.eqb_refl|].
    constructor; [constructor; constructor; [by apply all_bytes_dot | simpl; lia]|].
    constructor; [by constructor|].
    constructor.
Qed.

End FontPattern.

Section ScannerFacts.

Lemma scan_tokens_ok pieces :
  Forall (fun l => line_ok l = true) pieces ->
  scan_tokens pieces = without_final_empty pieces.
Proof.
  induction 1 as [|p pieces Hp _ IH]; [done|].
  unfold line_ok in Hp. apply andb_prop in Hp as [Hp Hcr]. apply andb_prop in Hp as [_ Hfit].
  apply negb_true_iff in Hcr.
  assert (Hdrop : dropCR p = p) by (unfold dropCR; by rewrite Hcr).
  destruct pieces as [|q pieces].
  - cbn [scan_tokens without_final_empty]. by rewrite Hfit, Hdrop.
  - change (scan_tokens (p :: q :: pieces))
      with (if fits_token p then dropCR p :: scan_tokens (q :: pieces) else []).
    change (without_final_empty (p :: q :: pieces))
      with (p :: without_final_empty (q :: pieces)).
    by rewrite Hfit, Hdrop, IH.
Qed.

Lemma line_ok_no_nl lines :
  Forall (fun l => line_ok l = true) lines ->
  Forall (fun l => no_byte nl_byte l = true) lines.
Proof.
  intros Hall. eapply Forall_impl; [exact Hall|].
  intros l H. unfold line_ok in H.
  apply andb_prop in H as [H _]. by apply andb_prop in H as [H _].
Qed.

Lemma scanner_lines_Join lines :
  lines <> [] -> Forall (fun l => line_ok l = true) lines ->
  scanner_lines (Join lines nl) = without_final_empty lines.
Proof.
  intros Hne Hall. unfold scanner_lines.
  change nl with (String nl_byte "").
  rewrite Split_Join; [by apply scan_tokens_ok | done | by apply line_ok_no_nl].
Qed.

(** The rescaling pass rewrites a document line by line. *)
Lemma rescaleStyleMargins_lines fx fy f lines :
  lines <> [] -> Forall (fun l => line_ok l = true) lines ->
  rescaleStyleMargins (Join lines nl) fx fy f
  = Join (map (rescaleStyleLine fx fy f) (without_final_empty lines)) nl.
Proof.
  intros Hne Hall. unfold rescaleStyleMargins. by rewrite scanner_lines_Join.
Qed.

End ScannerFacts.

Section ClassifierFacts.

Lemma all_bytes_app p a b : all_bytes p (a ++ b) = all_bytes p a && all_bytes p b.
Proof.
  induction a as [|x a IH]; [done|].
  rewrite sapp_cons. simpl. by rewrite IH, andb_assoc.
Qed.

Lemma no_byte_rev c s : no_byte c (strings.rev s) = no_byte c s.
Proof.
  induction s as [|x s IH]; [done|].
  rewrite rev_cons, no_byte_app, IH. simpl. rewrite andb_true_r. apply andb_comm.
Qed.

Lemma all_bytes_dot_iff s : all_bytes cls_dot s = no_byte nl_byte s.
Proof.
  induction s as [|x s IH]; [done|]. simpl. rewrite IH. f_equal.
  unfold cls_dot, regexp.is_nl, is_byte. f_equal.
  destruct (Ascii.eqb_spec x nl_byte) as [->|Hne]; [done|].
  apply N.eqb_neq. intros Hc. apply Hne.
  rewrite <- (ascii_N_embedding x), Hc. reflexivity.
Qed.

Lemma cls_space_ascii_space c : cls_space c = true -> ascii_space c = true.
Proof.
  unfold cls_space, ascii_space, byte_in, is_byte.
  destruct (N_of_ascii c =? 9)%N eqn:E9; [apply N.eqb_eq in E9; by rewrite E9|].
  destruct (N_of_ascii c =? 10)%N eqn:E10; [apply N.eqb_eq in E10; by rewrite E10|].
  destruct (N_of_ascii c =? 12)%N eqn:E12; [apply N.eqb_eq in E12; by rewrite E12|].
  destruct (N_of_ascii c =? 13)%N eqn:E13; [apply N.eqb_eq in E13; by rewrite E13|].
  simpl. intros ->. apply orb_true_r.
Qed.

(** A trimmed text starts with no byte of [\s]. *)
Lemma spaces_prefix_nil a s :
  all_bytes cls_space a = true -> space_rune_len (a ++ s) = 0%nat -> a = "".
Proof.
  destruct a as [|c a]; [done|]. cbn [all_bytes]. intros H.
  apply andb_prop in H as [Hc _]. apply cls_space_ascii_space in Hc.
  rewrite sapp_cons. cbn [space_rune_len]. by rewrite Hc.
Qed.

Lemma spaces_suffix_nil b s :
  all_bytes cls_space b = true ->
  space_rune_len_rev (strings.rev (s ++ b)) = 0%nat -> b = "".
Proof.
  intros Hb. rewrite rev_app.
  destruct (strings.rev b) as [|c rb] eqn:E.
  - intros _. rewrite <- (rev_involutive b), E. reflexivity.
  - assert (Hc : cls_space c = true).
    { rewrite <- (rev_involutive b), E, rev_cons, all_bytes_app in Hb.
      apply andb_prop in Hb as [_ Hb]. simpl in Hb. by apply andb_prop in Hb as [Hb _]. }
    apply cls_space_ascii_space in Hc.
    rewrite sapp_cons. cbn [space_rune_len_rev]. by rewrite Hc.
Qed.

(** [^[^a-z]+$] matches the texts that are not empty and hold no
    lowercase letter. *)
Lemma reFullCaps_spec s :
  MatchString reFullCaps s = true <-> s <> "" /\ has_lower s = false.
Proof.
  unfold reFullCaps. cbn [seq_re]. rewrite MatchString_bol. unfold has_lower. split.
  - intros (s1 & s2 & -> & M).
    inversion M as [| |r1 r2 prev a b rest Ma Mb| | | | | | | |]; subst.
    inversion Mb as [| | | | | | | | | |m prev rest He]; subst.
    inversion Ma as [| | | | |p min greedy prev t rest Hall Hmin| | | | |]; subst.
    destruct s2; [|by simpl in He]. rewrite !sapp_nil_r.
    split; [destruct a; [simpl in Hmin; lia | done] | by rewrite Hall].
  - intros [Hne Hall]. apply negb_false_iff in Hall.
    exists s, "". rewrite sapp_nil_r. split; [done|].
    rewrite <- (sapp_nil_r s).
    constructor; [|by constructor].
    constructor; [done | by destruct s; [|simpl; lia]].
Qed.

(** [^\s*[\(\[].*[\)\]]\s*$] matches the trimmed texts that open with a
    bracket of either kind and close with one of either kind, with no
    line feed in between. *)
Lemma reWrapped_spec clean :
  space_rune_len clean = 0%nat ->
  space_rune_len_rev (strings.rev clean) = 0%nat ->
  MatchString reWrapped clean = bracketed clean.
Proof.
  intros HL HR. apply eq_true_iff_eq.
  unfold reWrapped. cbn [seq_re]. rewrite MatchString_bol. split.
  - intros (s1 & s2 & -> & M).
    inversion M as [| |? ? ? a t1 ? Ma M1| | | | | | | |]; subst.
    inversion M1 as [| |? ? ? o t2 ? Mo M2| | | | | | | |]; subst.
    inversion M2 as [| |? ? ? mid t3 ? Mmid M3| | | | | | | |]; subst.
    inversion M3 as [| |? ? ? c t4 ? Mc M4| | | | | | | |]; subst.
    inversion M4 as [| |? ? ? b t5 ? Mb M5| | | | | | | |]; subst.
    inversion M5 as [| | | | | | | | | |? ? ? He]; subst.
    inversion Ma as [| | | | |? ? ? ? ? ? Ha _| | | | |]; subst.
    inversion Mo as [|? co ? ? Ho| | | | | | | | |]; subst.
    inversion Mmid as [| | | | |? ? ? ? ? ? Hmid _| | | | |]; subst.
    inversion Mc as [|? cc ? ? Hc| | | | | | | | |]; subst.
    inversion Mb as [| | | | |? ? ? ? ? ? Hb _| | | | |]; subst.
    destruct s2; [|by simpl in He]. rewrite !sapp_nil_r in *.
    assert (a = "") as ->.
    { eapply spaces_prefix_nil; [exact Ha | exact HL]. }
    rewrite sapp_nil_l in *.
    assert (b = "") as ->.
    { eapply (spaces_suffix_nil b (String co "" ++ mid ++ String cc "")); [exact Hb|].
      by rewrite !sapp_assoc. }
    rewrite sapp_nil_r. rewrite sapp_cons, sapp_nil_l.
    cbn [bracketed]. rewrite Ho, rev_app.
    change (strings.rev (String cc "")) with (String cc "").
    rewrite sapp_cons, sapp_nil_l, Hc. cbn [andb].
    by rewrite no_byte_rev, <- all_bytes_dot_iff.
  - intros H. destruct clean as [|o rest]; [done|]. cbn [bracketed] in H.
    apply andb_prop in H as [Ho H].
    destruct (strings.rev rest) as [|c rmid] eqn:E; [done|].
    apply andb_prop in H as [Hc Hmid].
    assert (Hrest : rest = strings.rev rmid ++ String c "").
    { by rewrite <- (rev_involutive rest), E, rev_cons. }
    exists (String o rest), "". rewrite sapp_nil_r. split; [done|].
    assert (Hshape : String o rest =
      "" ++ (String o "" ++ (strings.rev rmid ++ (String c "" ++ ("" ++ ""))))).
    { by rewrite Hrest, !sapp_nil_l, sapp_nil_r. }
    rewrite Hshape.
    constructor; [by constructor|].
    constructor; [by constructor|].
    constructor; [constructor; [by rewrite all_bytes_dot_iff, no_byte_rev | simpl; lia]|].
    constructor; [by constructor|].
    constructor; [by constructor|].
    by constructor.
Qed.

(** What the classifier does with a text whose content, the tags
    stripped and the ends trimmed, holds a lowercase letter. *)
Lemma detectStyle_with_lowercase text :
  let clean := TrimSpace (ReplaceAllString reTag text "") in
  has_lower clean = true ->
  detectStyle text = if bracketed clean then "tanda" else "Default".
Proof.
  intros clean Hlow. unfold detectStyle. fold clean.
  assert (Hne : clean <> "") by (intros E; by rewrite E in Hlow).
  apply String.eqb_neq in Hne. rewrite Hne.
  destruct (MatchString reFullCaps clean) eqn:E.
  - apply reFullCaps_spec in E as [_ E]. congruence.
  - destruct (TrimSpace_spec (ReplaceAllString reTag text "")) as (HL & HR & _).
    fold clean in HL, HR. by rewrite reWrapped_spec.
Qed.

End ClassifierFacts.

Section GroupingProofs.

Lemma fold_group_step l : forall g o,
  let '(g', o') := fold_left group_step l (g, o) in
  (forall k, default [] (g' !! k) = (default [] (g !! k) ++ map Text (members k l))%list) /\
  o' = (o ++ filter (λ k, g !! k = None) (distinct_keys (map key_of l)))%list.
Proof.
  induction l as [|d l IH]; intros g o.
  - simpl. split; [intros k; by rewrite app_nil_r | by rewrite app_nil_r].
  - set (k0 := key_of d).
    set (g1 := <[k0 := (default [] (g !! k0) ++ [Text d])%list]> g).
    set (o1 := match g !! k0 with None => (o ++ [k0])%list | Some _ => o end).
    change (fold_left group_step (d :: l) (g, o))
      with (fold_left group_step l (g1, o1)).
    change (map key_of (d :: l)) with (k0 :: map key_of l).
    change (distinct_keys (k0 :: map key_of l))
      with (k0 :: filter (λ k', k' ≠ k0) (distinct_keys (map key_of l))).
    specialize (IH g1 o1).
    destruct (fold_left group_step l (g1, o1)) as [g' o'].
    destruct IH as [IHg IHo]. split.
    + intros k. rewrite IHg. unfold members. rewrite filter_cons. fold k0.
      destruct (decide (k0 = k)) as [<-|Hne].
      * unfold g1. rewrite lookup_insert_eq. simpl.
        by rewrite <- app_assoc.
      * unfold g1. by rewrite lookup_insert_ne.
    + rewrite IHo. rewrite filter_cons.
      assert (Hf : filter (λ k, g1 !! k = None) (distinct_keys (map key_of l))
                   = filter (λ k, g !! k = None)
                       (filter (λ k', k' ≠ k0) (distinct_keys (map key_of l)))).
      { rewrite list_filter_filter. apply list_filter_iff. intros k.
        unfold g1. destruct (decide (k0 = k)) as [->|Hne].
        - rewrite lookup_insert_eq. split; [done | intros [_ Hk]; by destruct Hk].
        - rewrite lookup_insert_ne by done.
          split; [intros ?; split; [done | congruence] | by intros [? _]]. }
      rewrite Hf. unfold o1. fold k0.
      destruct (g !! k0) eqn:E.
      * rewrite decide_False by (intros ?; congruence). done.
      * rewrite decide_True by done. by rewrite <- app_assoc.
Qed.

(** The loop over the map and the order slice computes the groups of
    the specification. *)
Lemma mergeSameTimeAndStyle_groups dlgs :
  mergeSameTimeAndStyle dlgs = groups_spec dlgs.
Proof.
  unfold mergeSameTimeAndStyle, groups_spec.
  pose proof (fold_group_step dlgs ∅ []) as H.
  destruct (fold_left group_step dlgs (∅, [])) as [g' o'].
  destruct H as [Hg Ho]. subst o'. simpl.
  rewrite (list_filter_iff _ (λ _, True)).
  2:{ intros k. rewrite lookup_empty. naive_solver. }
  assert (Hall : forall l : list key, filter (λ _, True) l = l).
  { induction l as [|x l IHl]; [done|]. rewrite filter_cons_True by done. by rewrite IHl. }
  rewrite Hall. apply map_ext. intros k.
  unfold group_block. rewrite Hg, lookup_empty. done.
Qed.

Lemma distinct_keys_sublist l : distinct_keys l `sublist_of` l.
Proof.
  induction l as [|k l IH]; simpl; [constructor|].
  apply sublist_skip. etrans; [apply sublist_filter | exact IH].
Qed.

End GroupingProofs.

Section SortedProofs.

Lemma StronglySorted_sublist {A} (R : relation A) (l1 l2 : list A) :
  l1 `sublist_of` l2 -> StronglySorted R l2 -> StronglySorted R l1.
Proof.
  induction 1 as [|x l1 l2 Hs IH|x l1 l2 Hs IH]; intros Hsorted.
  - constructor.
  - apply StronglySorted_inv in Hsorted as [Hl2 Hx].
    constructor; [by apply IH|].
    rewrite Forall_forall in Hx |- *. intros y Hy.
    apply Hx. eapply elem_of_sublist; eauto.
  - apply StronglySorted_inv in Hsorted as [Hl2 _]. by apply IH.
Qed.

Lemma insert_by_start_bound a x l :
  a <= Start x -> Forall (Z.le a) (starts l) ->
  Forall (Z.le a) (starts (insert_by_start x l)).
Proof.
  intros Hx. induction l as [|z l IH]; intros Hl.
  - by repeat constructor.
  - apply Forall_cons in Hl as [Hz Hl]. simpl.
    destruct (less z x); simpl.
    + constructor; [done | by apply IH].
    + by repeat constructor.
Qed.

Lemma insert_by_start_sorted x l :
  StronglySorted Z.le (starts l) -> StronglySorted Z.le (starts (insert_by_start x l)).
Proof.
  induction l as [|y l IH]; intros Hs.
  - repeat constructor.
  - apply StronglySorted_inv in Hs as [Hl Hy]. simpl.
    unfold less at 1. destruct (Z.ltb_spec (Start y) (Start x)) as [Hlt|Hge]; simpl.
    + constructor; [by apply IH|].
      apply insert_by_start_bound; [lia | done].
    + constructor; [by constructor|].
      constructor; [done|].
      eapply Forall_impl; [exact Hy|]. simpl. intros; lia.
Qed.

Lemma sort_stable_by_start_sorted l :
  StronglySorted Z.le (starts (sort_stable_by_start l)).
Proof.
  induction l as [|x l IH]; simpl; [constructor|].
  by apply insert_by_start_sorted.
Qed.

(** A turn of the merge loop appends the current block, drops it, or
    rewrites the end of the last block: the starts of [merged],
    followed by those still to come, stay a sublist of what they
    were. *)
Lemma merge_step_starts tol merged cur :
  starts (merge_step tol merged cur) `sublist_of` starts (merged ++ [cur]).
Proof.
  unfold merge_step, starts.
  destruct (last merged) as [lst|] eqn:Hlast; [|done].
  repeat match goal with |- context [if ?b then _ else _] => destruct b end; try done.
  - rewrite map_app. by apply sublist_inserts_r.
  - rewrite map_app. apply sublist_inserts_r.
    rewrite last_lookup in Hlast.
    assert (Heq : map Start (<[Nat.pred (length merged) := with_end lst (End_ cur)]> merged)
                  = map Start merged).
    { change (map Start) with (fmap (M:=list) Start).
      rewrite list_fmap_insert. apply list_insert_id.
      rewrite list_lookup_fmap, Hlast. done. }
    by rewrite Heq.
Qed.

Lemma merge_loop_sorted tol arr : forall merged,
  StronglySorted Z.le (starts (merged ++ arr)) ->
  StronglySorted Z.le (starts (fold_left (merge_step tol) arr merged)).
Proof.
  induction arr as [|cur arr IH]; intros merged Hs; simpl.
  - by rewrite app_nil_r in Hs.
  - apply IH. eapply StronglySorted_sublist; [|exact Hs].
    unfold starts. rewrite !map_app. change (cur :: arr) with ([cur] ++ arr)%list.
    rewrite map_app, app_assoc. apply sublist_app; [|done].
    rewrite <- map_app. apply merge_step_starts.
Qed.

Lemma mergeSameOrContinuous_sorted dlgs tol :
  StronglySorted Z.le (starts (mergeSameOrContinuous dlgs tol)).
Proof.
  unfold mergeSameOrContinuous. apply merge_loop_sorted.
  simpl. apply sort_stable_by_start_sorted.
Qed.

Lemma groups_spec_sorted dlgs :
  StronglySorted Z.le (starts dlgs) -> StronglySorted Z.le (starts (groups_spec dlgs)).
Proof.
  intros Hs. unfold groups_spec, starts. rewrite map_map. simpl.
  assert (Hk : StronglySorted Z.le (map (λ k : key, k.1.1) (map key_of dlgs))).
  { rewrite map_map. exact Hs. }
  eapply StronglySorted_sublist; [|exact Hk].
  change (map (λ k : key, k.1.1)) with (fmap (M:=list) (λ k : key, k.1.1)).
  apply fmap_sublist, distinct_keys_sublist.
Qed.

Lemma starts_sorted l : StronglySorted Z.le (starts l) -> StartSorted l.
Proof.
  intros Hs. apply StronglySorted_Sorted in Hs.
  unfold StartSorted. induction l as [|a l IH]; [constructor|].
  simpl in Hs. apply Sorted_inv in Hs as [Hl Hh].
  constructor; [by apply IH|].
  destruct l as [|b l]; constructor. inversion Hh; subst. done.
Qed.

End SortedProofs.

Section SplitProofs.

Lemma fold_left_snoc {A B} (f : A -> B) (l : list A) (acc : list B) :
  fold_left (fun out x => (out ++ [f x])%list) l acc = (acc ++ map f l)%list.
Proof.
  revert acc. induction l as [|x l IH]; intros acc; simpl.
  - by rewrite app_nil_r.
  - rewrite IH. by rewrite <- app_assoc.
Qed.

Lemma splitMultiline_flat_map blocks :
  splitMultiline blocks = flat_map cue_lines blocks.
Proof.
  unfold splitMultiline.
  assert (H : forall acc,
    fold_left
      (fun out b =>
         fold_left
           (fun out ln =>
              (out ++ [{| Index := Index b; StartMs := StartMs b; EndMs := EndMs b;
                          BlockText := TrimSpace ln |}])%list)
           (strings.Split (BlockText b) nl) out)
      blocks acc = (acc ++ flat_map cue_lines blocks)%list).
  { induction blocks as [|b blocks IH]; intros acc; simpl.
    - by rewrite app_nil_r.
    - rewrite IH.
      rewrite (fold_left_snoc (fun ln => cue (Index b) (StartMs b) (EndMs b) (TrimSpace ln))).
      unfold cue_lines. by rewrite <- app_assoc. }
  apply H.
Qed.

Lemma split_go_nl_length s : forall cur,
  length (strings.split_go nl 0 cur s) = S (count_nl s).
Proof.
  induction s as [|c s IH]; intros cur; [reflexivity|].
  cbn [strings.split_go count_nl].
  change (HasPrefix (String c s) nl) with
    (if Ascii.eqb c "010" then HasPrefix s "" else false).
  assert (Hp : HasPrefix s "" = true) by (destruct s; reflexivity).
  rewrite Hp. unfold regexp.is_nl, is_byte.
  destruct (Ascii.eqb_spec c "010") as [->|Hne].
  - cbn [length]. rewrite IH. reflexivity.
  - rewrite IH.
    assert (Hn : (N_of_ascii c =? 10)%N = false).
    { apply N.eqb_neq. intros Hc. apply Hne.
      rewrite <- (ascii_N_embedding c), Hc. reflexivity. }
    rewrite Hn. reflexivity.
Qed.

Lemma cue_lines_length b : length (cue_lines b) = S (count_nl (BlockText b)).
Proof. unfold cue_lines. rewrite length_map. apply split_go_nl_length. Qed.

End SplitProofs.

Section SameKey.




End SameKey.




Lemma to_int64_in_range f : Int64.in_range (F64.to_int64 f) = true.
Proof.
  unfold F64.to_int64.
  destruct (F64.trunc f) as [z|]; [|reflexivity].
  destruct (Int64.in_range z) eqn:E; [exact E | reflexivity].
Qed.

Lemma parseTimeStringToMs_in_range s :
  Int64.in_range (parseTimeStringToMs s) = true.
Proof.
  unfold parseTimeStringToMs.
  repeat match goal with
  | |- Int64.in_range (F64.to_int64 _) = true => apply to_int64_in_range
  | |- Int64.in_range 0 = true => reflexivity
  | |- context [if ?b then _ else _] => destruct b
  | |- context [let '(_, _) := ?p in _] => destruct p
  | |- context [match ?l with [] => _ | _ :: _ => _ end] => destruct l
  end.
Qed.

(* ===================================================================== *)
(** * Lemmas for the further properties *)
(* ===================================================================== *)

Section GroupingMore.

Lemma distinct_keys_subset (l : list key) k : k ∈ distinct_keys l -> k ∈ l.
Proof. intros Hk. exact (elem_of_sublist _ _ _ Hk (distinct_keys_sublist l)). Qed.

Lemma distinct_keys_NoDup (l : list key) : NoDup (distinct_keys l).
Proof.
  induction l as [|k l IH]; simpl; [constructor|].
  constructor.
  - rewrite list_elem_of_filter. intros [Hne _]. by apply Hne.
  - by apply NoDup_filter.
Qed.

Lemma filter_all {A} (P : A -> Prop) `{forall x, Decision (P x)} (l : list A) :
  Forall P l -> filter P l = l.
Proof.
  induction 1 as [|x l Hx Hl IH]; [done|].
  rewrite filter_cons_True by done. by rewrite IH.
Qed.

Lemma filter_none {A} (P : A -> Prop) `{forall x, Decision (P x)} (l : list A) :
  Forall (fun x => ~ P x) l -> filter P l = [].
Proof.
  induction 1 as [|x l Hx Hl IH]; [done|].
  rewrite filter_cons_False by done. exact IH.
Qed.

Lemma distinct_keys_id (l : list key) : NoDup l -> distinct_keys l = l.
Proof.
  induction 1 as [|k l Hk Hl IH]; simpl; [done|].
  rewrite IH. f_equal. apply filter_all.
  rewrite Forall_forall. intros k' Hk' ->. done.
Qed.

Lemma key_of_group_block k texts : key_of (group_block k texts) = k.
Proof. by destruct k as [[s e] sty]. Qed.

Lemma groups_spec_keys dlgs :
  map key_of (groups_spec dlgs) = distinct_keys (map key_of dlgs).
Proof.
  unfold groups_spec. rewrite map_map.
  rewrite (map_ext _ id); [apply map_id|].
  intros k. apply key_of_group_block.
Qed.

(** Blocks of pairwise distinct keys are groups of their own. *)
Lemma groups_spec_NoDup dlgs :
  NoDup (map key_of dlgs) -> groups_spec dlgs = dlgs.
Proof.
  induction dlgs as [|d dlgs IH]; intros Hnd; [done|].
  simpl in Hnd. apply NoDup_cons in Hnd as [Hd Hnd].
  unfold groups_spec. simpl.
  assert (Hdk : distinct_keys (map key_of dlgs) = map key_of dlgs)
    by (by apply distinct_keys_id).
  rewrite Hdk.
  rewrite filter_all.
  2:{ rewrite Forall_forall. intros k Hk ->. done. }
  f_equal.
  - unfold members. rewrite filter_cons_True by done.
    rewrite filter_none.
    2:{ rewrite Forall_forall. intros x Hx Hkx. apply Hd. rewrite <- Hkx.
        change (map key_of dlgs) with (key_of <$> dlgs). by apply list_elem_of_fmap_2. }
    by destruct d.
  - rewrite <- (IH Hnd) at 2. unfold groups_spec. rewrite Hdk.
    apply map_ext_in. intros k Hk. f_equal. f_equal.
    unfold members. rewrite filter_cons_False; [done|].
    intros Hkd. apply Hd. rewrite Hkd. by apply list_elem_of_In.
Qed.

End GroupingMore.

Section MergeMore.

Lemma insert_by_start_Permutation x l : insert_by_start x l ≡ₚ x :: l.
Proof.
  induction l as [|y l IH]; simpl; [done|].
  destruct (less y x); [|done].
  rewrite IH. apply Permutation_swap.
Qed.

Lemma sort_stable_by_start_Permutation l : sort_stable_by_start l ≡ₚ l.
Proof.
  induction l as [|x l IH]; simpl; [done|].
  rewrite insert_by_start_Permutation. by rewrite IH.
Qed.

(** A sorted slice is left as it is by the stable sort. *)
Lemma sort_stable_by_start_sorted_id l :
  StronglySorted Z.le (starts l) -> sort_stable_by_start l = l.
Proof.
  induction l as [|x l IH]; intros Hs; [done|].
  simpl in Hs. apply StronglySorted_inv in Hs as [Hl Hx].
  change (sort_stable_by_start (x :: l)) with (insert_by_start x (sort_stable_by_start l)).
  rewrite (IH Hl).
  destruct l as [|y l]; simpl; [done|].
  simpl in Hx. apply Forall_cons in Hx as [Hxy _].
  unfold less. destruct (Z.ltb_spec (Start y) (Start x)); [lia | done].
Qed.

Lemma merge_step_from_input tol dlgs merged cur :
  Forall (from_input dlgs) merged -> cur ∈ dlgs ->
  Forall (from_input dlgs) (merge_step tol merged cur).
Proof.
  intros Hm Hc.
  assert (Hcur : from_input dlgs cur) by (exists cur, cur; naive_solver).
  assert (Happ : Forall (from_input dlgs) (merged ++ [cur])).
  { apply Forall_app. split; [done | by constructor]. }
  unfold merge_step.
  destruct (last merged) as [lst|] eqn:Hlast; [|done].
  repeat match goal with |- context [if ?b then _ else _] => destruct b end; try done.
  apply Forall_insert; [done|].
  apply last_Some_elem_of in Hlast.
  rewrite Forall_forall in Hm. destruct (Hm _ Hlast) as (a & b & Ha & Hb & H1 & H2 & H3 & H4).
  exists a, cur. simpl. naive_solver.
Qed.

Lemma merge_step_length tol merged cur :
  (length (merge_step tol merged cur) <= S (length merged))%nat.
Proof.
  unfold merge_step.
  destruct (last merged) as [lst|] eqn:Hlast.
  - repeat match goal with |- context [if ?b then _ else _] => destruct b end;
      rewrite ?length_app, ?length_insert; simpl; lia.
  - rewrite length_app. simpl. lia.
Qed.

Lemma merge_loop_from_input tol dlgs arr : forall merged,
  Forall (from_input dlgs) merged -> Forall (fun c => c ∈ dlgs) arr ->
  Forall (from_input dlgs) (fold_left (merge_step tol) arr merged) /\
  (length (fold_left (merge_step tol) arr merged) <= length merged + length arr)%nat.
Proof.
  induction arr as [|cur arr IH]; intros merged Hm Ha; simpl.
  - split; [done | lia].
  - apply Forall_cons in Ha as [Hc Ha].
    destruct (IH (merge_step tol merged cur)) as [H1 H2];
      [by apply merge_step_from_input | done |].
    split; [done|].
    pose proof (merge_step_length tol merged cur). lia.
Qed.

End MergeMore.

Lemma mergeSameOrContinuous_provenance (dlgs : list Dlg) (tolerance : float64) :
  Forall (from_input dlgs) (mergeSameOrContinuous dlgs tolerance) /\
  (length (mergeSameOrContinuous dlgs tolerance) <= length dlgs)%nat.
Proof.
  unfold mergeSameOrContinuous.
  destruct (merge_loop_from_input tolerance dlgs (sort_stable_by_start dlgs) [])
    as [H1 H2]; [constructor | |].
  - rewrite Forall_forall. intros c Hc.
    by rewrite (sort_stable_by_start_Permutation dlgs) in Hc.
  - split; [done|].
    rewrite (Permutation_length (sort_stable_by_start_Permutation dlgs)) in H2.
    simpl in H2. lia.
Qed.

Section Settled.

Lemma neighbours_differ_last merged : forall lst cur arr,
  last merged = Some lst ->
  neighbours_differ (merged ++ cur :: arr) = true -> same_line lst cur = false.
Proof.
  induction merged as [|a merged IH]; intros lst cur arr Hlast H; [done|].
  destruct merged as [|b merged].
  - simpl in Hlast. injection Hlast as ->. simpl in H.
    apply andb_prop in H as [H _]. by apply negb_true_iff.
  - change (last (a :: b :: merged)) with (last (b :: merged)) in Hlast.
    change ((a :: b :: merged) ++ cur :: arr)%list
      with (a :: ((b :: merged) ++ cur :: arr))%list in H.
    cbn [neighbours_differ] in H. apply andb_prop in H as [_ H].
    by eapply IH.
Qed.

Lemma merge_loop_settled tol arr : forall merged,
  neighbours_differ (merged ++ arr) = true ->
  fold_left (merge_step tol) arr merged = (merged ++ arr)%list.
Proof.
  induction arr as [|cur arr IH]; intros merged H; simpl.
  - by rewrite app_nil_r.
  - assert (Hstep : merge_step tol merged cur = (merged ++ [cur])%list).
    { unfold merge_step. destruct (last merged) as [lst|] eqn:Hlast; [|done].
      pose proof (neighbours_differ_last _ _ _ _ Hlast H) as Hs.
      unfold same_line in Hs. by rewrite Hs. }
    rewrite Hstep, IH; rewrite <- app_assoc; done.
Qed.

Lemma StartSorted_starts l : StartSorted l -> StronglySorted Z.le (starts l).
Proof.
  intros Hs. unfold StartSorted in Hs.
  apply Sorted_StronglySorted in Hs.
  2:{ intros a b c. unfold le_start. lia. }
  induction Hs as [|a l Hl IH Ha]; [constructor|].
  simpl. constructor; [done|].
  rewrite Forall_forall in Ha. rewrite Forall_forall. intros z Hz.
  apply list_elem_of_In, in_map_iff in Hz as (d & <- & Hd).
  apply Ha. by apply list_elem_of_In.
Qed.

End Settled.

Section RegexpScan.

Lemma in_all_ascii x : In x all_ascii.
Proof.
  unfold all_ascii. apply in_map_iff. exists (nat_of_ascii x). split.
  - apply ascii_nat_embedding.
  - apply in_seq. pose proof (nat_ascii_bounded x). lia.
Qed.

Lemma only_byte_spec (p : ascii -> bool) c :
  forallb (fun x => implb (p x) (Ascii.eqb x c)) all_ascii = true ->
  forall x, p x = true -> x = c.
Proof.
  intros H x Hx. rewrite forallb_forall in H.
  specialize (H x (in_all_ascii x)). rewrite Hx in H. simpl in H.
  by apply Ascii.eqb_eq.
Qed.

Lemma no_byte_false_app_l c a b : no_byte c a = false -> no_byte c (a ++ b) = false.
Proof.
  induction a as [|x a IH]; [done|]. rewrite sapp_cons. simpl.
  destruct (Ascii.eqb x c); [done|]. simpl. exact IH.
Qed.

Lemma no_byte_false_app_r c a b : no_byte c b = false -> no_byte c (a ++ b) = false.
Proof.
  intros H. induction a as [|x a IH]; [done|]. rewrite sapp_cons. simpl.
  rewrite IH. by destruct (Ascii.eqb x c).
Qed.

Lemma needs_byte_matches c r prev s rest :
  matches r prev s rest -> needs_byte c r = true -> no_byte c s = false.
Proof.
  induction 1 as [prev rest|p x prev rest Hp|r1 r2 prev s1 s2 rest _ IH1 _ IH2
                 |r1 r2 prev s rest _ IH|r1 r2 prev s rest _ IH
                 |p min greedy prev s rest Hall Hmin
                 |r prev s rest _ IH|r prev rest|i r prev s rest _ IH
                 |m prev rest Hb|m prev rest He]; cbn [needs_byte]; intros Hn; try done.
  - rewrite (only_byte_spec _ _ Hn x Hp). simpl. by rewrite Ascii.eqb_refl.
  - apply orb_prop in Hn as [Hn|Hn].
    + by apply no_byte_false_app_l, IH1.
    + by apply no_byte_false_app_r, IH2.
  - apply andb_prop in Hn as [Hn _]. by apply IH.
  - apply andb_prop in Hn as [_ Hn]. by apply IH.
  - apply andb_prop in Hn as [Hm Hn]. apply Nat.ltb_lt in Hm.
    destruct s as [|x s]; [simpl in Hmin; lia|].
    simpl in Hall. apply andb_prop in Hall as [Hx _].
    rewrite (only_byte_spec _ _ Hn x Hx). simpl. by rewrite Ascii.eqb_refl.
  - by apply IH.
Qed.

(** A pattern that needs a byte matches nowhere in a text without it. *)
Lemma match_here_no_byte c r prev s :
  needs_byte c r = true -> no_byte c s = true -> match_here r prev s = None.
Proof.
  intros Hn Hs. unfold match_here.
  destruct (run r _ prev s []) as [[rest caps]|] eqn:E; [|done].
  destruct (run_sound _ _ _ _ _ _ E) as (s1 & s2 & caps' & -> & Hm & _).
  pose proof (needs_byte_matches c _ _ _ _ Hm Hn) as H1.
  by rewrite (no_byte_false_app_l c s1 s2 H1) in Hs.
Qed.

Lemma scan_no_byte c r s : forall prev cur,
  needs_byte c r = true -> no_byte c s = true ->
  scan r 0 prev cur s = ([], strings.rev cur ++ s).
Proof.
  induction s as [|x s IH]; intros prev cur Hn Hs.
  - simpl. by rewrite sapp_nil_r.
  - cbn [scan]. rewrite (match_here_no_byte c r prev _ Hn Hs).
    simpl in Hs. apply andb_prop in Hs as [_ Hs].
    rewrite IH by done. rewrite rev_cons, sapp_assoc. done.
Qed.

Lemma ReplaceAllStringFunc_no_byte c r s repl :
  needs_byte c r = true -> no_byte c s = true ->
  ReplaceAllStringFunc r s repl = s.
Proof.
  intros Hn Hs. unfold ReplaceAllStringFunc, FindAll.
  rewrite (scan_no_byte c) by done. done.
Qed.

Lemma match_here_le r prev s n caps :
  match_here r prev s = Some (n, caps) -> (n <= String.length s)%nat.
Proof.
  unfold match_here. destruct (run r _ prev s []) as [[rest caps']|]; [|done].
  intros [= <- _]. lia.
Qed.

(** The matches and the pieces between them make up the text. *)
Lemma scan_pieces r s : forall skip prev cur l t,
  scan r skip prev cur s = (l, t) ->
  pieces l t = strings.rev cur ++ strings.drop skip s.
Proof.
  induction s as [|c s IH]; intros skip prev cur l t H.
  - simpl in H. injection H as <- <-. unfold pieces. simpl.
    destruct skip; simpl; by rewrite sapp_nil_r.
  - cbn [scan] in H. destruct skip as [|k].
    + destruct (match_here r prev (String c s)) as [[[|n] caps]|] eqn:E.
      * apply IH in H. rewrite H. simpl. by rewrite rev_cons, sapp_assoc.
      * destruct (scan r n (Some c) "" s) as [l' t'] eqn:E'.
        injection H as <- <-.
        apply IH in E'. unfold pieces in *. cbn [map concat_strings].
        rewrite !sapp_assoc. f_equal.
        rewrite E'. simpl. rewrite sapp_cons. f_equal.
        apply match_here_le in E. simpl in E.
        rewrite <- (take_drop n s) at 3. done.
      * apply IH in H. rewrite H. simpl. by rewrite rev_cons, sapp_assoc.
    + apply IH in H. rewrite H. done.
Qed.

Lemma FindAll_pieces r s l t : FindAll r s = (l, t) -> pieces l t = s.
Proof. intros H. apply scan_pieces in H. exact H. Qed.

End RegexpScan.

Section PlainText.

Lemma split_go_no_sep sep s : forall cur,
  Contains s sep = false ->
  strings.split_go sep 0 cur s = [strings.rev cur ++ s].
Proof.
  induction s as [|c s IH]; intros cur H.
  - simpl. by rewrite sapp_nil_r.
  - cbn [Contains] in H. apply orb_false_elim in H as [Hp Hc].
    cbn [strings.split_go]. rewrite Hp, IH by done.
    by rewrite rev_cons, sapp_assoc.
Qed.

Lemma ReplaceAll_no_sep s old new :
  Contains s old = false -> strings.ReplaceAll s old new = s.
Proof.
  intros H. unfold strings.ReplaceAll, strings.Split.
  by rewrite split_go_no_sep.
Qed.

End PlainText.

Section FirstBytes.

Lemma in_set_spec p set x : in_set p set = true -> p x = true -> set x = true.
Proof.
  unfold in_set. rewrite forallb_forall. intros H Hx.
  specialize (H x (in_all_ascii x)). by rewrite Hx in H.
Qed.

Lemma first_in_matches set r prev s rest :
  matches r prev s rest -> first_in set r = true ->
  exists c s', s = String c s' /\ set c = true.
Proof.
  induction 1 as [prev rest|p x prev rest Hp|r1 r2 prev s1 s2 rest _ IH1 _ IH2
                 |r1 r2 prev s rest _ IH|r1 r2 prev s rest _ IH
                 |p min greedy prev s rest Hall Hmin
                 |r prev s rest _ IH|r prev rest|i r prev s rest _ IH
                 |m prev rest Hb|m prev rest He]; cbn [first_in]; intros Hn; try done.
  - exists x, "". split; [done|]. by eapply in_set_spec.
  - destruct (IH1 Hn) as (c & s' & -> & Hc). by exists c, (s' ++ s2).
  - apply andb_prop in Hn as [Hn _]. by apply IH.
  - apply andb_prop in Hn as [_ Hn]. by apply IH.
  - apply andb_prop in Hn as [Hm Hn]. apply Nat.ltb_lt in Hm.
    destruct s as [|x s]; [simpl in Hmin; lia|].
    simpl in Hall. apply andb_prop in Hall as [Hx _].
    exists x, s. split; [done|]. by eapply in_set_spec.
  - by apply IH.
Qed.

Lemma second_in_matches set r prev s rest :
  matches r prev s rest -> second_in set r = true ->
  exists c d s', s = String c (String d s') /\ set d = true.
Proof.
  intros M H. destruct r as [|p|r1 r2|r1 r2|p min greedy|r|i r|m|m]; try done.
  destruct r1 as [|p|? ?|? ?|? ? ?|?|? ?|?|?]; try done.
  simpl in H. inversion M as [| |r1' r2' prev' s1 s2 rest' M1 M2| | | | | | | |]; subst.
  inversion M1; subst.
  destruct (first_in_matches _ _ _ _ _ M2 H) as (d & s' & -> & Hd).
  by exists c, d, s'.
Qed.

Lemma match_here_first set r prev c s :
  first_in set r = true -> set c = false -> match_here r prev (String c s) = None.
Proof.
  intros Hn Hc. unfold match_here.
  destruct (run r _ prev (String c s) []) as [[rest caps]|] eqn:E; [|done].
  destruct (run_sound _ _ _ _ _ _ E) as (s1 & s2 & caps' & Hs & Hm & _).
  destruct (first_in_matches _ _ _ _ _ Hm Hn) as (x & s' & -> & Hx).
  rewrite sapp_cons in Hs. injection Hs as -> _. congruence.
Qed.

Lemma match_here_second set r prev c s :
  second_in set r = true ->
  match s with EmptyString => true | String d _ => negb (set d) end = true ->
  match_here r prev (String c s) = None.
Proof.
  intros Hn Hs. unfold match_here.
  destruct (run r _ prev (String c s) []) as [[rest caps]|] eqn:E; [|done].
  destruct (run_sound _ _ _ _ _ _ E) as (s1 & s2 & caps' & Heq & Hm & _).
  destruct (second_in_matches _ _ _ _ _ Hm Hn) as (x & d & s' & -> & Hd).
  rewrite !sapp_cons in Heq. injection Heq as -> ->.
  by rewrite Hd in Hs.
Qed.

Lemma scan_quiet set r s : forall prev cur,
  first_in (Ascii.eqb "\") r = true -> second_in set r = true ->
  quiet set s = true ->
  scan r 0 prev cur s = ([], strings.rev cur ++ s).
Proof.
  induction s as [|c s IH]; intros prev cur H1 H2 Hq.
  - simpl. by rewrite sapp_nil_r.
  - cbn [quiet] in Hq. apply andb_prop in Hq as [Hc Hq].
    cbn [scan].
    assert (Hm : match_here r prev (String c s) = None).
    { apply orb_prop in Hc as [Hc|Hc].
      - apply (match_here_first (Ascii.eqb "\")); [done|].
        rewrite Ascii.eqb_sym. by apply negb_true_iff.
      - by apply (match_here_second set). }
    rewrite Hm, IH by done. by rewrite rev_cons, sapp_assoc.
Qed.

Lemma ReplaceAllStringFunc_quiet set r s repl :
  first_in (Ascii.eqb "\") r = true -> second_in set r = true ->
  quiet set s = true ->
  ReplaceAllStringFunc r s repl = s.
Proof.
  intros H1 H2 Hq. unfold ReplaceAllStringFunc, FindAll.
  by rewrite (scan_quiet set).
Qed.

End FirstBytes.

Section FormatFacts.

Lemma all_bytes_impl (p q : ascii -> bool) s :
  (forall c, p c = true -> q c = true) -> all_bytes p s = true -> all_bytes q s = true.
Proof.
  intros Hpq. induction s as [|c s IH]; [done|]. simpl.
  intros H. apply andb_prop in H as [Hc Hs]. by rewrite (Hpq _ Hc), IH.
Qed.

Lemma all_bytes_no_byte (p : ascii -> bool) c s :
  p c = false -> all_bytes p s = true -> no_byte c s = true.
Proof.
  intros Hc. induction s as [|x s IH]; [done|]. simpl.
  intros H. apply andb_prop in H as [Hx Hs]. rewrite IH by done.
  destruct (Ascii.eqb_spec x c) as [->|]; [congruence | done].
Qed.

Lemma digit_char n : cls_digit (ascii_of_N (Z.to_N (48 + n mod 10))) = true.
Proof.
  pose proof (Z.mod_pos_bound n 10 ltac:(lia)) as H.
  assert (Hr : n mod 10 = 0 \/ n mod 10 = 1 \/ n mod 10 = 2 \/ n mod 10 = 3 \/
               n mod 10 = 4 \/ n mod 10 = 5 \/ n mod 10 = 6 \/ n mod 10 = 7 \/
               n mod 10 = 8 \/ n mod 10 = 9) by lia.
  destruct Hr as [->|[->|[->|[->|[->|[->|[->|[->|[->| ->]]]]]]]]]; reflexivity.
Qed.

Lemma digits_go_digits fuel : forall n acc,
  all_bytes cls_digit acc = true -> all_bytes cls_digit (fmt.digits_go fuel n acc) = true.
Proof.
  induction fuel as [|fuel IH]; intros n acc Hacc; [done|].
  cbn [fmt.digits_go].
  assert (H : all_bytes cls_digit (String (ascii_of_N (Z.to_N (48 + n mod 10))) acc) = true).
  { cbn [all_bytes]. by rewrite digit_char, Hacc. }
  destruct (n <? 10); [done | by apply IH].
Qed.

Lemma digits_digits n : all_bytes cls_digit (fmt.digits n) = true.
Proof. by apply digits_go_digits. Qed.

Lemma zeros_digits n : all_bytes cls_digit (fmt.zeros n) = true.
Proof. induction n as [|n IH]; [done|]. simpl. exact IH. Qed.

Lemma d_bytes z : all_bytes (fun c => cls_digit c || Ascii.eqb c "-") (fmt.d z) = true.
Proof.
  unfold fmt.d. destruct (z <? 0).
  - cbn [all_bytes]. simpl. apply (all_bytes_impl cls_digit); [|apply digits_digits].
    intros c ->. done.
  - apply (all_bytes_impl cls_digit); [|apply digits_digits]. intros c ->. done.
Qed.

Lemma d0_bytes w z : all_bytes (fun c => cls_digit c || Ascii.eqb c "-") (fmt.d0 w z) = true.
Proof.
  unfold fmt.d0.
  assert (H : forall n, all_bytes (fun c => cls_digit c || Ascii.eqb c "-")
                (fmt.zeros n ++ fmt.digits (Z.abs z)) = true).
  { intros n. apply (all_bytes_impl cls_digit); [by intros c ->|].
    by rewrite all_bytes_app, zeros_digits, digits_digits. }
  destruct (z <? 0); [cbn [all_bytes]; simpl|]; apply H.
Qed.

Lemma fixed_bytes N v : all_bytes cls_fixed (ftoa.fixed N v) = true.
Proof.
  assert (Hd : forall s, all_bytes cls_digit s = true -> all_bytes cls_fixed s = true).
  { intros s. apply all_bytes_impl. unfold cls_fixed. by intros c ->. }
  assert (Hs : forall s : bool, all_bytes cls_fixed (if s then "-" else "") = true)
    by (by intros []).
  assert (Hfrac : forall t, all_bytes cls_digit t = true ->
            all_bytes cls_fixed (match N with O => "" | S _ => "." ++ t end) = true).
  { intros t Ht. destruct N; [done|]. rewrite all_bytes_app, (Hd _ Ht). done. }
  unfold ftoa.fixed. destruct v as [s|[]| |s m e]; try reflexivity.
  - rewrite all_bytes_app, Hs, all_bytes_app, Hfrac; [done | apply zeros_digits].
  - cbv zeta.
    rewrite all_bytes_app, Hs, all_bytes_app, (Hd _ (digits_digits _)), Hfrac; [done|].
    unfold ftoa.digits_w. by rewrite all_bytes_app, zeros_digits, digits_digits.
Qed.

End FormatFacts.

Section RunEval.

Lemma run_Cat r1 r2 (k : cont) prev s caps :
  run (Cat r1 r2) k prev s caps
  = run r1 (fun prev' s' caps' => run r2 k prev' s' caps') prev s caps.
Proof. reflexivity. Qed.

Lemma run_Byte (p : ascii -> bool) (k : cont) prev c s caps :
  p c = true -> run (Byte p) k prev (String c s) caps = k (Some c) s caps.
Proof. intros H. cbn [run]. by rewrite H. Qed.

Lemma run_AltL r1 r2 (k : cont) prev s caps v :
  run r1 k prev s caps = Some v -> run (Alt r1 r2) k prev s caps = Some v.
Proof. intros H. cbn [run]. by rewrite H. Qed.

Lemma rep_greedy_max p k x : forall min prev rest v,
  all_bytes p x = true -> stops p rest = true -> (min <= String.length x)%nat ->
  k (last_byte prev x) rest = Some v ->
  rep_greedy p k min prev (x ++ rest) = Some v.
Proof.
  induction x as [|c x IH]; intros min prev rest v Hall Hstop Hmin Hk.
  - rewrite sapp_nil_l. simpl in Hmin. assert (min = 0%nat) as -> by lia.
    rewrite last_byte_nil in Hk.
    destruct rest as [|c rest]; cbn [rep_greedy]; [done|].
    simpl in Hstop. apply negb_true_iff in Hstop. by rewrite Hstop.
  - rewrite sapp_cons. cbn [rep_greedy].
    simpl in Hall. apply andb_prop in Hall as [Hc Hall]. rewrite Hc.
    rewrite last_byte_cons in Hk.
    rewrite (IH (Nat.pred min) (Some c) rest v); [done | done | done | simpl in Hmin; lia | done].
Qed.

Lemma run_Rep_max p min (k : cont) prev x rest caps v :
  all_bytes p x = true -> stops p rest = true -> (min <= String.length x)%nat ->
  k (last_byte prev x) rest caps = Some v ->
  run (Rep p min true) k prev (x ++ rest) caps = Some v.
Proof. intros. cbn [run]. by apply rep_greedy_max. Qed.

Lemma run_Rep_none p (k : cont) prev rest caps v :
  stops p rest = true -> k prev rest caps = Some v ->
  run (Rep p 0 true) k prev rest caps = Some v.
Proof.
  intros Hs Hk. apply (run_Rep_max p 0 k prev "" rest); [done | done | simpl; lia | done].
Qed.

Lemma take_app_length a b :
  strings.take (String.length (a ++ b) - String.length b) (a ++ b) = a.
Proof.
  rewrite slength_app. replace (_ + _ - _)%nat with (String.length a) by lia.
  induction a as [|c a IH]; [by destruct b|].
  rewrite sapp_cons. simpl. by rewrite IH.
Qed.

Lemma run_Group_max i p min (k : cont) prev x rest caps v :
  all_bytes p x = true -> stops p rest = true -> (min <= String.length x)%nat ->
  k (last_byte prev x) rest ((i, x) :: caps) = Some v ->
  run (Group i (Rep p min true)) k prev (x ++ rest) caps = Some v.
Proof.
  intros Hall Hs Hmin Hk. cbn [run]. apply rep_greedy_max; try done.
  by rewrite take_app_length.
Qed.

Lemma signed_not_space c : cls_signed c = true -> cls_space c = false.
Proof.
  intros H. destruct (cls_space c) eqn:E; [|done].
  assert (Hall : forallb (fun x => negb (cls_signed x && cls_space x)) all_ascii = true)
    by (vm_compute; reflexivity).
  rewrite forallb_forall in Hall. specialize (Hall c (in_all_ascii c)).
  by rewrite H, E in Hall.
Qed.

Lemma stops_space_signed x rest :
  x <> "" -> all_bytes cls_signed x = true -> stops cls_space (x ++ rest) = true.
Proof.
  destruct x as [|c x]; [done|]. intros _ H. simpl in H.
  apply andb_prop in H as [Hc _]. rewrite sapp_cons. simpl.
  by rewrite (signed_not_space _ Hc).
Qed.

(** The match of the pair pattern on a tag written without blanks: the
    rest of the text and the two groups. *)
Lemma run_rePos prev x y post :
  x <> "" -> y <> "" ->
  all_bytes cls_signed x = true -> all_bytes cls_signed y = true ->
  run rePos accept prev ("\pos(" ++ x ++ "," ++ y ++ ")" ++ post) []
  = Some (post, [(2%nat, y); (1%nat, x)]).
Proof.
  intros Hx Hy Hax Hay.
  unfold rePos, rePair, comma, num_group, sp, lit. cbn [seq_re str_ci].
  change (lit_ci "p") with (Byte (fun x => Ascii.eqb (lower_byte x) "p")).
  change (lit_ci "o") with (Byte (fun x => Ascii.eqb (lower_byte x) "o")).
  change (lit_ci "s") with (Alt (Byte (fun x => Ascii.eqb (lower_byte x) "s"))
                                (Cat (Byte (is_byte 197)) (Byte (is_byte 191)))).
  change ("\pos(" ++ x ++ "," ++ y ++ ")" ++ post)
    with (String "\" (String "p" (String "o" (String "s" (String "("
            (x ++ "," ++ y ++ ")" ++ post)))))).
  rewrite run_Cat, run_Byte by reflexivity; cbv beta.
  rewrite run_Cat, run_Cat, run_Byte by reflexivity; cbv beta.
  rewrite run_Cat, run_Byte by reflexivity; cbv beta.
  apply run_AltL. rewrite run_Byte by reflexivity.
  rewrite run_Cat, run_Byte by reflexivity; cbv beta.
  rewrite run_Cat. apply run_Rep_none; [by apply stops_space_signed|].
  rewrite run_Cat.
  apply run_Group_max; [done | reflexivity | destruct x; [done | simpl; lia] |].
  rewrite run_Cat, run_Cat. apply run_Rep_none; [reflexivity|].
  change ("," ++ y ++ ")" ++ post) with (String "," (y ++ ")" ++ post)).
  rewrite run_Cat, run_Byte by reflexivity; cbv beta.
  apply run_Rep_none; [by apply stops_space_signed|].
  rewrite run_Cat.
  apply run_Group_max; [done | reflexivity | destruct y; [done | simpl; lia] |].
  rewrite run_Cat. apply run_Rep_none; [reflexivity|].
  change (")" ++ post) with (String ")" post).
  rewrite run_Byte by reflexivity.
  reflexivity.
Qed.

End RunEval.

Section PosTag.

Lemma scan_quiet_prefix set r pre t : forall prev cur,
  first_in (Ascii.eqb "\") r = true -> second_in set r = true ->
  set "\"%char = false -> quiet set pre = true ->
  scan r 0 prev cur (pre ++ String "\" t)
  = scan r 0 (last_byte prev pre) (strings.rev_acc pre cur) (String "\" t).
Proof.
  induction pre as [|c pre IH]; intros prev cur H1 H2 Hb Hq; [done|].
  cbn [quiet] in Hq. apply andb_prop in Hq as [Hc Hq].
  rewrite sapp_cons. cbn [scan].
  assert (Hm : match_here r prev (String c (pre ++ String "\" t)) = None).
  { apply orb_prop in Hc as [Hc|Hc].
    - apply (match_here_first (Ascii.eqb "\")); [done|].
      rewrite Ascii.eqb_sym. by apply negb_true_iff.
    - apply (match_here_second set); [done|].
      destruct pre as [|d pre]; [by rewrite sapp_nil_l, Hb | by rewrite sapp_cons]. }
  rewrite Hm, IH by done. by rewrite last_byte_cons.
Qed.

Lemma scan_skip_app r a b : forall prev cur,
  scan r (String.length a) prev cur (a ++ b) = scan r 0 (last_byte prev a) cur b.
Proof.
  induction a as [|c a IH]; intros prev cur; [done|].
  rewrite sapp_cons, last_byte_cons. cbn [String.length scan]. apply IH.
Qed.

Lemma take_app_exact a b : strings.take (String.length a) (a ++ b) = a.
Proof.
  induction a as [|c a IH]; [by destruct b|].
  rewrite sapp_cons. simpl. by rewrite IH.
Qed.

(** One match in quiet surroundings: the parts of the text. *)
Lemma FindAll_one set r pre m post caps :
  first_in (Ascii.eqb "\") r = true -> second_in set r = true ->
  set "\"%char = false -> quiet set pre = true -> quiet set post = true ->
  (forall prev, match_here r prev (String "\" m ++ post)
                = Some (String.length (String "\" m), caps)) ->
  FindAll r (pre ++ String "\" m ++ post) = ([(pre, String "\" m)], post).
Proof.
  intros H1 H2 Hb Hpre Hpost Hm. unfold FindAll.
  rewrite sapp_cons, (scan_quiet_prefix set) by done.
  cbn [scan]. rewrite <- sapp_cons, Hm. cbn [String.length].
  rewrite sapp_cons, scan_skip_app, (scan_quiet set) by done.
  change (strings.take (S (String.length m)) (String "\" (m ++ post)))
    with (strings.take (String.length (String "\" m)) (String "\" m ++ post)).
  rewrite (take_app_exact (String "\" m) post).
  rewrite rev_acc_spec, sapp_nil_r, rev_involutive. done.
Qed.

Lemma quiet_no_backslash set a b :
  no_byte backslash a = true -> quiet set (a ++ b) = quiet set b.
Proof.
  induction a as [|c a IH]; [done|]. cbn [no_byte]. intros H.
  apply andb_prop in H as [Hc Ha]. rewrite sapp_cons. cbn [quiet].
  unfold backslash in Hc. rewrite Hc. cbn [orb andb]. by apply IH.
Qed.

Lemma quiet_app set a b :
  quiet set a = true -> quiet set b = true -> stops set b = true ->
  quiet set (a ++ b) = true.
Proof.
  intros Ha Hb Hs. induction a as [|c a IH]; [done|].
  cbn [quiet] in Ha. apply andb_prop in Ha as [Hc Ha].
  rewrite sapp_cons. cbn [quiet]. rewrite (IH Ha), andb_true_r.
  destruct a as [|d a]; [|by rewrite sapp_cons].
  rewrite sapp_nil_l. apply orb_prop in Hc as [->|_]; [done|].
  unfold stops in Hs. destruct b; [apply orb_true_r | by rewrite Hs, orb_true_r].
Qed.

Lemma quiet_mono (set set' : ascii -> bool) s :
  (forall d, set' d = true -> set d = true) -> quiet set s = true -> quiet set' s = true.
Proof.
  intros Hsub. induction s as [|c s IH]; [done|]. cbn [quiet].
  intros H. apply andb_prop in H as [Hc Hs]. rewrite (IH Hs), andb_true_r.
  apply orb_prop in Hc as [->|Hc]; [done|].
  destruct s as [|d s]; [apply orb_true_r|].
  destruct (set' d) eqn:E; [|apply orb_true_r].
  by rewrite (Hsub _ E) in Hc.
Qed.

Lemma other_initial_scaled d : other_initial d = true -> scaled_initial d = true.
Proof.
  intros H.
  assert (Hall : forallb (fun x => implb (other_initial x) (scaled_initial x)) all_ascii = true)
    by (vm_compute; reflexivity).
  rewrite forallb_forall in Hall. specialize (Hall d (in_all_ascii d)).
  by rewrite H in Hall.
Qed.

Lemma fixed_no_backslash N v : no_byte backslash (ftoa.fixed N v) = true.
Proof. apply (all_bytes_no_byte cls_fixed); [reflexivity | apply fixed_bytes]. Qed.

End PosTag.

Section PipelineFacts.

Lemma classifyLines_map lines :
  classifyLines lines
  = map (fun b => dlg (StartMs b) (EndMs b) (BlockText b) (detectStyle (BlockText b))) lines.
Proof.
  unfold classifyLines.
  apply (fold_left_snoc
           (fun b => dlg (StartMs b) (EndMs b) (BlockText b) (detectStyle (BlockText b)))).
Qed.

Lemma ConvertSRTBlocksToASS_map blocks tolerance :
  ConvertSRTBlocksToASS blocks tolerance
  = map dialogueLine (pipelineDialogues blocks tolerance).
Proof. unfold ConvertSRTBlocksToASS. apply (fold_left_snoc dialogueLine). Qed.

Lemma detectStyle_known text : known_style (detectStyle text).
Proof.
  unfold detectStyle, known_style.
  repeat match goal with |- context [if ?b then _ else _] => destruct b end; auto.
Qed.

Lemma flat_map_length_cue_lines blocks :
  length (flat_map cue_lines blocks) = text_lines blocks.
Proof.
  induction blocks as [|b blocks IH]; [done|].
  simpl. rewrite length_app, cue_lines_length, IH. done.
Qed.

Lemma groups_spec_length dlgs : (length (groups_spec dlgs) <= length dlgs)%nat.
Proof.
  unfold groups_spec. rewrite length_map.
  pose proof (sublist_length _ _ (distinct_keys_sublist (map key_of dlgs))) as H.
  by rewrite length_map in H.
Qed.

Lemma Join_no_byte c sep l :
  no_byte c sep = true -> Forall (fun t => no_byte c t = true) l ->
  no_byte c (Join l sep) = true.
Proof.
  intros Hsep. induction 1 as [|x l Hx Hl IH]; [done|].
  destruct l as [|y l]; [done|].
  rewrite Join_cons, !no_byte_app, Hx, Hsep, IH. done.
Qed.

Lemma split_go_no_byte c sep s : forall skip cur,
  no_byte c (strings.rev cur) = true -> no_byte c s = true ->
  Forall (fun t => no_byte c t = true) (strings.split_go sep skip cur s).
Proof.
  induction s as [|x s IH]; intros skip cur Hcur Hs; cbn [strings.split_go].
  - by constructor.
  - cbn [no_byte] in Hs. apply andb_prop in Hs as [Hx Hs].
    destruct skip as [|k]; [|by apply IH].
    destruct (HasPrefix (String x s) sep).
    + constructor; [done | by apply IH].
    + apply IH; [|done]. rewrite rev_cons, no_byte_app, Hcur. simpl. by rewrite Hx.
Qed.

Lemma ReplaceAll_no_byte c s old new :
  no_byte c new = true -> no_byte c s = true ->
  no_byte c (strings.ReplaceAll s old new) = true.
Proof.
  intros Hn Hs. unfold strings.ReplaceAll, strings.Split.
  apply Join_no_byte; [done|]. by apply split_go_no_byte.
Qed.

Lemma replaced_no_byte c (repl : string -> string) l t :
  (forall m, no_byte c (repl m) = true) ->
  no_byte c (pieces l t) = true ->
  no_byte c (concat_strings (map (fun '(pre, m) => pre ++ repl m) l) ++ t) = true.
Proof.
  intros Hr. unfold pieces. induction l as [|[pre m] l IH]; [done|].
  cbn [map concat_strings]. rewrite !sapp_assoc.
  rewrite (no_byte_app c pre), (no_byte_app c m), (no_byte_app c pre), (no_byte_app c (repl m)).
  intros H. apply andb_prop in H as [Hpre H]. apply andb_prop in H as [_ H].
  by rewrite Hpre, Hr, (IH H).
Qed.

Lemma ReplaceAllStringFunc_keeps_no_byte c r s repl :
  (forall m, no_byte c (repl m) = true) -> no_byte c s = true ->
  no_byte c (ReplaceAllStringFunc r s repl) = true.
Proof.
  intros Hr Hs. unfold ReplaceAllStringFunc.
  destruct (FindAll r s) as [l t] eqn:E.
  apply replaced_no_byte; [done|]. by rewrite (FindAll_pieces _ _ _ _ E).
Qed.

Lemma cleanFontAndEffects_no_byte c s :
  no_byte c s = true -> no_byte c (cleanFontAndEffects s) = true.
Proof.
  intros Hs. unfold cleanFontAndEffects, ReplaceAllString.
  apply ReplaceAll_no_byte; [done|].
  repeat (apply ReplaceAllStringFunc_keeps_no_byte; [done|]). done.
Qed.

Lemma formatMsToASSTime_no_nl ms : no_byte nl_byte (formatMsToASSTime ms) = true.
Proof.
  unfold formatMsToASSTime. cbv zeta.
  rewrite !no_byte_app.
  rewrite (all_bytes_no_byte _ nl_byte _ eq_refl (d_bytes _)).
  rewrite !(all_bytes_no_byte _ nl_byte _ eq_refl (d0_bytes _ _)). done.
Qed.

Lemma dialogueLine_no_nl d :
  no_byte nl_byte (Text d) = true -> known_style (Style d) ->
  no_byte nl_byte (dialogueLine d) = true.
Proof.
  intros Ht Hs. unfold dialogueLine. cbv zeta.
  rewrite !no_byte_app, !formatMsToASSTime_no_nl.
  assert (Hsty : no_byte nl_byte (Style d) = true) by (by destruct Hs as [-> | ->]).
  rewrite Hsty.
  destruct (negb (String.eqb (Style d) "tanda")); [rewrite no_byte_app|]; by rewrite Ht.
Qed.

(** What the steps 1 to 4 hand to the cleaning step: every block has the
    style of a line, and a text made of texts of lines joined with
    [\N]. *)
Lemma pipeline_blocks blocks tolerance :
  let dlgs := mergeSameTimeAndStyle
                (mergeSameOrContinuous (classifyLines (splitMultiline blocks)) tolerance) in
  Forall (fun d => no_byte nl_byte (Text d) = true /\ known_style (Style d)) dlgs /\
  (length dlgs <= text_lines blocks)%nat.
Proof.
  cbv zeta.
  set (lines := classifyLines (splitMultiline blocks)).
  assert (Hlines : Forall (fun d => no_byte nl_byte (Text d) = true /\ known_style (Style d)) lines).
  { unfold lines. rewrite classifyLines_map, splitMultiline_flat_map.
    rewrite Forall_forall. intros d Hd.
    apply list_elem_of_In, in_map_iff in Hd as (b & <- & Hb).
    apply in_flat_map in Hb as (b0 & _ & Hb). unfold cue_lines in Hb.
    apply in_map_iff in Hb as (ln & <- & Hln). simpl.
    split; [|apply detectStyle_known].
    apply TrimSpace_no_byte.
    pose proof (Split_fields nl_byte (BlockText b0)) as [Hf _].
    rewrite Forall_forall in Hf. apply Hf. by apply list_elem_of_In. }
  assert (Hlen : length lines = text_lines blocks).
  { unfold lines. rewrite classifyLines_map, splitMultiline_flat_map, length_map.
    apply flat_map_length_cue_lines. }
  destruct (mergeSameOrContinuous_provenance lines tolerance) as [Hfrom Hle].
  set (merged := mergeSameOrContinuous lines tolerance) in *.
  assert (Hmerged : Forall (fun d => no_byte nl_byte (Text d) = true /\ known_style (Style d)) merged).
  { rewrite Forall_forall in Hfrom, Hlines |- *. intros d Hd.
    destruct (Hfrom d Hd) as (a & b & Ha & _ & _ & Ht & Hs & _).
    rewrite Ht, Hs. by apply Hlines. }
  rewrite mergeSameTimeAndStyle_groups. split.
  - unfold groups_spec. rewrite Forall_forall. intros d Hd.
    apply list_elem_of_In, in_map_iff in Hd as (k & <- & Hk).
    apply list_elem_of_In, distinct_keys_subset, list_elem_of_In, in_map_iff in Hk
      as (d0 & <- & Hd0).
    rewrite Forall_forall in Hmerged. simpl. split.
    + apply Join_no_byte; [done|]. rewrite Forall_forall. intros t Ht.
      apply list_elem_of_In, in_map_iff in Ht as (d1 & <- & Hd1).
      unfold members in Hd1. apply list_elem_of_In, list_elem_of_filter in Hd1 as [_ Hd1].
      by apply Hmerged.
    + apply Hmerged. by apply list_elem_of_In.
  - pose proof (groups_spec_length merged). lia.
Qed.

End PipelineFacts.

Section DigitsFacts.

Lemma read_uint_digit a n acc :
  0 <= n < 10 ->
  strconv.read_uint a (String (ascii_of_N (Z.to_N (48 + n))) acc)
  = strconv.read_uint (a * 10 + n) acc.
Proof.
  intros Hn.
  assert (Hr : In (Z.to_nat n) (seq 0 10)) by (apply in_seq; lia).
  rewrite <- (Z2Nat.id n) by lia.
  cbn [seq In] in Hr.
  repeat (destruct Hr as [<-|Hr]; [reflexivity|]). destruct Hr.
Qed.

(** Reading the digits of a number gives the number back. *)
Lemma read_uint_digits_go fuel : forall n acc a,
  0 <= n < 10 ^ Z.of_nat fuel ->
  exists k, 0 <= k /\
    strconv.read_uint a (fmt.digits_go fuel n acc)
    = strconv.read_uint (a * 10 ^ k + n) acc.
Proof.
  induction fuel as [|fuel IH]; intros n acc a Hn.
  - exists 0. split; [lia|]. simpl in *. f_equal. lia.
  - cbn [fmt.digits_go].
    pose proof (Z.mod_pos_bound n 10 ltac:(lia)) as Hm.
    destruct (Z.ltb_spec n 10) as [Hlt|Hge].
    + exists 1. split; [lia|]. rewrite Z.mod_small by lia.
      rewrite read_uint_digit by lia. f_equal.
    + rewrite Nat2Z.inj_succ, Z.pow_succ_r in Hn by lia.
      destruct (IH (n / 10) (String (ascii_of_N (Z.to_N (48 + n mod 10))) acc) a) as (k & Hk & E).
      { split; [apply Z.div_pos; lia | apply Z.div_lt_upper_bound; lia]. }
      exists (k + 1). split; [lia|]. rewrite E, read_uint_digit by lia. f_equal.
      rewrite Z.pow_add_r by lia. pose proof (Z.div_mod n 10 ltac:(lia)). lia.
Qed.

Lemma digits_fuel n : 0 <= n -> n < 10 ^ Z.of_nat (S (Z.to_nat (Z.log2 n))).
Proof.
  intros Hn. destruct (Z.eq_dec n 0) as [->|Hne]; [reflexivity|].
  pose proof (Z.log2_spec n ltac:(lia)) as [_ Hlt].
  pose proof (Z.log2_nonneg n).
  rewrite Nat2Z.inj_succ, Z2Nat.id by lia.
  eapply Z.lt_le_trans; [exact Hlt|].
  apply Z.pow_le_mono_l. lia.
Qed.

Lemma read_uint_digits n : 0 <= n -> strconv.read_uint 0 (fmt.digits n) = Some n.
Proof.
  intros Hn. unfold fmt.digits.
  destruct (read_uint_digits_go (S (Z.to_nat (Z.log2 n))) n "" 0) as (k & Hk & E).
  { split; [done | by apply digits_fuel]. }
  rewrite E. simpl. f_equal.
Qed.

Lemma read_uint_zeros k s a :
  strconv.read_uint a (fmt.zeros k ++ s)
  = strconv.read_uint (a * 10 ^ Z.of_nat k) s.
Proof.
  revert a. induction k as [|k IH]; intros a.
  - simpl. f_equal. lia.
  - cbn [fmt.zeros]. rewrite sapp_cons. cbn [strconv.read_uint].
    change (strconv.is_digit "0") with true. cbn iota.
    rewrite IH. f_equal. change (strconv.digit_val "0") with 0.
    rewrite Nat2Z.inj_succ, Z.pow_succ_r by lia. lia.
Qed.

Lemma read_uint_d0 w z : 0 <= z -> strconv.read_uint 0 (fmt.d0 w z) = Some z.
Proof.
  intros Hz. unfold fmt.d0.
  destruct (Z.ltb_spec z 0) as [|_]; [lia|].
  rewrite read_uint_zeros, Z.abs_eq by done. simpl. by apply read_uint_digits.
Qed.

Lemma d0_inj w z1 z2 : 0 <= z1 -> 0 <= z2 -> fmt.d0 w z1 = fmt.d0 w z2 -> z1 = z2.
Proof.
  intros H1 H2 E.
  pose proof (read_uint_d0 w z1 H1) as E1. rewrite E, read_uint_d0 in E1 by done.
  by injection E1.
Qed.

Lemma d_inj z1 z2 : 0 <= z1 -> 0 <= z2 -> fmt.d z1 = fmt.d z2 -> z1 = z2.
Proof.
  unfold fmt.d. intros H1 H2.
  destruct (Z.ltb_spec z1 0) as [|_]; [lia|]. destruct (Z.ltb_spec z2 0) as [|_]; [lia|].
  intros E. pose proof (read_uint_digits z1 H1) as E1.
  rewrite E, read_uint_digits in E1 by done. by injection E1.
Qed.

(** Cutting at the first occurrence of a byte. *)
Lemma app_byte_inj c a a' r r' :
  no_byte c a = true -> no_byte c a' = true ->
  a ++ String c r = a' ++ String c r' -> a = a' /\ r = r'.
Proof.
  revert a'. induction a as [|x a IH]; intros [|x' a'] Ha Ha' E.
  - rewrite !sapp_nil_l in E. by injection E.
  - rewrite sapp_nil_l, sapp_cons in E. injection E as <- _.
    simpl in Ha'. by rewrite Ascii.eqb_refl in Ha'.
  - rewrite sapp_nil_l, sapp_cons in E. injection E as -> _.
    simpl in Ha. by rewrite Ascii.eqb_refl in Ha.
  - rewrite !sapp_cons in E. injection E as -> E.
    simpl in Ha, Ha'. apply andb_prop in Ha as [_ Ha]. apply andb_prop in Ha' as [_ Ha'].
    destruct (IH a' Ha Ha' E) as [-> ->]. done.
Qed.

Lemma app_length_inj a a' r r' :
  String.length a = String.length a' -> a ++ r = a' ++ r' -> a = a' /\ r = r'.
Proof.
  revert a'. induction a as [|x a IH]; intros [|x' a'] Hl E; try done.
  rewrite !sapp_cons in E. injection E as -> E. simpl in Hl.
  destruct (IH a' ltac:(lia) E) as [-> ->]. done.
Qed.

(** The numbers below [10 ^ w] fill the width [w] exactly. *)
Lemma d0_length_check w :
  forallb (fun n => (String.length (fmt.d0 w (Z.of_nat n)) =? w)%nat)
          (seq 0 (Z.to_nat (10 ^ Z.of_nat w))) = true ->
  forall z, 0 <= z < 10 ^ Z.of_nat w -> String.length (fmt.d0 w z) = w.
Proof.
  intros H z Hz. rewrite forallb_forall in H.
  specialize (H (Z.to_nat z)). rewrite Z2Nat.id in H by lia.
  apply Nat.eqb_eq, H, in_seq. lia.
Qed.

Lemma d0_2_length z : 0 <= z < 100 -> String.length (fmt.d0 2 z) = 2%nat.
Proof. apply (d0_length_check 2). vm_compute. reflexivity. Qed.

Lemma d0_3_length z : 0 <= z < 1000 -> String.length (fmt.d0 3 z) = 3%nat.
Proof. apply (d0_length_check 3). vm_compute. reflexivity. Qed.

Lemma d_no_byte c z :
  (strconv.is_digit c || Ascii.eqb c "-") = false -> no_byte c (fmt.d z) = true.
Proof.
  intros Hc. apply (all_bytes_no_byte (fun c => cls_digit c || Ascii.eqb c "-") c); [done|].
  apply d_bytes.
Qed.

Lemma d0_no_byte c w z :
  (strconv.is_digit c || Ascii.eqb c "-") = false -> no_byte c (fmt.d0 w z) = true.
Proof.
  intros Hc. apply (all_bytes_no_byte (fun c => cls_digit c || Ascii.eqb c "-") c); [done|].
  apply d0_bytes.
Qed.

End DigitsFacts.

Section TimeStamps.

Lemma quot_1000_centi a :
  0 <= a ->
  Z.quot a 1000 = (a / 10) / 100 /\ Z.quot (Z.rem a 1000) 10 = (a / 10) mod 100.
Proof. intros Ha. Z.to_euclidean_division_equations. lia. Qed.

Lemma hms_bounds T :
  0 <= T ->
  0 <= Z.quot T 3600 /\ 0 <= Z.quot (Z.rem T 3600) 60 < 60 /\ 0 <= Z.rem T 60 < 60.
Proof. intros HT. Z.to_euclidean_division_equations. lia. Qed.

Lemma hms_inj T T' :
  0 <= T -> 0 <= T' ->
  Z.quot T 3600 = Z.quot T' 3600 ->
  Z.quot (Z.rem T 3600) 60 = Z.quot (Z.rem T' 3600) 60 ->
  Z.rem T 60 = Z.rem T' 60 -> T = T'.
Proof. intros Ha Hb. Z.to_euclidean_division_equations. lia. Qed.

Lemma div_mod_100_inj q q' :
  0 <= q -> 0 <= q' -> q / 100 = q' / 100 -> q mod 100 = q' mod 100 -> q = q'.
Proof. intros Ha Hb. Z.to_euclidean_division_equations. lia. Qed.

Lemma srt_fields a :
  0 <= a ->
  Z.quot a 3600000 = Z.quot (a / 1000) 3600 /\
  Z.quot (Z.rem a 3600000) 60000 = Z.quot (Z.rem (a / 1000) 3600) 60 /\
  Z.quot (Z.rem a 60000) 1000 = Z.rem (a / 1000) 60 /\
  Z.rem a 1000 = a mod 1000.
Proof. intros Ha. Z.to_euclidean_division_equations. lia. Qed.

Lemma div_mod_1000_inj a b :
  0 <= a -> 0 <= b -> a / 1000 = b / 1000 -> a mod 1000 = b mod 1000 -> a = b.
Proof. intros Ha Hb. Z.to_euclidean_division_equations. lia. Qed.

Lemma d_length_1 h : 0 <= h < 10 -> String.length (fmt.d h) = 1%nat.
Proof.
  intros Hh.
  assert (Hr : h = 0 \/ h = 1 \/ h = 2 \/ h = 3 \/ h = 4 \/ h = 5 \/ h = 6 \/ h = 7 \/
               h = 8 \/ h = 9) by lia.
  destruct Hr as [->|[->|[->|[->|[->|[->|[->|[->|[->| ->]]]]]]]]]; reflexivity.
Qed.

Lemma ass_stamp_inj h m s c h' m' s' c' :
  0 <= h -> 0 <= m < 100 -> 0 <= s < 100 -> 0 <= c ->
  0 <= h' -> 0 <= m' < 100 -> 0 <= s' < 100 -> 0 <= c' ->
  fmt.d h ++ ":" ++ fmt.d0 2 m ++ ":" ++ fmt.d0 2 s ++ "." ++ fmt.d0 2 c
  = fmt.d h' ++ ":" ++ fmt.d0 2 m' ++ ":" ++ fmt.d0 2 s' ++ "." ++ fmt.d0 2 c' ->
  h = h' /\ m = m' /\ s = s' /\ c = c'.
Proof.
  intros Hh Hm Hs Hc Hh' Hm' Hs' Hc' E.
  apply app_byte_inj in E as [Eh E]; [|by apply d_no_byte..].
  apply app_length_inj in E as [Em E]; [|by rewrite !d0_2_length].
  rewrite !sapp_cons, !sapp_nil_l in E. injection E as E.
  apply app_length_inj in E as [Es E]; [|by rewrite !d0_2_length].
  injection E as Ec.
  apply d_inj in Eh; [|lia..]. apply d0_inj in Em; [|lia..].
  apply d0_inj in Es; [|lia..]. apply d0_inj in Ec; [|lia..]. done.
Qed.

Lemma srt_stamp_inj h m s c h' m' s' c' :
  0 <= h -> 0 <= m < 100 -> 0 <= s < 100 -> 0 <= c ->
  0 <= h' -> 0 <= m' < 100 -> 0 <= s' < 100 -> 0 <= c' ->
  fmt.d0 2 h ++ ":" ++ fmt.d0 2 m ++ ":" ++ fmt.d0 2 s ++ "," ++ fmt.d0 3 c
  = fmt.d0 2 h' ++ ":" ++ fmt.d0 2 m' ++ ":" ++ fmt.d0 2 s' ++ "," ++ fmt.d0 3 c' ->
  h = h' /\ m = m' /\ s = s' /\ c = c'.
Proof.
  intros Hh Hm Hs Hc Hh' Hm' Hs' Hc' E.
  apply app_byte_inj in E as [Eh E]; [|by apply d0_no_byte..].
  apply app_length_inj in E as [Em E]; [|by rewrite !d0_2_length].
  rewrite !sapp_cons, !sapp_nil_l in E. injection E as E.
  apply app_length_inj in E as [Es E]; [|by rewrite !d0_2_length].
  injection E as Ec.
  apply d0_inj in Eh; [|lia..]. apply d0_inj in Em; [|lia..].
  apply d0_inj in Es; [|lia..]. apply d0_inj in Ec; [|lia..]. done.
Qed.

Lemma ass_stamp_length h m s c :
  0 <= h < 10 -> 0 <= m < 100 -> 0 <= s < 100 -> 0 <= c < 100 ->
  String.length (fmt.d h ++ ":" ++ fmt.d0 2 m ++ ":" ++ fmt.d0 2 s ++ "." ++ fmt.d0 2 c)
  = 10%nat.
Proof.
  intros. rewrite !slength_app, !d0_2_length, d_length_1 by done. reflexivity.
Qed.

Lemma srt_stamp_length h m s c :
  0 <= h < 100 -> 0 <= m < 100 -> 0 <= s < 100 -> 0 <= c < 1000 ->
  String.length (fmt.d0 2 h ++ ":" ++ fmt.d0 2 m ++ ":" ++ fmt.d0 2 s ++ "," ++ fmt.d0 3 c)
  = 12%nat.
Proof.
  intros. rewrite !slength_app, !d0_2_length, d0_3_length by done. reflexivity.
Qed.

Lemma hms_bounds_100 T :
  0 <= T ->
  0 <= Z.quot T 3600 /\ 0 <= Z.quot (Z.rem T 3600) 60 < 100 /\ 0 <= Z.rem T 60 < 100.
Proof. intros HT. destruct (hms_bounds T HT) as (? & ? & ?). lia. Qed.

Lemma hours_bound T n : 0 <= T < 3600 * n -> 0 <= Z.quot T 3600 < n.
Proof. intros HT. Z.to_euclidean_division_equations. lia. Qed.

End TimeStamps.

Section TimeParserFacts.

(** Surrounding white space does not count. *)
Lemma parseTimeStringToMs_TrimSpace s :
  parseTimeStringToMs (TrimSpace s) = parseTimeStringToMs s.
Proof.
  unfold parseTimeStringToMs at 2.
  destruct (String.eqb_spec s "") as [->|Hs]; [reflexivity|].
  unfold parseTimeStringToMs.
  destruct (String.eqb_spec (TrimSpace s) "") as [E|E].
  - rewrite E. reflexivity.
  - by rewrite TrimSpace_idemp.
Qed.

Lemma ReplaceAll_commas_go s : forall cur,
  Join (strings.split_go "," 0 cur s) "." = strings.rev cur ++ commas_to_points s.
Proof.
  induction s as [|c s IH]; intros cur.
  - simpl. by rewrite sapp_nil_r.
  - cbn [strings.split_go commas_to_points].
    rewrite (HasPrefix_byte "," c s).
    destruct (Ascii.eqb c ",") eqn:E.
    + cbn [String.length Nat.sub].
      destruct (strings.split_go "," 0 "" s) as [|x l] eqn:Es.
      { by apply split_go_nonempty in Es. }
      rewrite Join_cons, <- Es, IH. done.
    + rewrite IH, rev_cons, sapp_assoc. done.
Qed.

Lemma ReplaceAll_commas s : strings.ReplaceAll s "," "." = commas_to_points s.
Proof. unfold strings.ReplaceAll, strings.Split. by rewrite ReplaceAll_commas_go. Qed.

Lemma commas_to_points_idemp s :
  commas_to_points (commas_to_points s) = commas_to_points s.
Proof.
  induction s as [|c s IH]; [done|]. cbn [commas_to_points]. rewrite IH. f_equal.
  destruct (Ascii.eqb c ",") eqn:E; [done | by rewrite E].
Qed.

Lemma commas_to_points_app a b :
  commas_to_points (a ++ b) = commas_to_points a ++ commas_to_points b.
Proof. induction a as [|c a IH]; [done|]. rewrite sapp_cons. simpl. by rewrite IH. Qed.

Lemma commas_to_points_rev s :
  commas_to_points (strings.rev s) = strings.rev (commas_to_points s).
Proof.
  induction s as [|c s IH]; [done|].
  cbn [commas_to_points]. rewrite !rev_cons, commas_to_points_app, IH. done.
Qed.

Lemma commas_to_points_length s : String.length (commas_to_points s) = String.length s.
Proof. induction s as [|c s IH]; [done|]. simpl. by rewrite IH. Qed.

Lemma commas_to_points_drop n s :
  commas_to_points (strings.drop n s) = strings.drop n (commas_to_points s).
Proof. revert s. induction n as [|n IH]; intros [|c s]; try done. simpl. apply IH. Qed.

Lemma commas_to_points_nil s : commas_to_points s = "" -> s = "".
Proof. by destruct s. Qed.

(** Neither a comma nor a point is a byte of a white-space rune. *)
Lemma space_rune_len_commas s :
  space_rune_len (commas_to_points s) = space_rune_len s.
Proof.
  destruct s as [|c1 [|c2 [|c3 s]]]; cbn [commas_to_points]; try reflexivity;
    repeat match goal with
    | |- context [Ascii.eqb ?c ","] => destruct (Ascii.eqb_spec c ",") as [->|]
    end; try reflexivity;
    cbn [space_rune_len]; destruct (ascii_space c1); try reflexivity;
    repeat match goal with
    | |- context [is_byte ?n ?c] => destruct (is_byte n c)
    | |- context [byte_in ?a ?b ?c] => destruct (byte_in a b c)
    end; reflexivity.
Qed.

Lemma space_rune_len_rev_commas r :
  space_rune_len_rev (commas_to_points r) = space_rune_len_rev r.
Proof.
  destruct r as [|c1 [|c2 [|c3 r]]]; cbn [commas_to_points]; try reflexivity;
    repeat match goal with
    | |- context [Ascii.eqb ?c ","] => destruct (Ascii.eqb_spec c ",") as [->|]
    end; try reflexivity;
    cbn [space_rune_len_rev]; destruct (ascii_space c1); try reflexivity;
    repeat match goal with
    | |- context [is_byte ?n ?c] => destruct (is_byte n c)
    | |- context [byte_in ?a ?b ?c] => destruct (byte_in a b c)
    end; reflexivity.
Qed.

Lemma drop_while_rune_commas len fuel :
  (forall s, len (commas_to_points s) = len s) ->
  forall s, strings.drop_while_rune len fuel (commas_to_points s)
            = commas_to_points (strings.drop_while_rune len fuel s).
Proof.
  intros Hlen. induction fuel as [|fuel IH]; intros s; [done|].
  cbn [strings.drop_while_rune]. rewrite Hlen.
  destruct (len s); [done|]. rewrite <- commas_to_points_drop. apply IH.
Qed.

Lemma TrimSpace_commas s : TrimSpace (commas_to_points s) = commas_to_points (TrimSpace s).
Proof.
  unfold TrimSpace, strings.TrimLeftSpace, strings.TrimRightSpace.
  rewrite commas_to_points_length.
  rewrite (drop_while_rune_commas _ _ space_rune_len_commas).
  rewrite <- commas_to_points_rev, commas_to_points_length.
  rewrite (drop_while_rune_commas _ _ space_rune_len_rev_commas).
  by rewrite commas_to_points_rev.
Qed.

End TimeParserFacts.

Section ArrowFacts.

Lemma HasPrefix_arrow_app c a b :
  HasPrefix (String c a) arrow = false ->
  HasPrefix (String c (a ++ arrow ++ b)) arrow = false.
Proof.
  unfold arrow. destruct a as [|d [|e a]]; intros H;
    rewrite ?sapp_cons, ?sapp_nil_l; cbn [HasPrefix] in *.
  - destruct (Ascii.eqb c "-"); reflexivity.
  - destruct (Ascii.eqb c "-"); [|done]. destruct (Ascii.eqb d "-"); reflexivity.
  - destruct (Ascii.eqb c "-"); [|done]. destruct (Ascii.eqb d "-"); [|done].
    destruct (Ascii.eqb e ">"); [|done]. by destruct a.
Qed.

Lemma split_go_arrow a b : forall cur,
  Contains a arrow = false ->
  strings.split_go arrow 0 cur (a ++ arrow ++ b)
  = (strings.rev cur ++ a) :: strings.split_go arrow 0 "" b.
Proof.
  induction a as [|c a IH]; intros cur H.
  - rewrite sapp_nil_l, sapp_nil_r. unfold arrow.
    rewrite !sapp_cons, sapp_nil_l. cbn. by rewrite HasPrefix_nil.
  - cbn [Contains] in H. apply orb_false_elim in H as [Hp Hc].
    rewrite sapp_cons. cbn [strings.split_go].
    rewrite (HasPrefix_arrow_app c a b Hp), IH by done.
    by rewrite rev_cons, sapp_assoc.
Qed.

Lemma Split_arrow a b :
  Contains a arrow = false -> Contains b arrow = false ->
  strings.Split (a ++ arrow ++ b) arrow = [a; b].
Proof.
  intros Ha Hb. unfold strings.Split.
  rewrite split_go_arrow by done. rewrite split_go_no_sep by done. done.
Qed.

End ArrowFacts.

Section SRTIndices.

Lemma parseSRT_loop_indices parts : forall out idx,
  map Index out = map Z.of_nat (seq 1 (length out)) ->
  idx = Z.of_nat (S (length out)) ->
  let out' := fst (fold_left
         (fun '(out, idx) p =>
            let lines := strings.Split p nl in
            if (length lines <? 2)%nat then (out, idx)
            else
              match find_timeline lines with
              | Some (timeLine, textLines) =>
                  let '(startMs, endMs) := parseSRTTimeLine timeLine in
                  let text := Join textLines nl in
                  ((out ++ [{| Index := idx; StartMs := startMs; EndMs := endMs;
                               BlockText := text |}])%list,
                   idx + 1)
              | None => (out, idx)
              end)
         parts (out, idx)) in
  map Index out' = map Z.of_nat (seq 1 (length out')).
Proof.
  induction parts as [|p parts IH]; intros out idx Hout Hidx; [done|].
  cbn [fold_left]. cbv zeta.
  destruct (length (strings.Split p nl) <? 2)%nat; [by apply IH|].
  destruct (find_timeline (strings.Split p nl)) as [[timeLine textLines]|]; [|by apply IH].
  destruct (parseSRTTimeLine timeLine) as [startMs endMs].
  apply IH.
  - rewrite map_app, length_app, Hout. simpl.
    rewrite Nat.add_1_r, seq_S, map_app. simpl. rewrite Hidx. done.
  - rewrite length_app. simpl. lia.
Qed.

End SRTIndices.

Section JSONFacts.

Lemma ParseInt_in_range s : Int64.in_range (fst (strconv.ParseInt s)) = true.
Proof.
  unfold strconv.ParseInt. destruct s as [|c s]; [reflexivity|].
  cbv zeta.
  destruct (if Ascii.eqb c "+" || Ascii.eqb c "-" then s else String c s) as [|c' body];
    [reflexivity|].
  destruct (strconv.read_uint 0 (String c' body)) as [un|] eqn:E; [|reflexivity].
  assert (Hun : 0 <= un).
  { assert (H : forall t a v, 0 <= a -> strconv.read_uint a t = Some v -> 0 <= v).
    { induction t as [|x t IH]; intros a v Ha Hv; simpl in Hv.
      - by injection Hv as <-.
      - destruct (strconv.is_digit x) eqn:Hx; [|done].
        refine (IH _ _ _ Hv).
        unfold strconv.is_digit, byte_in in Hx. unfold strconv.digit_val.
        apply andb_prop in Hx as [H1 _]. apply N.leb_le in H1. lia. }
    by apply (H _ 0 un ltac:(lia) E). }
  destruct (Ascii.eqb c "-"); cbn [negb andb].
  - destruct (Z.ltb_spec (2 ^ 63) un); [reflexivity|].
    cbn [fst]. unfold Int64.in_range, Int64.min_int, Int64.max_int.
    apply andb_true_intro. split; [apply Z.leb_le | apply Z.leb_le]; lia.
  - destruct (Z.leb_spec (2 ^ 63) un); [reflexivity|].
    cbn [fst]. unfold Int64.in_range, Int64.min_int, Int64.max_int.
    apply andb_true_intro. split; [apply Z.leb_le | apply Z.leb_le]; lia.
Qed.

Lemma asInt64_in_range v : Int64.in_range (asInt64 v) = true.
Proof.
  destruct v; try reflexivity; simpl.
  - apply to_int64_in_range.
  - apply ParseInt_in_range.
Qed.

Lemma in_range_bounds z : Int64.in_range z = true -> - 2 ^ 63 <= z <= 2 ^ 63 - 1.
Proof.
  unfold Int64.in_range, Int64.min_int, Int64.max_int. intros H.
  apply andb_prop in H as [H1 H2]. apply Z.leb_le in H1, H2. lia.
Qed.

Lemma add_nonzero s d :
  - 2 ^ 63 <= s <= 2 ^ 63 - 1 -> - 2 ^ 63 <= d <= 2 ^ 63 - 1 -> d <> 0 ->
  Int64.add s d <> s.
Proof.
  intros Hs Hd Hne. unfold Int64.add, Int64.wrap64.
  change (2 ^ 63) with 9223372036854775808 in *.
  change (2 ^ 64) with 18446744073709551616.
  Z.to_euclidean_division_equations. lia.
Qed.

End JSONFacts.

Section JSONEvents.

Variable Sprintf_v : json -> string.

Variable sort_Slice : list SRTBlock -> list SRTBlock.

Lemma event_block_ok i e b n :
  0 <= i < Z.of_nat n -> event_block Sprintf_v i e = Some b -> event_ok n b.
Proof.
  intros Hi H. destruct e as [| | | | |ev]; try done.
  cbn [event_block] in H. injection H as <-. unfold event_ok. cbn.
  split; [|split; [lia | apply TrimSpace_idemp]].
  set (startMs := match ev !! "tStartMs" with
                  | Some v => asInt64 v
                  | None => match ev !! "start" with Some v => asInt64 v | None => 0 end
                  end).
  set (durMs := match ev !! "dDurationMs" with
                | Some v => asInt64 v
                | None => match ev !! "duration" with Some v => asInt64 v | None => 0 end
                end).
  assert (Hs : - 2 ^ 63 <= startMs <= 2 ^ 63 - 1).
  { apply in_range_bounds. unfold startMs.
    destruct (ev !! "tStartMs"); [apply asInt64_in_range|].
    destruct (ev !! "start"); [apply asInt64_in_range | reflexivity]. }
  assert (Hd : - 2 ^ 63 <= durMs <= 2 ^ 63 - 1).
  { apply in_range_bounds. unfold durMs.
    destruct (ev !! "dDurationMs"); [apply asInt64_in_range|].
    destruct (ev !! "duration"); [apply asInt64_in_range | reflexivity]. }
  destruct (Z.eqb_spec durMs 0) as [E|E].
  - apply add_nonzero; [done | lia | lia].
  - by apply add_nonzero.
Qed.

Lemma events_loop_ok n events : forall i out,
  0 <= i -> i + Z.of_nat (length events) <= Z.of_nat n ->
  Forall (event_ok n) out ->
  (length out <= Z.to_nat i)%nat ->
  Forall (event_ok n) (events_loop Sprintf_v i events out) /\
  (length (events_loop Sprintf_v i events out) <= Z.to_nat i + length events)%nat.
Proof.
  induction events as [|e events IH]; intros i out Hi Hn Hout Hlen.
  - simpl. split; [done | lia].
  - cbn [events_loop]. cbn [length] in Hn.
    destruct (event_block Sprintf_v i e) as [b|] eqn:E.
    + destruct (IH (i + 1) (out ++ [b])%list) as [H1 H2]; try lia.
      * apply Forall_app. split; [done|]. constructor; [|done].
        apply (event_block_ok i e); [lia | done].
      * rewrite length_app. simpl. lia.
      * split; [done|]. cbn [length]. lia.
    + destruct (IH (i + 1) out) as [H1 H2]; try lia; try done.
      split; [done|]. cbn [length]. lia.
Qed.

End JSONEvents.

Section LineFacts.

Lemma Forall_without_final_empty {P : string -> Prop} l :
  Forall P l -> Forall P (without_final_empty l).
Proof.
  induction 1 as [|p l Hp Hl IH]; [constructor|].
  destruct l as [|q l].
  - simpl. destruct (String.eqb p ""); by repeat constructor.
  - change (without_final_empty (p :: q :: l)) with (p :: without_final_empty (q :: l)).
    by constructor.
Qed.

Lemma safeTrim_lines text :
  let l := map TrimSpace (strings.Split text nl) in
  l <> [] /\ Forall (fun t => no_byte nl_byte t = true) l.
Proof.
  cbv zeta. split.
  - unfold strings.Split. pose proof (split_go_nonempty nl text 0%nat "") as H.
    destruct (strings.split_go nl 0 "" text); [done | discriminate].
  - destruct (Split_fields nl_byte text) as [Hf _].
    rewrite Forall_forall in Hf. rewrite Forall_forall. intros t Ht.
    apply list_elem_of_In, in_map_iff in Ht as (ln & <- & Hln).
    apply TrimSpace_no_byte, Hf. by apply list_elem_of_In.
Qed.

Lemma HasSuffix_cr_app x : HasSuffix (x ++ cr) cr = true.
Proof.
  unfold HasSuffix. rewrite rev_app. unfold cr.
  change (strings.rev (String "013" "")) with (String "013" "").
  rewrite sapp_cons, sapp_nil_l. cbn [HasPrefix]. rewrite Ascii.eqb_refl.
  apply HasPrefix_nil.
Qed.

Lemma HasSuffix_cr_no_byte x : no_byte cr_byte x = true -> HasSuffix x cr = false.
Proof.
  intros H. unfold HasSuffix, cr.
  change (strings.rev (String "013" "")) with (String "013" "").
  rewrite <- no_byte_rev in H. destruct (strings.rev x) as [|c r]; [done|].
  cbn [HasPrefix]. simpl in H. apply andb_prop in H as [H _].
  apply negb_true_iff in H. unfold cr_byte in H. by rewrite H.
Qed.

Lemma take_app_exact' a b n : n = String.length a -> strings.take n (a ++ b) = a.
Proof.
  intros ->. induction a as [|c a IH]; [by destruct b|].
  rewrite sapp_cons. simpl. by rewrite IH.
Qed.

End LineFacts.

Section CRLF.

Lemma Join_crlf l : Join l (cr ++ nl) = Join (with_cr l) nl.
Proof.
  induction l as [|x l IH]; [done|].
  destruct l as [|y l]; [done|].
  rewrite Join_cons. change (with_cr (x :: y :: l)) with ((x ++ cr) :: with_cr (y :: l)).
  destruct (with_cr (y :: l)) as [|z l'] eqn:E.
  { destruct l; discriminate. }
  rewrite Join_cons, <- IH, !sapp_assoc. done.
Qed.

Lemma with_cr_no_nl l :
  Forall (fun x => bare_line x = true) l ->
  Forall (fun x => no_byte nl_byte x = true) (with_cr l).
Proof.
  induction 1 as [|x l Hx Hl IH]; [constructor|].
  unfold bare_line in Hx. apply andb_prop in Hx as [Hx _]. apply andb_prop in Hx as [Hx _].
  destruct l as [|y l]; [by repeat constructor|].
  change (with_cr (x :: y :: l)) with ((x ++ cr) :: with_cr (y :: l)).
  constructor; [|done]. by rewrite no_byte_app, Hx.
Qed.

Lemma bare_line_fits x : bare_line x = true ->
  fits_token x = true /\ fits_token (x ++ cr) = true /\
  dropCR x = x /\ dropCR (x ++ cr) = x /\ no_byte nl_byte x = true.
Proof.
  unfold bare_line, fits_token. intros H.
  apply andb_prop in H as [H Hlen]. apply andb_prop in H as [Hnl Hcr].
  apply N.ltb_lt in Hlen.
  split; [apply N.ltb_lt; lia|]. split.
  { apply N.ltb_lt. rewrite slength_app. simpl. lia. }
  unfold dropCR. rewrite HasSuffix_cr_app, (HasSuffix_cr_no_byte x Hcr).
  split; [done|]. split; [|done].
  apply take_app_exact'. rewrite slength_app. simpl. lia.
Qed.

Lemma scan_tokens_with_cr l :
  Forall (fun x => bare_line x = true) l -> scan_tokens (with_cr l) = scan_tokens l.
Proof.
  induction 1 as [|x l Hx Hl IH]; [done|].
  destruct (bare_line_fits x Hx) as (F1 & F2 & D1 & D2 & _).
  destruct l as [|y l]; [done|].
  change (with_cr (x :: y :: l)) with ((x ++ cr) :: with_cr (y :: l)).
  change (scan_tokens (x :: y :: l))
    with (if fits_token x then dropCR x :: scan_tokens (y :: l) else []).
  rewrite F1, D1, <- IH.
  destruct (with_cr (y :: l)) as [|z l'] eqn:E.
  { destruct l; discriminate. }
  change (scan_tokens ((x ++ cr) :: z :: l'))
    with (if fits_token (x ++ cr) then dropCR (x ++ cr) :: scan_tokens (z :: l') else []).
  by rewrite F2, D2.
Qed.

Lemma with_cr_nonempty l : l <> [] -> with_cr l <> [].
Proof. destruct l as [|x [|y l]]; done. Qed.

End CRLF.

Section Collapse.

Lemma span (p : ascii -> bool) s :
  exists run rest, s = run ++ rest /\ all_bytes p run = true /\ stops p rest = true.
Proof.
  induction s as [|c s IH].
  - by exists "", "".
  - destruct (p c) eqn:E.
    + destruct IH as (run & rest & -> & Hr & Hs).
      exists (String c run), rest. repeat split; [|done]. simpl. by rewrite E.
    + exists "", (String c s). repeat split. simpl. by rewrite E.
Qed.

Lemma match_here_reSpaces prev run rest :
  run <> "" -> all_bytes cls_space run = true -> stops cls_space rest = true ->
  match_here reSpaces prev (run ++ rest) = Some (String.length run, []).
Proof.
  intros Hne Hall Hs. unfold match_here, reSpaces.
  change (fun (_ : option ascii) (s' : string) (caps : captures) => Some (s', caps))
    with accept.
  rewrite (run_Rep_max cls_space 1 accept prev run rest [] (rest, [])); try done.
  - f_equal. f_equal. rewrite slength_app. lia.
  - destruct run; [done | simpl; lia].
Qed.

Lemma match_here_reSpaces_none prev c s :
  cls_space c = false -> match_here reSpaces prev (String c s) = None.
Proof. intros H. unfold match_here, reSpaces. cbn [run rep_greedy]. by rewrite H. Qed.

Lemma collapse_go_run run rest :
  all_bytes cls_space run = true ->
  collapse_go true (run ++ rest) = collapse_go true rest.
Proof.
  induction run as [|c run IH]; [done|]. cbn [all_bytes]. intros H.
  apply andb_prop in H as [Hc Hr]. rewrite sapp_cons. cbn [collapse_go]. rewrite Hc.
  by apply IH.
Qed.

Lemma collapse_go_stops b rest :
  stops cls_space rest = true -> collapse_go b rest = collapse_go false rest.
Proof.
  destruct rest as [|c rest]; [done|]. simpl. intros H.
  apply negb_true_iff in H. by rewrite H.
Qed.

Lemma scan_reSpaces s : forall skip prev cur,
  (skip = 0%nat \/
   (all_bytes cls_space (strings.take skip s) = true /\
    stops cls_space (strings.drop skip s) = true)) ->
  blanked (scan reSpaces skip prev cur s)
  = strings.rev cur ++ collapse_go false (strings.drop skip s).
Proof.
  induction s as [|c s IH]; intros skip prev cur H.
  - destruct skip; unfold blanked; simpl; by rewrite sapp_nil_r.
  - cbn [scan]. destruct skip as [|k].
    + cbn [strings.drop collapse_go].
      destruct (cls_space c) eqn:Hc.
      * destruct (span cls_space s) as (run & rest & -> & Hrun & Hrest).
        change (String c (run ++ rest)) with (String c run ++ rest).
        rewrite (match_here_reSpaces prev (String c run) rest); [|done| |done].
        2:{ simpl. by rewrite Hc. }
        cbn [String.length]. rewrite sapp_cons.
        specialize (IH (String.length run) (Some c) "").
        destruct (scan reSpaces (String.length run) (Some c) "" (run ++ rest)) as [l t] eqn:E.
        unfold blanked in *. cbn [fst snd map concat_strings] in *.
        rewrite !sapp_assoc. f_equal. rewrite sapp_cons, sapp_nil_l. f_equal.
        rewrite IH.
        -- rewrite collapse_go_run by done.
           assert (Hd : strings.drop (String.length run) (run ++ rest) = rest).
           { clear. induction run as [|x run IHr]; [by destruct rest|].
             rewrite sapp_cons. simpl. exact IHr. }
           rewrite Hd. symmetry. by apply collapse_go_stops.
        -- right. rewrite take_app_exact.
           assert (Hd : strings.drop (String.length run) (run ++ rest) = rest).
           { clear. induction run as [|x run IHr]; [by destruct rest|].
             rewrite sapp_cons. simpl. exact IHr. }
           by rewrite Hd.
      * rewrite match_here_reSpaces_none by done.
        rewrite IH by (by left). cbn [strings.drop].
        by rewrite rev_cons, sapp_assoc.
    + destruct H as [H|[Ht Hd]]; [done|].
      cbn [strings.take all_bytes strings.drop] in *.
      apply andb_prop in Ht as [_ Ht].
      apply IH. destruct k; [by left | by right].
Qed.

Lemma ReplaceAllString_reSpaces s :
  ReplaceAllString reSpaces s " " = collapse_go false s.
Proof.
  pose proof (scan_reSpaces s 0 None "" (or_introl eq_refl)) as H.
  unfold ReplaceAllString, ReplaceAllStringFunc, FindAll.
  unfold blanked in H. destruct (scan reSpaces 0 None "" s) as [l t].
  cbn [fst snd strings.drop] in H. change (strings.rev "") with "" in H.
  rewrite sapp_nil_l in H. rewrite <- H. reflexivity.
Qed.

Lemma single_blanks_collapse s : forall b, single_blanks b (collapse_go b s) = true.
Proof.
  induction s as [|c s IH]; intros b; [done|].
  cbn [collapse_go]. destruct (cls_space c) eqn:Hc.
  - destruct b; [apply IH|]. cbn [single_blanks].
    change (cls_space " ") with true. cbn iota. rewrite IH. done.
  - cbn [single_blanks]. rewrite Hc. apply IH.
Qed.

Lemma collapse_single_blanks s : forall b,
  single_blanks b s = true -> collapse_go b s = s.
Proof.
  induction s as [|c s IH]; intros b H; [done|].
  cbn [single_blanks collapse_go] in *. destruct (cls_space c) eqn:Hc.
  - apply andb_prop in H as [H Hs]. apply andb_prop in H as [Hsp Hb].
    apply negb_true_iff in Hb. subst b. apply Ascii.eqb_eq in Hsp. subst c.
    by rewrite (IH true Hs).
  - by rewrite (IH false H).
Qed.

Lemma single_blanks_weaken b s : single_blanks b s = true -> single_blanks false s = true.
Proof.
  destruct s as [|c s]; [done|]. cbn [single_blanks].
  destruct (cls_space c); [|done]. intros H.
  apply andb_prop in H as [H Hs]. apply andb_prop in H as [Hsp _].
  by rewrite Hsp, Hs.
Qed.

Lemma single_blanks_suffix p s : forall b,
  single_blanks b (p ++ s) = true -> single_blanks false s = true.
Proof.
  induction p as [|c p IH]; intros b H.
  - by apply (single_blanks_weaken b).
  - rewrite sapp_cons in H. cbn [single_blanks] in H.
    destruct (cls_space c).
    + apply andb_prop in H as [_ H]. by apply (IH true).
    + by apply (IH false).
Qed.

Lemma single_blanks_prefix s q : forall b,
  single_blanks b (s ++ q) = true -> single_blanks b s = true.
Proof.
  induction s as [|c s IH]; intros b H; [done|].
  rewrite sapp_cons in H. cbn [single_blanks] in *.
  destruct (cls_space c).
  - apply andb_prop in H as [H1 H]. rewrite H1. by apply (IH true).
  - by apply (IH false).
Qed.

End Collapse.

Section XmlTags.

Lemma none_of_gt u : all_bytes (cls_none_of ">") u = no_byte gt_byte u.
Proof.
  induction u as [|c u IH]; [done|]. simpl. rewrite IH. f_equal.
  unfold cls_none_of, cls_one_of. simpl. by rewrite orb_false_r.
Qed.

Lemma matches_reXmlTag prev s rest :
  matches reXmlTag prev s rest <->
  exists u, s = String "<" (u ++ ">") /\ u <> "" /\ no_byte gt_byte u = true.
Proof.
  unfold reXmlTag. cbn [seq_re]. split.
  - intros M. inversion M as [| |r1 r2 p0 s1 s2 rest0 M1 M2| | | | | | | |]; subst.
    inversion M1 as [|p c p0 rest0 Hc| | | | | | | | |]; subst.
    inversion M2 as [| |r1 r2 p0 s3 s4 rest0 M3 M4| | | | | | | |]; subst.
    inversion M3 as [| | | | |p min g p0 s0 rest0 Hall Hmin| | | | |]; subst.
    inversion M4 as [|p c' p0 rest0 Hc'| | | | | | | | |]; subst.
    unfold lit in *. apply Ascii.eqb_eq in Hc, Hc'. subst c c'.
    exists s3. rewrite sapp_cons, sapp_nil_l. split; [done|].
    split; [destruct s3; [simpl in Hmin; lia | done] | by rewrite <- none_of_gt].
  - intros (u & -> & Hne & Hu).
    change (String "<" (u ++ ">")) with (String "<" "" ++ (u ++ ">")).
    constructor; [constructor; apply Ascii.eqb_refl|].
    constructor.
    + constructor; [by rewrite none_of_gt | destruct u; [done | simpl; lia]].
    + constructor. apply Ascii.eqb_refl.
Qed.

(** The pattern matches where the text starts with a tag, and the match
    is the tag. *)
Lemma match_here_tag prev u rest :
  u <> "" -> no_byte gt_byte u = true ->
  exists caps,
    match_here reXmlTag prev (String "<" (u ++ String ">" rest))
    = Some (S (S (String.length u)), caps).
Proof.
  intros Hne Hu. unfold match_here.
  assert (Hsome : is_Some (run reXmlTag accept prev (String "<" (u ++ ">") ++ rest) [])).
  { apply run_complete; [|done]. apply matches_reXmlTag. by exists u. }
  destruct Hsome as [[rest' caps] E].
  destruct (run_sound _ _ _ _ _ _ E) as (s1 & s2 & caps' & Hs & M & Hk).
  apply matches_reXmlTag in M as (u' & -> & Hne' & Hu').
  unfold accept in Hk. injection Hk as <- _.
  rewrite !sapp_cons, !sapp_assoc in Hs. injection Hs as Hs.
  rewrite !sapp_cons, !sapp_nil_l in Hs.
  apply app_byte_inj in Hs as [-> ->]; [|done..].
  rewrite sapp_cons, sapp_assoc, sapp_cons, sapp_nil_l in E.
  unfold accept in E. rewrite E. exists caps. f_equal. f_equal.
  cbn [String.length]. rewrite !slength_app. cbn [String.length]. lia.
Qed.

Lemma match_here_no_tag prev s : ~ tag_at s -> match_here reXmlTag prev s = None.
Proof.
  intros Hn. unfold match_here.
  destruct (run reXmlTag _ prev s []) as [[rest caps]|] eqn:E; [|done].
  destruct (run_sound _ _ _ _ _ _ E) as (s1 & s2 & caps' & -> & M & _).
  apply matches_reXmlTag in M as (u & -> & Hne & Hu).
  exfalso. apply Hn. exists u, s2. by rewrite sapp_cons, sapp_assoc.
Qed.

Lemma tag_at_dec s : tag_at s \/ ~ tag_at s.
Proof.
  destruct s as [|c t]; [right; by intros (u & rest & H & _)|].
  destruct (Ascii.eqb_spec c "<") as [->|Hc].
  2:{ right. intros (u & rest & H & _). by injection H. }
  destruct (span (cls_none_of ">") t) as (run & rest & -> & Hrun & Hstop).
  rewrite none_of_gt in Hrun.
  destruct run as [|x run].
  - right. intros (u & rest' & H & Hne & Hu). injection H as H.
    rewrite sapp_nil_l in H. destruct u as [|y u]; [done|].
    rewrite sapp_cons in H. subst rest. simpl in Hstop, Hu.
    apply andb_prop in Hu as [Hy _]. unfold cls_none_of, cls_one_of in Hstop. simpl in Hstop.
    rewrite orb_false_r, negb_involutive in Hstop. unfold gt_byte in Hy.
    by rewrite Hstop in Hy.
  - destruct rest as [|y rest].
    + right. intros (u & rest' & H & Hne & Hu). injection H as H.
      assert (Hg : no_byte gt_byte (u ++ String ">" rest') = true).
      { rewrite <- H, sapp_nil_r. done. }
      rewrite no_byte_app in Hg. apply andb_prop in Hg as [_ Hg]. done.
    + simpl in Hstop. unfold cls_none_of, cls_one_of in Hstop. simpl in Hstop.
      rewrite orb_false_r, negb_involutive in Hstop. apply Ascii.eqb_eq in Hstop. subst y.
      left. exists (String x run), rest. done.
Qed.

Lemma drop_tag u c rest : strings.drop (S (String.length u)) (u ++ String c rest) = rest.
Proof. induction u as [|x u IH]; [done|]. rewrite sapp_cons. exact IH. Qed.

Lemma scan_skip_drop r s : forall n prev cur,
  (n <= String.length s)%nat ->
  exists prev', scan r n prev cur s = scan r 0 prev' cur (strings.drop n s).
Proof.
  induction s as [|c s IH]; intros n prev cur Hn.
  - simpl in Hn. assert (n = 0%nat) as -> by lia. by exists prev.
  - destruct n as [|n]; [by exists prev|].
    cbn [scan strings.drop]. apply IH. simpl in Hn. lia.
Qed.

Lemma strip_step n : forall s prev cur,
  (String.length s <= n)%nat ->
  kept (scan reXmlTag 0 prev cur s) = strings.rev cur ++ kept (scan reXmlTag 0 None "" s).
Proof.
  induction n as [|n IH]; intros s prev cur Hlen.
  - destruct s; [|simpl in Hlen; lia]. unfold kept. simpl. by rewrite sapp_nil_r.
  - destruct s as [|c s]; [unfold kept; simpl; by rewrite sapp_nil_r|].
    simpl in Hlen.
    destruct (tag_at_dec (String c s)) as [(u & rest & E & Hne & Hu)|Hn].
    + injection E as -> ->. cbn [scan].
      destruct (match_here_tag prev u rest Hne Hu) as [caps1 E1].
      destruct (match_here_tag None u rest Hne Hu) as [caps2 E2].
      rewrite E1, E2.
      destruct (scan_skip_drop reXmlTag (u ++ String ">" rest) (S (String.length u))
                  (Some "<"%char) "") as [prev' Es].
      { rewrite slength_app. simpl. lia. }
      rewrite Es.
      rewrite drop_tag.
      destruct (scan reXmlTag 0 prev' "" rest) as [l t] eqn:El.
      unfold kept. cbn [fst snd map concat_strings].
      rewrite !sapp_nil_r, !sapp_assoc. reflexivity.
    + cbn [scan]. rewrite !match_here_no_tag by done.
      rewrite (IH s (Some c) (String c cur)) by lia.
      rewrite (IH s (Some c) (String c "")) by lia.
      rewrite rev_cons, sapp_assoc. done.
Qed.

Lemma strip_kept s : stripTagsButPreserveNewlines s = kept (scan reXmlTag 0 None "" s).
Proof.
  unfold stripTagsButPreserveNewlines, ReplaceAllString, ReplaceAllStringFunc, FindAll, kept.
  destruct (scan reXmlTag 0 None "" s) as [l t]. reflexivity.
Qed.

(** The two equations of the stripping. *)
Lemma strip_tag u rest :
  u <> "" -> no_byte gt_byte u = true ->
  stripTagsButPreserveNewlines (String "<" (u ++ String ">" rest))
  = stripTagsButPreserveNewlines rest.
Proof.
  intros Hne Hu. rewrite !strip_kept. cbn [scan].
  destruct (match_here_tag None u rest Hne Hu) as [caps E]. rewrite E.
  destruct (scan_skip_drop reXmlTag (u ++ String ">" rest) (S (String.length u))
              (Some "<"%char) "") as [prev' Es].
  { rewrite slength_app. simpl. lia. }
  rewrite Es.
  rewrite drop_tag.
  pose proof (strip_step (String.length rest) rest prev' "" (le_n _)) as H.
  destruct (scan reXmlTag 0 prev' "" rest) as [l t] eqn:El.
  unfold kept in *. cbn [fst snd map concat_strings] in *.
  change (strings.rev "") with "" in *.
  repeat first [rewrite sapp_assoc | rewrite sapp_nil_l].
  rewrite sapp_nil_l in H. exact H.
Qed.

Lemma strip_byte c s :
  ~ tag_at (String c s) ->
  stripTagsButPreserveNewlines (String c s) = String c (stripTagsButPreserveNewlines s).
Proof.
  intros Hn. rewrite !strip_kept. cbn [scan]. rewrite match_here_no_tag by done.
  by rewrite (strip_step (String.length s) s (Some c) (String c "") (le_n _)).
Qed.

Lemma strip_no_gt s :
  no_byte gt_byte s = true -> no_byte gt_byte (stripTagsButPreserveNewlines s) = true.
Proof. intros H. by apply ReplaceAllStringFunc_keeps_no_byte. Qed.

(** No suffix of the stripped text starts with a tag. *)
Lemma strip_no_tag n : forall s a w,
  (String.length s <= n)%nat ->
  stripTagsButPreserveNewlines s = a ++ w -> ~ tag_at w.
Proof.
  induction n as [|n IH]; intros s a w Hlen E.
  - destruct s; [|simpl in Hlen; lia].
    change (stripTagsButPreserveNewlines "") with "" in E.
    destruct a; [|done]. rewrite sapp_nil_l in E. subst w.
    by intros (u & rest & H & _).
  - destruct s as [|c s].
    { change (stripTagsButPreserveNewlines "") with "" in E.
      destruct a; [|done]. rewrite sapp_nil_l in E. subst w.
      by intros (u & rest & H & _). }
    simpl in Hlen.
    destruct (tag_at_dec (String c s)) as [(u & rest & E0 & Hne & Hu)|Hn].
    + injection E0 as -> ->. rewrite strip_tag in E by done.
      apply (IH rest a w); [|done]. rewrite slength_app in Hlen. simpl in Hlen. lia.
    + rewrite strip_byte in E by done.
      destruct a as [|x a].
      * rewrite sapp_nil_l in E. subst w.
        intros (u & rest & H & Hne & Hu). injection H as -> H.
        destruct s as [|d s].
        { change (stripTagsButPreserveNewlines "") with "" in H. by destruct u. }
        destruct (Ascii.eqb_spec d ">") as [->|Hd].
        -- rewrite strip_byte in H.
           2:{ intros (u' & rest' & H' & _). by injection H'. }
           destruct u as [|y u]; [done|]. rewrite sapp_cons in H. injection H as <- _.
           simpl in Hu. done.
        -- destruct (no_byte gt_byte (String d s)) eqn:Hg.
           ++ apply strip_no_gt in Hg. rewrite H, no_byte_app in Hg.
              apply andb_prop in Hg as [_ Hg]. simpl in Hg. done.
           ++ apply Hn.
              destruct (span (cls_none_of ">") (String d s)) as (run & rest' & Er & Hrun & Hstop).
              rewrite none_of_gt in Hrun.
              destruct rest' as [|y rest'].
              { rewrite sapp_nil_r in Er. rewrite Er, Hrun in Hg. done. }
              simpl in Hstop. unfold cls_none_of, cls_one_of in Hstop. simpl in Hstop.
              rewrite orb_false_r, negb_involutive in Hstop.
              apply Ascii.eqb_eq in Hstop. subst y.
              exists run, rest'. rewrite Er. split; [done|]. split; [|done].
              destruct run; [|done]. rewrite sapp_nil_l in Er. injection Er as -> _. done.
      * rewrite sapp_cons in E. injection E as _ E.
        apply (IH s a w); [lia | done].
Qed.

Lemma find_from_none_tag s : forall prev before,
  (forall a w, s = a ++ w -> ~ tag_at w) ->
  find_from reXmlTag prev before s = None.
Proof.
  induction s as [|c s IH]; intros prev before H.
  - cbn [find_from]. rewrite match_here_no_tag; [done|]. by apply (H "" "").
  - cbn [find_from]. rewrite match_here_no_tag by (by apply (H "" (String c s))).
    apply IH. intros a w ->. by apply (H (String c a) w).
Qed.

Lemma scan_none_tag s : forall prev cur,
  (forall a w, s = a ++ w -> ~ tag_at w) ->
  scan reXmlTag 0 prev cur s = ([], strings.rev cur ++ s).
Proof.
  induction s as [|c s IH]; intros prev cur H.
  - simpl. by rewrite sapp_nil_r.
  - cbn [scan]. rewrite match_here_no_tag by (by apply (H "" (String c s))).
    rewrite IH; [by rewrite rev_cons, sapp_assoc|].
    intros a w ->. by apply (H (String c a) w).
Qed.

End XmlTags.

Section LineStarts.

Lemma run_Bol_ok (k : cont) prev s caps :
  at_line_start prev = true -> run (Bol true) k prev s caps = k prev s caps.
Proof. intros H. cbn [run]. destruct prev as [c|]; [|done]. simpl in H. by rewrite H. Qed.

Lemma matches_str_inv w : forall prev s rest,
  w <> "" -> matches (str w) prev s rest -> s = w.
Proof.
  induction w as [|c w IH]; intros prev s rest Hne M; [done|].
  destruct w as [|d w].
  - cbn [str] in M. inversion M as [|p x p0 r0 Hx| | | | | | | | |]; subst.
    unfold lit in *. apply Ascii.eqb_eq in Hx. by subst.
  - change (str (String c (String d w))) with (Cat (lit c) (str (String d w))) in M.
    inversion M as [| |r1 r2 p0 s1 s2 r0 M1 M2| | | | | | | |]; subst.
    inversion M1 as [|p x p0 r0 Hx| | | | | | | | |]; subst.
    apply Ascii.eqb_eq in Hx. subst x.
    apply IH in M2; [|done]. subst s2. by rewrite sapp_cons, sapp_nil_l.
Qed.

Lemma match_here_word w r prev s :
  w <> "" -> HasPrefix s w = false ->
  match_here (Cat (Bol true) (Cat (str w) r)) prev s = None.
Proof.
  intros Hne Hp. unfold match_here.
  destruct (run _ _ prev s []) as [[rest caps]|] eqn:E; [|done].
  destruct (run_sound _ _ _ _ _ _ E) as (s1 & s2 & caps' & -> & M & _).
  inversion M as [| |r1 r2 p0 t1 t2 r0 M1 M2| | | | | | | |]; subst.
  inversion M1; subst.
  inversion M2 as [| |r1 r2 p0 u1 u2 r0 M3 M4| | | | | | | |]; subst.
  apply matches_str_inv in M3; [|done]. subst u1.
  rewrite sapp_nil_l, sapp_assoc, HasPrefix_app in Hp. done.
Qed.

Lemma match_here_not_bol r prev s :
  at_line_start prev = false -> match_here (Cat (Bol true) r) prev s = None.
Proof.
  intros H. unfold match_here. cbn [run]. destruct prev as [c|]; [|done].
  simpl in H. by rewrite H.
Qed.

Lemma match_here_quiet w r prev x s :
  w <> "" -> negb (at_line_start prev && HasPrefix (String x s) w) = true ->
  match_here (Cat (Bol true) (Cat (str w) r)) prev (String x s) = None.
Proof.
  intros Hne H. apply negb_true_iff, andb_false_iff in H as [H|H].
  - by apply match_here_not_bol.
  - by apply match_here_word.
Qed.

Lemma HasPrefix_app_l a s w : HasPrefix a w = false -> (String.length w <= String.length a)%nat ->
  HasPrefix (a ++ s) w = false.
Proof.
  revert w. induction a as [|x a IH]; intros [|c w] H Hl; try done.
  - simpl in Hl. lia.
  - rewrite sapp_cons. cbn [HasPrefix] in *. destruct (Ascii.eqb x c); [|done].
    apply IH; [done | simpl in Hl; lia].
Qed.

(** Nothing is found in a text none of whose lines starts with the
    word the pattern starts with. *)
Lemma find_from_quiet w r a : forall s prev before,
  w <> "" ->
  quiet_prefix w (at_line_start prev) a s = true ->
  find_from (Cat (Bol true) (Cat (str w) r)) prev before (a ++ s)
  = find_from (Cat (Bol true) (Cat (str w) r)) (last_byte prev a) (strings.rev_acc a before) s.
Proof.
  induction a as [|x a IH]; intros s prev before Hne Hq; [done|].
  cbn [quiet_prefix] in Hq. apply andb_prop in Hq as [Hx Hq].
  rewrite sapp_cons in *. cbn [find_from].
  rewrite (match_here_quiet w r prev x _ Hne Hx), last_byte_cons.
  apply (IH s (Some x) (String x before) Hne Hq).
Qed.

Lemma scan_quiet_lines w r a : forall s prev cur,
  w <> "" ->
  quiet_prefix w (at_line_start prev) a s = true ->
  scan (Cat (Bol true) (Cat (str w) r)) 0 prev cur (a ++ s)
  = scan (Cat (Bol true) (Cat (str w) r)) 0 (last_byte prev a) (strings.rev_acc a cur) s.
Proof.
  induction a as [|x a IH]; intros s prev cur Hne Hq; [done|].
  cbn [quiet_prefix] in Hq. apply andb_prop in Hq as [Hx Hq].
  rewrite sapp_cons in *. cbn [scan].
  rewrite (match_here_quiet w r prev x _ Hne Hx), last_byte_cons.
  apply (IH s (Some x) (String x cur) Hne Hq).
Qed.

Lemma quiet_prefix_nil w a : forall b,
  quiet_prefix w b a "" = no_line_starts_with w b a.
Proof.
  induction a as [|x a IH]; intros b; [done|].
  cbn [quiet_prefix no_line_starts_with]. by rewrite sapp_nil_r, IH.
Qed.

Lemma find_from_quiet_none w r a prev before :
  w <> "" ->
  no_line_starts_with w (at_line_start prev) a = true ->
  find_from (Cat (Bol true) (Cat (str w) r)) prev before a = None.
Proof.
  intros Hne Hq. rewrite <- (sapp_nil_r a).
  rewrite find_from_quiet by (by rewrite ?quiet_prefix_nil).
  cbn [find_from]. rewrite match_here_word; [done | done | by destruct w].
Qed.

Lemma scan_quiet_lines_end w r a prev cur :
  w <> "" ->
  no_line_starts_with w (at_line_start prev) a = true ->
  scan (Cat (Bol true) (Cat (str w) r)) 0 prev cur a = ([], strings.rev cur ++ a).
Proof.
  intros Hne Hq.
  rewrite <- (sapp_nil_r a) at 1. rewrite scan_quiet_lines by (by rewrite ?quiet_prefix_nil).
  cbn [scan]. by rewrite rev_acc_spec, rev_app, rev_involutive.
Qed.

(** A proper beginning of the word cannot end a text that ends with a
    line feed. *)
Lemma HasPrefix_app_cases a : forall s w,
  HasPrefix (a ++ s) w = true ->
  HasPrefix a w = true \/ no_byte nl_byte a = true \/ no_byte nl_byte w = false.
Proof.
  induction a as [|x a IH]; intros s w H.
  - right. by left.
  - destruct w as [|c w]; [by left|].
    rewrite sapp_cons in H. cbn [HasPrefix] in *.
    destruct (Ascii.eqb_spec x c) as [->|]; [|done].
    destruct (IH s w H) as [H1|[H1|H1]]; [by left | |].
    + cbn [no_byte]. destruct (Ascii.eqb c nl_byte) eqn:E;
        [right; right; done | right; left; by rewrite H1].
    + right. right. cbn [no_byte]. rewrite H1. apply andb_false_r.
Qed.

Lemma quiet_prefix_lines w a s : forall b,
  no_byte nl_byte w = true ->
  no_line_starts_with w b a = true ->
  (a = "" \/ HasSuffix a nl = true) ->
  quiet_prefix w b a s = true.
Proof.
  intros b Hw. revert b. induction a as [|x a IH]; intros b Hq Hend; [done|].
  cbn [quiet_prefix no_line_starts_with] in *. apply andb_prop in Hq as [Hx Hq].
  assert (Hend' : a = "" \/ HasSuffix a nl = true).
  { destruct a as [|y a]; [by left|]. right.
    destruct Hend as [|Hend]; [done|]. unfold HasSuffix in *.
    rewrite rev_cons in Hend. unfold nl in *.
    change (strings.rev (String "010" "")) with (String "010" "") in *.
    destruct (strings.rev (String y a)) as [|z r] eqn:E.
    - apply (f_equal strings.rev) in E. rewrite rev_involutive in E. done.
    - rewrite sapp_cons in Hend. rewrite HasPrefix_byte in Hend. by rewrite HasPrefix_byte. }
  rewrite (IH _ Hq Hend'), andb_true_r.
  destruct (b && HasPrefix (String x a ++ s) w) eqn:E; [|done].
  apply andb_prop in E as [-> E].
  destruct (HasPrefix_app_cases _ _ _ E) as [H1|[H1|H1]].
  - by rewrite H1 in Hx.
  - exfalso. destruct Hend as [|Hend]; [done|].
    unfold HasSuffix, nl in Hend.
    change (strings.rev (String "010" "")) with (String "010" "") in Hend.
    rewrite <- no_byte_rev in H1.
    destruct (strings.rev (String x a)) as [|z r]; [done|].
    cbn [HasPrefix] in Hend. simpl in H1.
    destruct (Ascii.eqb_spec z "010") as [->|]; [|done]. done.
  - by rewrite Hw in H1.
Qed.

Lemma quiet_prefix_line w a s :
  no_byte nl_byte a = true -> quiet_prefix w false (a ++ nl) s = true.
Proof.
  induction a as [|x a IH]; [done|]. cbn [no_byte]. intros H.
  apply andb_prop in H as [Hx Ha]. rewrite sapp_cons. cbn [quiet_prefix andb negb].
  assert (Hn : regexp.is_nl x = false).
  { unfold regexp.is_nl, is_byte. apply N.eqb_neq. intros E.
    apply negb_true_iff, Ascii.eqb_neq in Hx. apply Hx.
    rewrite <- (ascii_N_embedding x), E. reflexivity. }
  rewrite Hn. by apply IH.
Qed.

Lemma run_word w : forall (k : cont) prev s caps,
  w <> "" -> run (str w) k prev (w ++ s) caps = k (last_byte prev w) s caps.
Proof.
  induction w as [|c w IH]; intros k prev s caps Hne; [done|].
  destruct w as [|d w].
  - cbn [str]. unfold lit. rewrite sapp_cons, sapp_nil_l, run_Byte by apply Ascii.eqb_refl.
    done.
  - change (str (String c (String d w))) with (Cat (lit c) (str (String d w))).
    unfold lit at 1. rewrite sapp_cons, run_Cat, run_Byte by apply Ascii.eqb_refl.
    cbv beta. rewrite IH by done. by rewrite (last_byte_cons prev c).
Qed.

Lemma digits_go_nonempty f : forall m a,
  a <> "" \/ f <> 0%nat -> fmt.digits_go f m a <> "".
Proof.
  induction f as [|f IH]; intros m a H.
  - simpl. by destruct H.
  - cbn [fmt.digits_go]. destruct (m <? 10); [done|]. apply IH. by left.
Qed.

Lemma digits_first n :
  exists c s, fmt.digits n = String c s /\ cls_digit c = true.
Proof.
  pose proof (digits_digits n) as Hd.
  assert (Hne : fmt.digits n <> "") by (apply digits_go_nonempty; by right).
  destruct (fmt.digits n) as [|c s]; [done|].
  exists c, s. split; [done|]. simpl in Hd. by apply andb_prop in Hd as [Hd _].
Qed.

Lemma Atoi_d x : 0 <= x < 2 ^ 63 -> strconv.Atoi (fmt.d x) = (x, true).
Proof.
  intros Hx. unfold strconv.Atoi, strconv.ParseInt, fmt.d.
  destruct (Z.ltb_spec x 0) as [|_]; [lia|].
  pose proof (read_uint_digits x ltac:(lia)) as Hr.
  destruct (digits_first x) as (c & s & E & Hc). rewrite E in *.
  assert (Hp : Ascii.eqb c "+" = false /\ Ascii.eqb c "-" = false).
  { split; destruct (Ascii.eqb_spec c "+"), (Ascii.eqb_spec c "-"); subst; done. }
  destruct Hp as [-> ->]. cbn [orb]. rewrite Hr. cbn [negb andb].
  destruct (Z.leb_spec (2 ^ 63) x); [lia | done].
Qed.

Lemma d_digits x : 0 <= x -> all_bytes cls_digit (fmt.d x) = true /\ fmt.d x <> "".
Proof.
  intros Hx. unfold fmt.d. destruct (Z.ltb_spec x 0) as [|_]; [lia|].
  split; [apply digits_digits|].
  destruct (digits_first x) as (c & s & -> & _). done.
Qed.

End LineStarts.

Section PlayRes.

Lemma rePlayRes_word axis grouped :
  rePlayRes axis grouped = Cat (Bol true) (Cat (str ("PlayRes" ++ axis)) (res_tail grouped)).
Proof. reflexivity. Qed.

Lemma digit_signed c : cls_digit c = true -> cls_signed c = true.
Proof. intros H. unfold cls_signed, cls_num. by rewrite H. Qed.

Lemma stops_space_digits d rest :
  d <> "" -> all_bytes cls_digit d = true -> stops cls_space (d ++ rest) = true.
Proof.
  intros Hne Hd. apply stops_space_signed; [done|].
  by apply (all_bytes_impl cls_digit), Hd; apply digit_signed.
Qed.

(** The match of a resolution pattern on its line. *)
Lemma match_here_playres w grouped prev d rest :
  w <> "" -> at_line_start prev = true ->
  d <> "" -> all_bytes cls_digit d = true -> stops cls_digit rest = true ->
  match_here (Cat (Bol true) (Cat (str w) (res_tail grouped))) prev
             (w ++ ": " ++ d ++ rest)
  = Some (String.length (w ++ ": " ++ d),
          if grouped then [(1%nat, d)] else []).
Proof.
  intros Hw Hb Hne Hd Hs. unfold match_here.
  change (fun (_ : option ascii) (s' : string) (caps : captures) => Some (s', caps))
    with accept.
  assert (Hrun : run (Cat (Bol true) (Cat (str w) (res_tail grouped))) accept prev
                   (w ++ ": " ++ d ++ rest) []
                 = Some (rest, if grouped then [(1%nat, d)] else [])).
  { rewrite run_Cat, run_Bol_ok by done. cbv beta.
    rewrite run_Cat, run_word by done. cbv beta.
    unfold res_tail, sp, lit. cbn [seq_re].
    rewrite !sapp_cons, sapp_nil_l.
    rewrite run_Cat. apply run_Rep_none; [reflexivity|]. cbv beta.
    rewrite run_Cat, run_Byte by reflexivity. cbv beta.
    rewrite run_Cat.
    apply (run_Rep_max cls_space 0 _ _ " " (d ++ rest));
      [reflexivity | by apply stops_space_digits | simpl; lia |]. cbv beta.
    destruct grouped.
    - apply run_Group_max; [done | done | destruct d; [done | simpl; lia] | reflexivity].
    - apply run_Rep_max; [done | done | destruct d; [done | simpl; lia] | reflexivity]. }
  rewrite Hrun. f_equal. f_equal.
  rewrite !slength_app. cbn [String.length]. lia.
Qed.

End PlayRes.

Section PlayResDocs.

Lemma at_line_start_last prev a :
  at_line_start (last_byte prev a) = flag_after (at_line_start prev) a.
Proof. unfold last_byte, flag_after. by destruct (strings.rev a). Qed.

Lemma flag_after_cons b x a : flag_after b (String x a) = flag_after (regexp.is_nl x) a.
Proof.
  unfold flag_after. rewrite rev_cons. by destruct (strings.rev a).
Qed.

Lemma quiet_prefix_app w a1 a2 s : forall b,
  quiet_prefix w b (a1 ++ a2) s
  = quiet_prefix w b a1 (a2 ++ s) && quiet_prefix w (flag_after b a1) a2 s.
Proof.
  induction a1 as [|x a1 IH]; intros b; [done|].
  rewrite sapp_cons. cbn [quiet_prefix]. rewrite IH, flag_after_cons.
  rewrite <- !sapp_cons, sapp_assoc, andb_assoc. done.
Qed.

Lemma flag_after_bol pre :
  pre = "" \/ HasSuffix pre nl = true -> flag_after true pre = true.
Proof.
  intros [->|H]; [done|]. unfold flag_after, HasSuffix, nl in *.
  change (strings.rev (String "010" "")) with (String "010" "") in H.
  destruct (strings.rev pre) as [|x r]; [done|].
  rewrite HasPrefix_byte in H. apply Ascii.eqb_eq in H. by subst x.
Qed.

Lemma HasPrefix_longer s w t : HasPrefix s (w ++ t) = true -> HasPrefix s w = true.
Proof.
  revert s. induction w as [|c w IH]; intros s H; [apply HasPrefix_nil|].
  destruct s as [|x s]; [done|]. rewrite sapp_cons in H. cbn [HasPrefix] in *.
  destruct (Ascii.eqb x c); [by apply IH | done].
Qed.

Lemma no_line_starts_with_longer w t s : forall b,
  no_line_starts_with w b s = true -> no_line_starts_with (w ++ t) b s = true.
Proof.
  induction s as [|x s IH]; intros b H; [done|].
  cbn [no_line_starts_with] in *. apply andb_prop in H as [Hx Hs].
  rewrite (IH _ Hs), andb_true_r.
  destruct b; [|done]. cbn [andb] in *.
  destruct (HasPrefix (String x s) (w ++ t)) eqn:E; [|done].
  apply HasPrefix_longer in E. by rewrite E in Hx.
Qed.

Lemma no_line_starts_with_line w a s b :
  a <> "" -> no_byte nl_byte a = true ->
  no_line_starts_with w b (a ++ s)
  = negb (b && HasPrefix (a ++ s) w) && no_line_starts_with w false s.
Proof.
  intros Hne Ha. destruct a as [|x a]; [done|]. clear Hne.
  rewrite sapp_cons. cbn [no_line_starts_with]. rewrite <- sapp_cons. f_equal.
  revert x Ha. induction a as [|y a IH]; intros x Ha.
  - rewrite sapp_nil_l. cbn [no_byte] in Ha. apply andb_prop in Ha as [Hx _].
    assert (Hn : regexp.is_nl x = false).
    { unfold regexp.is_nl, is_byte. apply N.eqb_neq. intros E.
      apply negb_true_iff, Ascii.eqb_neq in Hx. apply Hx.
      rewrite <- (ascii_N_embedding x), E. reflexivity. }
    by rewrite Hn.
  - cbn [no_byte] in Ha. apply andb_prop in Ha as [Hx Ha].
    assert (Hn : regexp.is_nl x = false).
    { unfold regexp.is_nl, is_byte. apply N.eqb_neq. intros E.
      apply negb_true_iff, Ascii.eqb_neq in Hx. apply Hx.
      rewrite <- (ascii_N_embedding x), E. reflexivity. }
    rewrite sapp_cons. cbn [no_line_starts_with]. rewrite Hn. cbn [andb negb].
    by apply IH.
Qed.

Lemma digit_not_nl c : cls_digit c = true -> regexp.is_nl c = false.
Proof.
  intros H. destruct (regexp.is_nl c) eqn:E; [|done].
  unfold regexp.is_nl, is_byte in E. apply N.eqb_eq in E.
  rewrite <- (ascii_N_embedding c), E in H. done.
Qed.

Lemma last_byte_digits d : forall prev,
  d <> "" -> all_bytes cls_digit d = true -> at_line_start (last_byte prev d) = false.
Proof.
  induction d as [|x d IH]; intros prev Hne Hd; [done|].
  cbn [all_bytes] in Hd. apply andb_prop in Hd as [Hx Hd].
  rewrite last_byte_cons. destruct d as [|y d]; [|by apply IH].
  rewrite last_byte_nil. cbn [at_line_start]. by apply digit_not_nl.
Qed.

Lemma find_from_here r prev before s n caps :
  match_here r prev s = Some (n, caps) ->
  find_from r prev before s = Some (strings.rev before, strings.take n s, caps).
Proof. intros H. destruct s; cbn [find_from]; by rewrite H. Qed.

Lemma line_assoc w d rest : w ++ ": " ++ d ++ rest = (w ++ ": " ++ d) ++ rest.
Proof. by rewrite !sapp_assoc. Qed.

(** The first line that starts with the word, in a text none of whose
    earlier lines does: what the pattern finds. *)
Lemma find_from_line w grouped a d rest :
  w <> "" -> quiet_prefix w true a (w ++ ": " ++ d ++ rest) = true ->
  flag_after true a = true ->
  d <> "" -> all_bytes cls_digit d = true -> stops cls_digit rest = true ->
  find_from (Cat (Bol true) (Cat (str w) (res_tail grouped))) None "" (a ++ w ++ ": " ++ d ++ rest)
  = Some (a, w ++ ": " ++ d, if grouped then [(1%nat, d)] else []).
Proof.
  intros Hw Hq Hb Hne Hd Hs.
  rewrite find_from_quiet by done.
  rewrite (find_from_here _ _ _ _ _ _
             (match_here_playres w grouped (last_byte None a) d rest Hw
                ltac:(by rewrite at_line_start_last) Hne Hd Hs)).
  rewrite rev_acc_spec, sapp_nil_r, rev_involutive.
  f_equal. f_equal. f_equal.
  rewrite line_assoc. apply take_app_exact.
Qed.

Lemma scan_line w a d rest :
  w <> "" -> quiet_prefix w true a (w ++ ": " ++ d ++ rest) = true ->
  flag_after true a = true ->
  d <> "" -> all_bytes cls_digit d = true -> stops cls_digit rest = true ->
  no_line_starts_with w false rest = true ->
  FindAll (Cat (Bol true) (Cat (str w) (res_tail false))) (a ++ w ++ ": " ++ d ++ rest)
  = ([(a, w ++ ": " ++ d)], rest).
Proof.
  intros Hw Hq Hb Hne Hd Hs Hrest. unfold FindAll.
  rewrite scan_quiet_lines by done.
  pose proof (match_here_playres w false (last_byte None a) d rest Hw
                ltac:(by rewrite at_line_start_last) Hne Hd Hs) as Hm.
  cbn iota in Hm.
  destruct w as [|c w]; [done|].
  rewrite (line_assoc (String c w) d rest) in *.
  remember (String c w ++ ": " ++ d) as m eqn:Em.
  assert (Hlast : forall prev, at_line_start (last_byte prev m) = false).
  { intros prev. subst m. rewrite <- (sapp_assoc _ ": " d), last_byte_app.
    by apply last_byte_digits. }
  destruct m as [|c' m]; [by rewrite sapp_cons in Em|].
  rewrite sapp_cons in *. cbn [scan]. rewrite Hm.
  cbn [String.length].
  rewrite scan_skip_app.
  rewrite scan_quiet_lines_end;
    [| done | by rewrite <- last_byte_cons with (prev := last_byte None a), Hlast].
  rewrite rev_acc_spec, sapp_nil_r, rev_involutive.
  change (strings.rev "") with "". rewrite sapp_nil_l.
  f_equal. f_equal. f_equal.
  change (S (String.length m)) with (String.length (String c' m)).
  rewrite <- sapp_cons. apply take_app_exact.
Qed.

End PlayResDocs.

Section PlayResRead.

Lemma HasSuffix_app_nl a : HasSuffix (a ++ nl) nl = true.
Proof.
  unfold HasSuffix. rewrite rev_app. change (strings.rev nl) with (String "010" "").
  rewrite sapp_cons. apply HasPrefix_byte.
Qed.

Lemma stops_nl s : stops cls_digit (nl ++ s) = true.
Proof. unfold nl. by rewrite sapp_cons. Qed.

Lemma quiet_prefix_other_line w c a0 s :
  no_byte nl_byte (String c a0) = true ->
  HasPrefix (String c a0) w = false -> (String.length w <= String.length (String c a0))%nat ->
  quiet_prefix w true (String c a0 ++ nl) s = true.
Proof.
  intros Hn Hp Hl. rewrite sapp_cons. cbn [quiet_prefix].
  rewrite <- sapp_cons, sapp_assoc.
  rewrite (HasPrefix_app_l _ _ _ Hp Hl). cbn [andb negb].
  cbn [no_byte] in Hn. apply andb_prop in Hn as [Hc Hn].
  assert (Hnl : regexp.is_nl c = false).
  { unfold regexp.is_nl, is_byte. apply N.eqb_neq. intros E.
    apply negb_true_iff, Ascii.eqb_neq in Hc. apply Hc.
    rewrite <- (ascii_N_embedding c), E. reflexivity. }
  rewrite Hnl. by apply quiet_prefix_line.
Qed.

Lemma resx_line_no_nl x : no_byte nl_byte ("PlayResX: " ++ fmt.d x) = true.
Proof. rewrite no_byte_app. rewrite d_no_byte by reflexivity. reflexivity. Qed.

Lemma detectPlayRes_lines (pre post : string) (x y : Z) :
  no_line_starts_with "PlayRes" true pre = true ->
  pre = "" \/ HasSuffix pre nl = true ->
  0 <= x < 2 ^ 63 -> 0 <= y < 2 ^ 63 ->
  detectPlayRes (pre ++ playres_lines x y ++ post) = (x, y).
Proof.
  intros Hq Hend Hx Hy.
  destruct (d_digits x (proj1 Hx)) as [Hdx Hnx].
  destruct (d_digits y (proj1 Hy)) as [Hdy Hny].
  assert (EX : pre ++ playres_lines x y ++ post
               = pre ++ "PlayResX" ++ ": " ++ fmt.d x ++ (nl ++ "PlayResY: " ++ fmt.d y ++ nl ++ post)).
  { unfold playres_lines. by rewrite !sapp_assoc. }
  assert (EY : pre ++ playres_lines x y ++ post
               = (pre ++ ("PlayResX: " ++ fmt.d x) ++ nl)
                   ++ "PlayResY" ++ ": " ++ fmt.d y ++ (nl ++ post)).
  { unfold playres_lines. by rewrite !sapp_assoc. }
  unfold detectPlayRes, FindStringSubmatch. rewrite !rePlayRes_word.
  change ("PlayRes" ++ "X") with "PlayResX". change ("PlayRes" ++ "Y") with "PlayResY".
  rewrite EX at 1.
  rewrite (find_from_line "PlayResX" true pre (fmt.d x));
    [| done
     | apply quiet_prefix_lines; [done | by apply (no_line_starts_with_longer "PlayRes" "X") | done]
     | by apply flag_after_bol | done | done | apply stops_nl].
  rewrite EY.
  rewrite (find_from_line "PlayResY" true _ (fmt.d y));
    [| done | | | done | done | apply stops_nl].
  - cbn [map seq capture Nat.eqb]. by rewrite !Atoi_d.
  - rewrite quiet_prefix_app. apply andb_true_intro. split.
    + apply quiet_prefix_lines;
        [done | by apply (no_line_starts_with_longer "PlayRes" "Y") | done].
    + rewrite flag_after_bol by done.
      change ("PlayResX: " ++ fmt.d x) with (String "P" ("layResX: " ++ fmt.d x)).
      apply quiet_prefix_other_line.
      * apply resx_line_no_nl.
      * change (String "P" ("layResX: " ++ fmt.d x))
          with ("PlayResX" ++ ": " ++ fmt.d x).
        by apply HasPrefix_app_l.
      * simpl. rewrite slength_app. simpl. lia.
  - apply flag_after_bol. right.
    rewrite <- (sapp_assoc pre). apply HasSuffix_app_nl.
Qed.

End PlayResRead.

Section PlayResInsert.

Lemma HasSuffix_tail x a :
  String x a = "" \/ HasSuffix (String x a) nl = true -> a = "" \/ HasSuffix a nl = true.
Proof.
  intros Hend. destruct a as [|y a]; [by left|]. right.
  destruct Hend as [|Hend]; [done|]. unfold HasSuffix in *.
  rewrite rev_cons in Hend. unfold nl in *.
  change (strings.rev (String "010" "")) with (String "010" "") in *.
  destruct (strings.rev (String y a)) as [|z r] eqn:E.
  - apply (f_equal strings.rev) in E. rewrite rev_involutive in E. done.
  - rewrite sapp_cons in Hend. rewrite HasPrefix_byte in Hend. by rewrite HasPrefix_byte.
Qed.

Lemma HasSuffix_has_nl a : HasSuffix a nl = true -> no_byte nl_byte a = false.
Proof.
  intros Hend. unfold HasSuffix, nl in Hend.
  change (strings.rev (String "010" "")) with (String "010" "") in Hend.
  rewrite <- no_byte_rev.
  destruct (strings.rev a) as [|z r]; [done|].
  rewrite HasPrefix_byte in Hend. cbn [no_byte]. unfold nl_byte. by rewrite Hend.
Qed.

Lemma splitn_go_skip sep t : forall s,
  splitn_go sep 1 (String.length t) "" (t ++ s) = [s].
Proof.
  induction t as [|c t IH]; intros s; [by destruct s|].
  rewrite sapp_cons. cbn [splitn_go String.length]. apply IH.
Qed.

(** [SplitN] at the first occurrence of a one-line separator that
    follows whole lines. *)
Lemma splitn_go_first sep a s : forall cur,
  sep <> "" -> no_byte nl_byte sep = true ->
  Contains a sep = false ->
  a = "" \/ HasSuffix a nl = true ->
  splitn_go sep 2 0 cur (a ++ sep ++ s) = [strings.rev cur ++ a; s].
Proof.
  intros cur Hne Hsep. revert cur.
  induction a as [|x a IH]; intros cur Hc Hend.
  - rewrite sapp_nil_l, sapp_nil_r. destruct sep as [|c0 sep']; [done|].
    rewrite sapp_cons. cbn [splitn_go].
    rewrite <- sapp_cons, HasPrefix_app.
    replace (String.length (String c0 sep') - 1)%nat with (String.length sep')
      by (simpl; lia).
    by rewrite splitn_go_skip.
  - cbn [Contains] in Hc. apply orb_false_elim in Hc as [Hp Hc].
    assert (Hx : HasPrefix (String x a ++ sep ++ s) sep = false).
    { destruct (HasPrefix (String x a ++ sep ++ s) sep) eqn:E; [|done].
      destruct (HasPrefix_app_cases _ _ _ E) as [H1|[H1|H1]].
      - by rewrite H1 in Hp.
      - destruct Hend as [|Hend]; [done|]. by rewrite (HasSuffix_has_nl _ Hend) in H1.
      - by rewrite Hsep in H1. }
    rewrite sapp_cons in *. cbn [splitn_go]. rewrite Hx.
    rewrite (IH _ Hc (HasSuffix_tail _ _ Hend)).
    by rewrite rev_cons, sapp_assoc, sapp_cons, sapp_nil_l.
Qed.

Lemma ReplaceFirst_first sep new a s :
  sep <> "" -> no_byte nl_byte sep = true ->
  Contains a sep = false ->
  a = "" \/ HasSuffix a nl = true ->
  ReplaceFirst (a ++ sep ++ s) sep new = a ++ new ++ s.
Proof.
  intros Hne Hsep Hc Hend. unfold ReplaceFirst, SplitN.
  rewrite splitn_go_first by done.
  change (strings.rev "") with "". rewrite sapp_nil_l. reflexivity.
Qed.

Lemma header_no_playres w post b :
  HasPrefix styles_header w = false -> (String.length w <= 12)%nat ->
  no_line_starts_with w false post = true ->
  no_line_starts_with w b (styles_header ++ post) = true.
Proof.
  intros Hp Hl Hq. rewrite no_line_starts_with_line by done.
  rewrite (HasPrefix_app_l _ _ _ Hp Hl), andb_false_r. done.
Qed.

Lemma updateOrInsertPlayRes_result (pre post : string) (x y : Z) :
  no_line_starts_with "PlayRes" true pre = true ->
  pre = "" \/ HasSuffix pre nl = true ->
  Contains pre styles_header = false ->
  no_line_starts_with "PlayRes" false post = true ->
  0 <= x -> 0 <= y ->
  updateOrInsertPlayRes (pre ++ styles_header ++ post) x y
  = pre ++ playres_lines x y ++ nl ++ styles_header ++ post.
Proof.
  intros Hq Hend Hc Hpost Hx Hy.
  destruct (d_digits y Hy) as [Hdy Hny].
  assert (HqX := no_line_starts_with_longer "PlayRes" "X" _ _ Hq).
  assert (HqY := no_line_starts_with_longer "PlayRes" "Y" _ _ Hq).
  assert (HpX := no_line_starts_with_longer "PlayRes" "X" _ _ Hpost).
  assert (HpY := no_line_starts_with_longer "PlayRes" "Y" _ _ Hpost).
  change ("PlayRes" ++ "X") with "PlayResX" in *.
  change ("PlayRes" ++ "Y") with "PlayResY" in *.
  unfold updateOrInsertPlayRes. cbv zeta. rewrite !rePlayRes_word.
  change ("PlayRes" ++ "X") with "PlayResX". change ("PlayRes" ++ "Y") with "PlayResY".
  assert (HnoX : MatchString (Cat (Bol true) (Cat (str "PlayResX") (res_tail false)))
                   (pre ++ styles_header ++ post) = false).
  { unfold MatchString.
    rewrite find_from_quiet by (done || by apply quiet_prefix_lines).
    rewrite find_from_quiet_none; [done | done |].
    apply header_no_playres; [done | simpl; lia | done]. }
  rewrite HnoX. rewrite ReplaceFirst_first by done.
  set (A := pre ++ ("PlayResX: " ++ fmt.d x) ++ nl).
  set (rest := nl ++ nl ++ styles_header ++ post).
  assert (E : pre ++ ("PlayResX: " ++ fmt.d x ++ nl ++ "PlayResY: " ++ fmt.d y ++ nl ++ nl
                      ++ styles_header) ++ post
              = A ++ "PlayResY" ++ ": " ++ fmt.d y ++ rest).
  { unfold A, rest. by rewrite !sapp_assoc. }
  assert (HqA : quiet_prefix "PlayResY" true A ("PlayResY" ++ ": " ++ fmt.d y ++ rest) = true).
  { unfold A. rewrite quiet_prefix_app. apply andb_true_intro. split.
    - by apply quiet_prefix_lines.
    - rewrite flag_after_bol by done.
      change ("PlayResX: " ++ fmt.d x) with (String "P" ("layResX: " ++ fmt.d x)).
      apply quiet_prefix_other_line.
      + apply resx_line_no_nl.
      + change (String "P" ("layResX: " ++ fmt.d x))
          with ("PlayResX" ++ ": " ++ fmt.d x).
        by apply HasPrefix_app_l.
      + simpl. rewrite slength_app. simpl. lia. }
  assert (HfA : flag_after true A = true).
  { apply flag_after_bol. right. unfold A.
    rewrite <- (sapp_assoc pre). apply HasSuffix_app_nl. }
  assert (Hrest : no_line_starts_with "PlayResY" false rest = true).
  { unfold rest, nl. rewrite !sapp_cons, !sapp_nil_l.
    cbn [no_line_starts_with andb negb].
    change (regexp.is_nl "010") with true. cbn [andb].
    rewrite (header_no_playres "PlayResY" post true eq_refl ltac:(simpl; lia) HpY).
    reflexivity. }
  rewrite E. unfold MatchString.
  rewrite (find_from_line "PlayResY" false A (fmt.d y) rest) by (done || apply stops_nl).
  unfold ReplaceAllString, ReplaceAllStringFunc.
  rewrite (scan_line "PlayResY" A (fmt.d y) rest) by (done || apply stops_nl).
  cbn [map concat_strings]. rewrite sapp_nil_r.
  unfold A, rest, playres_lines. by rewrite !sapp_assoc.
Qed.

End PlayResInsert.

Section PlayResUpdate.

Lemma no_line_starts_with_nl w s b :
  no_line_starts_with w b (nl ++ s)
  = negb (b && HasPrefix (nl ++ s) w) && no_line_starts_with w true s.
Proof. unfold nl. rewrite sapp_cons, sapp_nil_l. reflexivity. Qed.

Lemma updateOrInsertPlayRes_replaces (pre post : string) (x0 y0 x y : Z) :
  no_line_starts_with "PlayRes" true pre = true ->
  pre = "" \/ HasSuffix pre nl = true ->
  no_line_starts_with "PlayRes" true post = true ->
  0 <= x0 -> 0 <= y0 ->
  updateOrInsertPlayRes (pre ++ playres_lines x0 y0 ++ post) x y
  = pre ++ playres_lines x y ++ post.
Proof.
  intros Hq Hend Hpost Hx0 Hy0.
  destruct (d_digits x0 Hx0) as [Hdx Hnx].
  destruct (d_digits y0 Hy0) as [Hdy Hny].
  assert (HqX := no_line_starts_with_longer "PlayRes" "X" _ _ Hq).
  assert (HqY := no_line_starts_with_longer "PlayRes" "Y" _ _ Hq).
  assert (HpX := no_line_starts_with_longer "PlayRes" "X" _ _ Hpost).
  assert (HpY := no_line_starts_with_longer "PlayRes" "Y" _ _ Hpost).
  change ("PlayRes" ++ "X") with "PlayResX" in *.
  change ("PlayRes" ++ "Y") with "PlayResY" in *.
  unfold updateOrInsertPlayRes. cbv zeta. rewrite !rePlayRes_word.
  change ("PlayRes" ++ "X") with "PlayResX". change ("PlayRes" ++ "Y") with "PlayResY".
  set (restX := nl ++ ("PlayResY: " ++ fmt.d y0) ++ nl ++ post).
  assert (EX : pre ++ playres_lines x0 y0 ++ post
               = pre ++ "PlayResX" ++ ": " ++ fmt.d x0 ++ restX).
  { unfold playres_lines, restX. by rewrite !sapp_assoc. }
  assert (HqP : quiet_prefix "PlayResX" true pre ("PlayResX" ++ ": " ++ fmt.d x0 ++ restX) = true).
  { by apply quiet_prefix_lines. }
  assert (HrX : no_line_starts_with "PlayResX" false restX = true).
  { unfold restX. rewrite no_line_starts_with_nl. cbn [andb negb].
    rewrite no_line_starts_with_line;
      [| done | rewrite no_byte_app; by rewrite d_no_byte].
    rewrite no_line_starts_with_nl. cbn [andb negb]. rewrite HpX.
    rewrite sapp_assoc.
    change ("PlayResY: " ++ fmt.d y0 ++ nl ++ post)
      with ("PlayResY" ++ ": " ++ fmt.d y0 ++ nl ++ post).
    rewrite HasPrefix_app_l by first [done | simpl; lia]. done. }
  assert (HX1 : MatchString (Cat (Bol true) (Cat (str "PlayResX") (res_tail false)))
                  (pre ++ playres_lines x0 y0 ++ post) = true).
  { rewrite EX. unfold MatchString.
    by rewrite (find_from_line "PlayResX" false pre (fmt.d x0) restX)
      by (done || apply stops_nl || by apply flag_after_bol). }
  assert (HX2 : forall repl,
             ReplaceAllString (Cat (Bol true) (Cat (str "PlayResX") (res_tail false)))
               (pre ++ playres_lines x0 y0 ++ post) repl = (pre ++ repl) ++ restX).
  { intros repl. rewrite EX. unfold ReplaceAllString, ReplaceAllStringFunc.
    rewrite (scan_line "PlayResX" pre (fmt.d x0) restX)
      by (done || apply stops_nl || by apply flag_after_bol).
    cbn [map concat_strings]. by rewrite sapp_nil_r. }
  rewrite HX1, HX2.
  set (A := pre ++ ("PlayResX: " ++ fmt.d x) ++ nl).
  set (rest := nl ++ post).
  assert (E : (pre ++ "PlayResX: " ++ fmt.d x) ++ restX
              = A ++ "PlayResY" ++ ": " ++ fmt.d y0 ++ rest).
  { unfold A, rest, restX. by rewrite !sapp_assoc. }
  assert (HqA : quiet_prefix "PlayResY" true A ("PlayResY" ++ ": " ++ fmt.d y0 ++ rest) = true).
  { unfold A. rewrite quiet_prefix_app. apply andb_true_intro. split.
    - by apply quiet_prefix_lines.
    - rewrite flag_after_bol by done.
      change ("PlayResX: " ++ fmt.d x) with (String "P" ("layResX: " ++ fmt.d x)).
      apply quiet_prefix_other_line.
      + apply resx_line_no_nl.
      + change (String "P" ("layResX: " ++ fmt.d x))
          with ("PlayResX" ++ ": " ++ fmt.d x).
        by apply HasPrefix_app_l.
      + simpl. rewrite slength_app. simpl. lia. }
  assert (HfA : flag_after true A = true).
  { apply flag_after_bol. right. unfold A.
    rewrite <- (sapp_assoc pre). apply HasSuffix_app_nl. }
  assert (Hrest : no_line_starts_with "PlayResY" false rest = true).
  { unfold rest. rewrite no_line_starts_with_nl. by rewrite HpY. }
  rewrite E. unfold MatchString.
  rewrite (find_from_line "PlayResY" false A (fmt.d y0) rest) by (done || apply stops_nl).
  unfold ReplaceAllString, ReplaceAllStringFunc.
  rewrite (scan_line "PlayResY" A (fmt.d y0) rest) by (done || apply stops_nl).
  cbn [map concat_strings]. rewrite sapp_nil_r.
  unfold A, rest, playres_lines. by rewrite !sapp_assoc.
Qed.

End PlayResUpdate.

(* ===================================================================== *)
(** * The claims *)
(* ===================================================================== *)

(** C1: the SRT document of two cues "HELLO", from 0 ms to 2000 ms and
    from 2050 ms to 4000 ms, decodes to these two cues, and the pipeline
    run on them with the tolerance 0.1 yields exactly one dialogue: it
    spans 0 ms to 4000 ms, printed 0:00:00.00 and 0:00:04.00, has the
    style tanda, and its text is "HELLO" with no effect prefix. *)
Theorem C1_end_to_end :
  parseSRTString srt_hello = [cue 1 0 2000 "HELLO"; cue 2 2050 4000 "HELLO"] /\
  (forall i1 i2,
     pipelineDialogues [cue i1 0 2000 "HELLO"; cue i2 2050 4000 "HELLO"] (seconds "0.1")
     = [dlg 0 4000 "HELLO" "tanda"]) /\
  formatMsToASSTime 0 = "0:00:00.00" /\
  formatMsToASSTime 4000 = "0:00:04.00" /\
  ConvertSRTBlocksToASS (parseSRTString srt_hello) (seconds "0.1")
  = ["Dialogue: 0,0:00:00.00,0:00:04.00,tanda,,0,0,0,,HELLO"].
Proof.
  split; [vm_compute; reflexivity|].
  split; [intros i1 i2; vm_compute; reflexivity|].
  repeat split; vm_compute; reflexivity.
Qed.

(** C2: two blocks of the same text and style, over [0,1000) and
    [1050,2000), are merged by the coalescing pass into one block over
    [0,2000) when the tolerance is 0.1 s, and are left as they are when
    it is 0.02 s. *)
Theorem C2_continuity (text style : string) :
  mergeSameOrContinuous [dlg 0 1000 text style; dlg 1050 2000 text style] (seconds "0.1")
  = [dlg 0 2000 text style] /\
  mergeSameOrContinuous [dlg 0 1000 text style; dlg 1050 2000 text style] (seconds "0.02")
  = [dlg 0 1000 text style; dlg 1050 2000 text style].
Proof.
  unfold mergeSameOrContinuous.
  change (sort_stable_by_start [dlg 0 1000 text style; dlg 1050 2000 text style])
    with [dlg 0 1000 text style; dlg 1050 2000 text style].
  cbn [fold_left]. unfold merge_step. cbn [last dlg Style Text Start End_ app].
  rewrite !String.eqb_refl. split; vm_compute; reflexivity.
Qed.

(** C3: two blocks over [1000,3000) of style Default with the texts "A"
    and "B" are joined by the grouping pass into one block of text
    "A\NB"; and for every input the pass yields one block per distinct
    (start, end, style) key, in the order of the first occurrence of the
    keys, whose text is the texts of the members of the key, in their
    order, joined with \N. *)
Theorem C3_group_and_join :
  mergeSameTimeAndStyle [dlg 1000 3000 "A" "Default"; dlg 1000 3000 "B" "Default"]
  = [dlg 1000 3000 "A\NB" "Default"] /\
  (forall dlgs, mergeSameTimeAndStyle dlgs = groups_spec dlgs).
Proof.
  split; [vm_compute; reflexivity | apply mergeSameTimeAndStyle_groups].
Qed.

(** C4: for every list of blocks and every tolerance, the blocks that
    the coalescing pass followed by the grouping pass yields are in
    non-decreasing order of start. *)
Theorem C4_merge_output_sorted (dlgs : list Dlg) (tolerance : float64) :
  StartSorted (mergeSameTimeAndStyle (mergeSameOrContinuous dlgs tolerance)).
Proof.
  apply starts_sorted. rewrite mergeSameTimeAndStyle_groups.
  apply groups_spec_sorted, mergeSameOrContinuous_sorted.
Qed.

(** C5: the time parser returns an int64 number of milliseconds on every
    string, with no error to propagate, and has the five reference
    values. *)
Theorem C5_time_parser :
  (forall s, Int64.in_range (parseTimeStringToMs s) = true) /\
  parseTimeStringToMs "00:01:30,500" = 90500 /\
  parseTimeStringToMs "1.5s" = 1500 /\
  parseTimeStringToMs "2000ms" = 2000 /\
  parseTimeStringToMs "" = 0 /\
  parseTimeStringToMs "garbage" = 0.
Proof.
  split; [exact parseTimeStringToMs_in_range|].
  repeat split; vm_compute; reflexivity.
Qed.

(** C6: the text "(abc]" has no tag, is not empty once trimmed, holds
    lowercase letters and is not wrapped in a matching pair; the
    classifier labels it tanda all the same, where the claim has
    Default: the pattern takes any opening bracket with any closing one. *)
Theorem C6_mixed_brackets_tanda :
  TrimSpace (ReplaceAllString reTag "(abc]" "") = "(abc]" /\
  MatchString reFullCaps "(abc]" = false /\
  wrapped_in_matching_pair "(abc]" = false /\
  detectStyle "(abc]" = "tanda" /\
  detectStyle "(abc)" = "tanda" /\
  detectStyle "[abc]" = "tanda" /\
  detectStyle "abc" = "Default".
Proof. repeat split; vm_compute; reflexivity. Qed.

(** C7: on a document that is a top-level array, the JSON decoder
    returns the type error of the first decoding into a map, whatever
    the events, and never reaches the decoding into a slice; an object
    with an events array is decoded. *)
Theorem C7_top_level_array_rejected
    (Sprintf_v : json -> string) (sort_Slice : list SRTBlock -> list SRTBlock) :
  (forall events,
     parseJSONToSRT Sprintf_v sort_Slice (JArray events)
     = inl (UnmarshalTypeError "array" "map[string]interface {}")) /\
  parseJSONToSRT Sprintf_v sort_Slice json_events
  = inl (UnmarshalTypeError "array" "map[string]interface {}") /\
  jsonEventsToSRT Sprintf_v sort_Slice [json_event]
  = inr (sort_Slice [cue 1 0 1000 (TrimSpace (Sprintf_v (JString "hi")))]) /\
  (forall events m,
     parseJSONToSRT Sprintf_v sort_Slice (JObject (<["events" := JArray events]> m))
     = jsonEventsToSRT Sprintf_v sort_Slice events).
Proof.
  split; [reflexivity|]. split; [reflexivity|]. split.
  - reflexivity.
  - intros events m. unfold parseJSONToSRT, Unmarshal_map.
    by rewrite lookup_insert_eq.
Qed.

(** C8: the rescaling pass rewrites the style lines of 22 fields or more
    field by field: Fontsize (field 2), Outline (16) and Shadow (17) are
    multiplied by f, MarginL (19) and MarginR (20) by fx, MarginV (21) by
    fy, and Spacing (field 13) is the trimmed field of the input, where
    the claim has it multiplied by f. The document at 1280x720 with a
    style line of Spacing 2 and a dialogue with the tag [\fsp2] is
    resampled with the factor 1.5: the tag of the dialogue comes out as
    [\fsp3.00], the style line with Spacing 2, and so is not the line
    the claim describes, in either number format of the code. *)
Theorem C8_style_spacing_not_scaled :
  (forall content fx fy f,
     rescaleStyleMargins content fx fy f
     = Join (map (fun l => if full_style_line l
                           then style_line (imap (style_rule fx fy f) (style_fields l))
                           else l)
                 (scanner_lines content)) nl) /\
  (forall fx fy f l,
     imap (style_rule fx fy f) (style_fields l) !! 13%nat = style_fields l !! 13%nat) /\
  strings.Split (ResampleASS doc_spacing) nl
  = ["[Script Info]"; "PlayResX: 1920"; "PlayResY: 1080"; "";
     "; Resampled to 1920x1080 and normalized by Limesub v3"; "";
     "[V4+ Styles]";
     "Format: Name, Fontname, Fontsize, PrimaryColour, SecondaryColour, OutlineColour, BackColour, Bold, Italic, Underline, StrikeOut, ScaleX, ScaleY, Spacing, Angle, BorderStyle, Outline, Shadow, Alignment, MarginL, MarginR, MarginV, Encoding";
     "Style: Default,Basic Comical NC,30,&H00FFFFFF,&H000000FF,&H00000000,&H00000000,0,0,0,0,100,100,2,0,1,2.25,1.5,2,15,15,22,1";
     ""; "[Events]";
     "Dialogue: 0,0:00:00.00,0:00:04.00,Default,,0,0,0,,{\fsp3.00}HELLO"] /\
  nth 6 (strings.Split doc_spacing nl) "" = style0 /\
  style_fields style0 !! 13%nat = Some "2" /\
  style_fields (nth 8 (strings.Split (ResampleASS doc_spacing) nl) "") !! 13%nat = Some "2" /\
  scaled ftoa.g f15 "2" = "3" /\
  scaled (ftoa.fixed 0) f15 "2" = "3" /\
  nth 8 (strings.Split (ResampleASS doc_spacing) nl) ""
  <> style_line (imap (style_rule_with_spacing ftoa.g f15 f15 f15)
                   (<[1%nat := targetFont]> (style_fields style0))) /\
  nth 8 (strings.Split (ResampleASS doc_spacing) nl) ""
  <> style_line (imap (style_rule_with_spacing (ftoa.fixed 0) f15 f15 f15)
                   (<[1%nat := targetFont]> (style_fields style0))).
Proof.
  split.
  { intros content fx fy f. unfold rescaleStyleMargins. f_equal.
    apply map_ext. intros l. destruct (full_style_line l) eqn:E.
    - unfold full_style_line in E. apply andb_prop in E as [Hp Hl].
      apply rescaleStyleLine_fields; [done | by apply Nat.leb_le].
    - by apply rescaleStyleLine_other. }
  split.
  { intros fx fy f l. rewrite list_lookup_imap.
    by destruct (style_fields l !! 13%nat). }
  split; [vm_compute; reflexivity|].
  split; [vm_compute; reflexivity|].
  split; [vm_compute; reflexivity|].
  split; [vm_compute; reflexivity|].
  split; [vm_compute; reflexivity|].
  split; [vm_compute; reflexivity|].
  split; vm_compute; discriminate.
Qed.

(** The whole of the resampled document: the resolution lines rewritten,
    the comment inserted, the style line rewritten, the final line feed
    gone with the scanner. *)
Lemma ResampleASS_doc0 :
  strings.Split (ResampleASS doc0) nl
  = ["[Script Info]"; "PlayResX: 1920"; "PlayResY: 1080"; "";
     "; Resampled to 1920x1080 and normalized by Limesub v3"; "";
     "[V4+ Styles]";
     "Format: Name, Fontname, Fontsize, PrimaryColour, SecondaryColour, OutlineColour, BackColour, Bold, Italic, Underline, StrikeOut, ScaleX, ScaleY, Spacing, Angle, BorderStyle, Outline, Shadow, Alignment, MarginL, MarginR, MarginV, Encoding";
     "Style: Default,Basic Comical NC,30,&H00FFFFFF,&H000000FF,&H00000000,&H00000000,0,0,0,0,100,100,2,0,1,2.25,1.5,2,15,15,22,1";
     ""; "[Events]";
     "Dialogue: 0,0:00:00.00,0:00:04.00,Default,,0,0,0,,HELLO"].
Proof. vm_compute. reflexivity. Qed.

(** C9: three Default blocks over (0,1000) with the texts "A", "B", "A"
    come out of the two merge stages as one block of text "A\NB\NA":
    the second "A" is not next to the first after the stable sort, and
    is kept. Two "A" next to each other are collapsed. *)
Theorem C9_duplicates_adjacent_only (tolerance : float64) :
  mergeSameTimeAndStyle
    (mergeSameOrContinuous
       [dlg 0 1000 "A" "Default"; dlg 0 1000 "B" "Default"; dlg 0 1000 "A" "Default"]
       tolerance)
  = [dlg 0 1000 "A\NB\NA" "Default"] /\
  mergeSameTimeAndStyle
    (mergeSameOrContinuous
       [dlg 0 1000 "A" "Default"; dlg 0 1000 "A" "Default"; dlg 0 1000 "B" "Default"]
       tolerance)
  = [dlg 0 1000 "A\NB" "Default"].
Proof.
  split.
  - vm_compute. reflexivity.
  - vm_compute. reflexivity.
Qed.


(* ===================================================================== *)
(** * Further properties of the code *)
(* ===================================================================== *)

(** X1. The coalescing pass invents nothing: every block of the output has
    the start, the text and the style of one input block and the end of
    one input block, and there are no more blocks than before. *)
Theorem mergeSameOrContinuous_from_input (dlgs : list Dlg) (tolerance : float64) :
  Forall (from_input dlgs) (mergeSameOrContinuous dlgs tolerance) /\
  (length (mergeSameOrContinuous dlgs tolerance) <= length dlgs)%nat.
Proof. apply mergeSameOrContinuous_provenance. Qed.

(** X2. Blocks are only ever merged with a neighbour of the same style and
    text: a list that is sorted by start, and in which no block is
    followed by one of the same style and the same text (white space
    apart), goes through the coalescing pass as it is, whatever the
    tolerance. *)
Theorem mergeSameOrContinuous_settled (dlgs : list Dlg) (tolerance : float64) :
  StartSorted dlgs -> neighbours_differ dlgs = true ->
  mergeSameOrContinuous dlgs tolerance = dlgs.
Proof.
  intros Hs Hn. unfold mergeSameOrContinuous.
  rewrite sort_stable_by_start_sorted_id by (by apply StartSorted_starts).
  by apply merge_loop_settled.
Qed.

Lemma mergeSameOrContinuous_settled_witness :
  StartSorted [dlg 0 1000 "A" "Default"; dlg 1000 2000 "B" "Default"; dlg 2000 3000 "A" "Default"] /\
  neighbours_differ
    [dlg 0 1000 "A" "Default"; dlg 1000 2000 "B" "Default"; dlg 2000 3000 "A" "Default"] = true /\
  mergeSameOrContinuous
    [dlg 0 1000 "A" "Default"; dlg 1000 2000 "B" "Default"; dlg 2000 3000 "A" "Default"]
    (seconds "0.1")
  = [dlg 0 1000 "A" "Default"; dlg 1000 2000 "B" "Default"; dlg 2000 3000 "A" "Default"].
Proof.
  assert (Hs : StartSorted [dlg 0 1000 "A" "Default"; dlg 1000 2000 "B" "Default";
                            dlg 2000 3000 "A" "Default"]).
  { repeat constructor; unfold le_start; simpl; lia. }
  split; [exact Hs|]. split; [vm_compute; reflexivity|].
  apply mergeSameOrContinuous_settled; [exact Hs | vm_compute; reflexivity].
Defined.

(** X3. The grouping pass leaves no two blocks with the same start, end and
    style, and grouping its output again changes nothing. *)
Theorem mergeSameTimeAndStyle_idempotent (dlgs : list Dlg) :
  NoDup (map key_of (mergeSameTimeAndStyle dlgs)) /\
  mergeSameTimeAndStyle (mergeSameTimeAndStyle dlgs) = mergeSameTimeAndStyle dlgs.
Proof.
  assert (Hnd : NoDup (map key_of (mergeSameTimeAndStyle dlgs))).
  { rewrite mergeSameTimeAndStyle_groups, groups_spec_keys. apply distinct_keys_NoDup. }
  split; [exact Hnd|].
  rewrite (mergeSameTimeAndStyle_groups (mergeSameTimeAndStyle dlgs)).
  by apply groups_spec_NoDup.
Qed.

(** X4. [normalizeSpaces] yields a normal form: normalising twice is
    normalising once. *)
Theorem normalizeSpaces_idempotent (s : string) :
  normalizeSpaces (normalizeSpaces s) = normalizeSpaces s.
Proof.
  unfold normalizeSpaces. rewrite !ReplaceAllString_reSpaces.
  set (t := collapse_go false s).
  destruct (TrimSpace_spec t) as (_ & _ & p & q & Ht).
  assert (Hsb : single_blanks false (TrimSpace t) = true).
  { pose proof (single_blanks_collapse s false) as H. fold t in H.
    rewrite Ht in H. apply single_blanks_suffix in H.
    by apply single_blanks_prefix in H. }
  rewrite (collapse_single_blanks _ _ Hsb). apply TrimSpace_idemp.
Qed.

(** X5. After [splitMultiline] no text holds a line feed and every text is
    trimmed; splitting again changes nothing. *)
Theorem splitMultiline_idempotent (blocks : list SRTBlock) :
  Forall (fun b => no_byte nl_byte (BlockText b) = true /\
                   TrimSpace (BlockText b) = BlockText b) (splitMultiline blocks) /\
  splitMultiline (splitMultiline blocks) = splitMultiline blocks.
Proof.
  assert (Hall : Forall (fun b => no_byte nl_byte (BlockText b) = true /\
                   TrimSpace (BlockText b) = BlockText b) (splitMultiline blocks)).
  { rewrite splitMultiline_flat_map. rewrite Forall_forall. intros b Hb.
    apply list_elem_of_In, in_flat_map in Hb as (b0 & _ & Hb). unfold cue_lines in Hb.
    apply in_map_iff in Hb as (ln & <- & Hln). simpl.
    split; [|apply TrimSpace_idemp].
    apply TrimSpace_no_byte.
    destruct (Split_fields nl_byte (BlockText b0)) as [Hf _].
    rewrite Forall_forall in Hf. apply Hf. by apply list_elem_of_In. }
  split; [exact Hall|].
  rewrite (splitMultiline_flat_map (splitMultiline blocks)).
  induction Hall as [|b l [Hb1 Hb2] _ IH]; [done|].
  cbn [flat_map]. rewrite IH. unfold cue_lines.
  change nl with (String nl_byte ""). rewrite Split_last by done.
  simpl. rewrite Hb2. by destruct b.
Qed.

(** X6. The classifier without its patterns: on the text with the tags
    removed and trimmed, the style is Default when nothing is left,
    tanda when no lowercase letter is left, and otherwise tanda exactly
    when the text opens with a bracket and closes with a bracket, of
    either kind, with no line feed in between. *)
Theorem detectStyle_spec (text : string) :
  let clean := TrimSpace (ReplaceAllString reTag text "") in
  detectStyle text =
    if String.eqb clean "" then "Default"
    else if has_lower clean then (if bracketed clean then "tanda" else "Default")
    else "tanda".
Proof.
  cbv zeta. destruct (has_lower (TrimSpace (ReplaceAllString reTag text ""))) eqn:Hl.
  - pose proof (detectStyle_with_lowercase text) as H. cbv zeta in H. rewrite (H Hl).
    destruct (String.eqb_spec (TrimSpace (ReplaceAllString reTag text "")) "") as [E|E]; [|done].
    by rewrite E in Hl.
  - unfold detectStyle.
    destruct (String.eqb_spec (TrimSpace (ReplaceAllString reTag text "")) "") as [E|E]; [done|].
    assert (Hm : MatchString reFullCaps (TrimSpace (ReplaceAllString reTag text "")) = true)
      by (by apply reFullCaps_spec).
    by rewrite Hm.
Qed.

(** X7. A text without a backslash and without an empty tag wrapper goes
    through [cleanFontAndEffects] as it is. *)
Theorem cleanFontAndEffects_plain (s : string) :
  no_byte backslash s = true -> Contains s "{}" = false ->
  cleanFontAndEffects s = s.
Proof.
  intros Hs Hc. unfold cleanFontAndEffects, ReplaceAllString.
  rewrite (ReplaceAllStringFunc_no_byte backslash reFn) by first [vm_compute; reflexivity | exact Hs].
  rewrite (ReplaceAllStringFunc_no_byte backslash reFs) by first [vm_compute; reflexivity | exact Hs].
  rewrite (ReplaceAllStringFunc_no_byte backslash reBlur) by first [vm_compute; reflexivity | exact Hs].
  rewrite (ReplaceAllStringFunc_no_byte backslash reFad) by first [vm_compute; reflexivity | exact Hs].
  rewrite (ReplaceAllStringFunc_no_byte backslash reBlurInline) by first [vm_compute; reflexivity | exact Hs].
  rewrite (ReplaceAllStringFunc_no_byte backslash reFadInline) by first [vm_compute; reflexivity | exact Hs].
  by apply ReplaceAll_no_sep.
Qed.

Lemma cleanFontAndEffects_plain_witness :
  no_byte backslash "Hello, {world}!" = true /\
  Contains "Hello, {world}!" "{}" = false /\
  cleanFontAndEffects "Hello, {world}!" = "Hello, {world}!".
Proof.
  split; [reflexivity|]. split; [reflexivity|].
  apply cleanFontAndEffects_plain; vm_compute; reflexivity.
Defined.

(** X8. Two times print the same ASS time stamp exactly when they lie in
    the same centisecond; a time below ten hours fills ten bytes. *)
Theorem formatMsToASSTime_centiseconds (a b : Z) :
  0 <= a -> 0 <= b ->
  (formatMsToASSTime a = formatMsToASSTime b <-> a / 10 = b / 10) /\
  (a < 36000000 -> String.length (formatMsToASSTime a) = 10%nat).
Proof.
  intros Ha Hb.
  assert (Hq : forall x, 0 <= x -> 0 <= x / 10 /\ 0 <= x / 10 / 100 /\
                                   0 <= (x / 10) mod 100 < 100).
  { intros x Hx. assert (0 <= x / 10) by (apply Z.div_pos; lia).
    split; [done|]. split; [apply Z.div_pos; lia | apply Z.mod_pos_bound; lia]. }
  destruct (Hq a Ha) as (Hqa & HTa & Hca). destruct (Hq b Hb) as (Hqb & HTb & Hcb).
  destruct (quot_1000_centi a Ha) as [Ea1 Ea2]. destruct (quot_1000_centi b Hb) as [Eb1 Eb2].
  destruct (hms_bounds_100 _ HTa) as (Bh & Bm & Bs).
  destruct (hms_bounds_100 _ HTb) as (Bh' & Bm' & Bs').
  unfold formatMsToASSTime. cbv zeta. rewrite Ea1, Ea2, Eb1, Eb2. split; [split|].
  - intros E.
    apply ass_stamp_inj in E as (Eh & Em & Es & Ec); try done; try apply Hca; try apply Hcb.
    apply div_mod_100_inj; [done | done | | done].
    by apply hms_inj.
  - by intros ->.
  - intros Hlt. apply ass_stamp_length; try done.
    apply hours_bound. split; [done|].
    apply Z.div_lt_upper_bound; [done|]. apply Z.div_lt_upper_bound; [done|]. exact Hlt.
Qed.

Lemma formatMsToASSTime_centiseconds_witness :
  0 <= 1234 /\ 0 <= 1239 /\
  formatMsToASSTime 1234 = formatMsToASSTime 1239 /\
  String.length (formatMsToASSTime 1234) = 10%nat.
Proof.
  split; [lia|]. split; [lia|].
  destruct (formatMsToASSTime_centiseconds 1234 1239) as [H1 H2]; [lia | lia |].
  split; [apply H1; reflexivity | apply H2; lia].
Defined.

(** X9. Every [Dialogue:] line the pipeline emits is one line: it holds no
    line feed, whatever the cues and the tolerance. *)
Theorem ConvertSRTBlocksToASS_single_lines (blocks : list SRTBlock) (tolerance : float64) :
  Forall (fun line => no_byte nl_byte line = true) (ConvertSRTBlocksToASS blocks tolerance).
Proof.
  rewrite ConvertSRTBlocksToASS_map. unfold pipelineDialogues.
  pose proof (pipeline_blocks blocks tolerance) as H. cbv zeta in H. destruct H as [H _].
  rewrite Forall_forall in H. rewrite Forall_forall. intros line Hl.
  apply list_elem_of_In, in_map_iff in Hl as (d & <- & Hd).
  apply in_map_iff in Hd as (d0 & <- & Hd0).
  destruct (H d0) as [Ht Hs]; [by apply list_elem_of_In|].
  apply dialogueLine_no_nl; simpl; [by apply cleanFontAndEffects_no_byte | done].
Qed.

(** X10. The pipeline emits no more [Dialogue:] lines than the cues have
    lines of text, and gives each the style Default or tanda. *)
Theorem pipelineDialogues_bounded (blocks : list SRTBlock) (tolerance : float64) :
  (length (ConvertSRTBlocksToASS blocks tolerance) <= text_lines blocks)%nat /\
  Forall (fun d => known_style (Style d)) (pipelineDialogues blocks tolerance).
Proof.
  rewrite ConvertSRTBlocksToASS_map. unfold pipelineDialogues.
  pose proof (pipeline_blocks blocks tolerance) as H. cbv zeta in H. destruct H as [H Hlen].
  rewrite !length_map. split; [exact Hlen|].
  rewrite Forall_forall in H. rewrite Forall_forall. intros d Hd.
  apply list_elem_of_In, in_map_iff in Hd as (d0 & <- & Hd0). simpl.
  apply H. by apply list_elem_of_In.
Qed.

(** X11. The time parser takes the comma of SRT for the decimal point, and
    white space around the time stamp does not count: the stamp with its
    commas turned into points, and the trimmed stamp, parse to the same
    number of milliseconds. *)
Theorem parseTimeStringToMs_comma_and_space (s : string) :
  parseTimeStringToMs (strings.ReplaceAll s "," ".") = parseTimeStringToMs s /\
  parseTimeStringToMs (TrimSpace s) = parseTimeStringToMs s.
Proof.
  split; [|apply parseTimeStringToMs_TrimSpace].
  rewrite ReplaceAll_commas. unfold parseTimeStringToMs.
  destruct (String.eqb_spec s "") as [->|Hs]; [reflexivity|].
  destruct (String.eqb_spec (commas_to_points s) "") as [E|_].
  { by apply commas_to_points_nil in E. }
  by rewrite TrimSpace_commas, !ReplaceAll_commas, commas_to_points_idemp.
Qed.

(** X12. Distinct times print distinct SRT time stamps, and a time below a
    hundred hours fills the twelve bytes of HH:MM:SS,mmm. *)
Theorem formatMsToSRTTime_injective (a b : Z) :
  0 <= a -> 0 <= b ->
  (formatMsToSRTTime a = formatMsToSRTTime b -> a = b) /\
  (a < 360000000 -> String.length (formatMsToSRTTime a) = 12%nat).
Proof.
  intros Ha Hb.
  assert (Hq : forall x, 0 <= x -> 0 <= x / 1000 /\ 0 <= x mod 1000 < 1000).
  { intros x Hx. split; [apply Z.div_pos; lia | apply Z.mod_pos_bound; lia]. }
  destruct (Hq a Ha) as [HTa Hca]. destruct (Hq b Hb) as [HTb Hcb].
  destruct (srt_fields a Ha) as (Ea1 & Ea2 & Ea3 & Ea4).
  destruct (srt_fields b Hb) as (Eb1 & Eb2 & Eb3 & Eb4).
  destruct (hms_bounds_100 _ HTa) as (Bh & Bm & Bs).
  destruct (hms_bounds_100 _ HTb) as (Bh' & Bm' & Bs').
  unfold formatMsToSRTTime. cbv zeta.
  rewrite Ea1, Ea2, Ea3, Ea4, Eb1, Eb2, Eb3, Eb4. split.
  - intros E.
    apply srt_stamp_inj in E as (Eh & Em & Es & Ec); try done; try apply Hca; try apply Hcb.
    apply div_mod_1000_inj; [done | done | | done].
    by apply hms_inj.
  - intros Hlt. apply srt_stamp_length; try done.
    apply hours_bound. split; [done|].
    apply Z.div_lt_upper_bound; [done|]. exact Hlt.
Qed.

Lemma formatMsToSRTTime_injective_witness :
  0 <= 3723004 /\ 0 <= 3723004 /\
  formatMsToSRTTime 3723004 = "01:02:03,004" /\
  String.length (formatMsToSRTTime 3723004) = 12%nat.
Proof.
  split; [lia|]. split; [lia|]. split; [reflexivity|].
  destruct (formatMsToSRTTime_injective 3723004 3723004) as [_ H]; [lia | lia |].
  apply H. lia.
Defined.

(** X13. The products and sums of the time parser are rounded, and the
    result is cut to an integer: the stamp of a time reads back as the
    time or as one millisecond less. It does so for every time below two
    seconds; 00:00:01,001 reads back as 1000. *)
Theorem parseTimeStringToMs_reads_SRT_stamp (ms : Z) :
  0 <= ms < 2000 ->
  (parseTimeStringToMs (formatMsToSRTTime ms) = ms \/
   parseTimeStringToMs (formatMsToSRTTime ms) = ms - 1) /\
  parseTimeStringToMs (formatMsToSRTTime 1001) = 1000.
Proof.
  intros Hms. split; [|vm_compute; reflexivity].
  assert (Hall : forallb reads_back (seq 0 2000) = true) by (vm_compute; reflexivity).
  rewrite forallb_forall in Hall.
  specialize (Hall (Z.to_nat ms)). unfold reads_back in Hall. cbv zeta in Hall.
  rewrite Z2Nat.id in Hall by lia.
  assert (Hin : In (Z.to_nat ms) (seq 0 2000)) by (apply in_seq; lia).
  apply Hall, orb_prop in Hin as [H|H]; apply Z.eqb_eq in H; auto.
Qed.

Lemma parseTimeStringToMs_reads_SRT_stamp_witness :
  0 <= 1500 < 2000 /\
  (parseTimeStringToMs (formatMsToSRTTime 1500) = 1500 \/
   parseTimeStringToMs (formatMsToSRTTime 1500) = 1500 - 1) /\
  parseTimeStringToMs (formatMsToSRTTime 1001) = 1000.
Proof. split; [lia|]. apply (parseTimeStringToMs_reads_SRT_stamp 1500). lia. Defined.

(** X14. [safeTrimAndNormalizeSpaces] keeps the number of lines, and
    applying it twice is applying it once. *)
Theorem safeTrimAndNormalizeSpaces_idempotent (text : string) :
  count_nl (safeTrimAndNormalizeSpaces text) = count_nl text /\
  safeTrimAndNormalizeSpaces (safeTrimAndNormalizeSpaces text)
  = safeTrimAndNormalizeSpaces text.
Proof.
  pose proof (safeTrim_lines text) as H. cbv zeta in H. destruct H as [Hne Hall].
  assert (Hsplit : strings.Split (safeTrimAndNormalizeSpaces text) nl
                   = map TrimSpace (strings.Split text nl)).
  { unfold safeTrimAndNormalizeSpaces. change (String "010" "") with (String nl_byte "").
    change nl with (String nl_byte ""). by apply Split_Join. }
  split.
  - pose proof (split_go_nl_length (safeTrimAndNormalizeSpaces text) "") as H1.
    pose proof (split_go_nl_length text "") as H2.
    unfold strings.Split in Hsplit. rewrite Hsplit, length_map, H2 in H1. lia.
  - unfold safeTrimAndNormalizeSpaces at 1.
    change (String "010" "") with nl. rewrite Hsplit, map_TrimSpace_idemp. done.
Qed.

(** X15. A time line [a --> b] gives the times of [a] and of [b]; the blanks
    around the arrow do not count. *)
Theorem parseSRTTimeLine_arrow (a b : string) :
  Contains a arrow = false -> Contains b arrow = false ->
  parseSRTTimeLine (a ++ arrow ++ b) = (parseTimeStringToMs a, parseTimeStringToMs b).
Proof.
  intros Ha Hb. unfold parseSRTTimeLine.
  change "-->" with arrow. rewrite Split_arrow by done.
  by rewrite !parseTimeStringToMs_TrimSpace.
Qed.

Lemma parseSRTTimeLine_arrow_witness :
  Contains "00:00:01,500 " arrow = false /\ Contains " 00:01:30.5" arrow = false /\
  parseSRTTimeLine ("00:00:01,500 " ++ arrow ++ " 00:01:30.5") = (1500, 90500).
Proof.
  split; [reflexivity|]. split; [reflexivity|].
  rewrite parseSRTTimeLine_arrow by reflexivity. vm_compute. reflexivity.
Defined.

(** X16. The cues of an SRT document are numbered 1, 2, 3, ... in the order
    of the document, whatever counters the document carries. *)
Theorem parseSRTString_indices (content : string) :
  map Index (parseSRTString content)
  = map Z.of_nat (seq 1 (length (parseSRTString content))).
Proof. unfold parseSRTString. by apply parseSRT_loop_indices. Qed.

(** X17. Whatever the events, [jsonEventsToSRT] returns blocks and no error,
    no more blocks than events; every block ends at another time than
    it starts (a duration of zero becomes 2000 ms), carries as index the
    place of its event, counted from 1, and has its text trimmed. The
    sort is only asked to permute the blocks. *)
Theorem jsonEventsToSRT_blocks (Sprintf_v : json -> string)
    (sort_Slice : list SRTBlock -> list SRTBlock) (events : list json) :
  (forall l, sort_Slice l ≡ₚ l) ->
  exists out, jsonEventsToSRT Sprintf_v sort_Slice events = inr out /\
    (length out <= length events)%nat /\
    Forall (event_ok (length events)) out.
Proof.
  intros Hsort. unfold jsonEventsToSRT. eexists. split; [reflexivity|].
  destruct (events_loop_ok Sprintf_v (length events) events 0 []) as [H1 H2];
    [lia | lia | constructor | simpl; lia |].
  rewrite (Permutation_length (Hsort _)). split; [simpl in H2; lia|].
  rewrite Forall_forall in H1. rewrite Forall_forall. intros b Hb.
  apply H1. by rewrite <- (Hsort _).
Qed.

Lemma jsonEventsToSRT_blocks_witness :
  (forall l : list SRTBlock, (fun l => l) l ≡ₚ l) /\
  exists out,
    jsonEventsToSRT (fun _ => "") (fun l => l) [JNull; json_event] = inr out /\
    (length out <= 2)%nat /\ Forall (event_ok 2) out.
Proof.
  split; [intros l; reflexivity|].
  apply (jsonEventsToSRT_blocks (fun _ => "") (fun l => l) [JNull; json_event]).
  intros l. reflexivity.
Defined.

(** X18. [normalizeBrTags] leaves no carriage return: every line end of its
    result is a line feed. *)
Theorem normalizeBrTags_no_cr (s : string) :
  no_byte cr_byte (normalizeBrTags s) = true.
Proof.
  unfold normalizeBrTags. cbv zeta. unfold strings.ReplaceAll at 1.
  apply Join_no_byte; [done|].
  by destruct (Split_fields cr_byte
    (strings.ReplaceAll (ReplaceAllString reBr s nl) (cr ++ nl) nl)) as [H _].
Qed.

(** X19. [stripTagsButPreserveNewlines] leaves no tag behind: the pattern of
    the tags matches nowhere in its result, and stripping again changes
    nothing. *)
Theorem stripTagsButPreserveNewlines_no_tag_left (s : string) :
  MatchString reXmlTag (stripTagsButPreserveNewlines s) = false /\
  stripTagsButPreserveNewlines (stripTagsButPreserveNewlines s)
  = stripTagsButPreserveNewlines s.
Proof.
  assert (H : forall a w, stripTagsButPreserveNewlines s = a ++ w -> ~ tag_at w).
  { intros a w E. by apply (strip_no_tag (String.length s) s a w). }
  split.
  - unfold MatchString. by rewrite find_from_none_tag.
  - unfold stripTagsButPreserveNewlines at 1.
    unfold ReplaceAllString, ReplaceAllStringFunc, FindAll.
    by rewrite scan_none_tag.
Qed.

(** X20. [detectPlayRes] reads the resolution written in the first
    [PlayResX] and [PlayResY] lines of a script. *)
Theorem detectPlayRes_reads (pre post : string) (x y : Z) :
  no_line_starts_with "PlayRes" true pre = true ->
  pre = "" \/ HasSuffix pre nl = true ->
  0 <= x < 2 ^ 63 -> 0 <= y < 2 ^ 63 ->
  detectPlayRes (pre ++ playres_lines x y ++ post) = (x, y).
Proof. apply detectPlayRes_lines. Qed.

Lemma detectPlayRes_reads_witness :
  detectPlayRes ("[Script Info]" ++ nl ++ "PlayResX: 1280" ++ nl ++ "PlayResY: 720" ++ nl
                 ++ nl ++ "[V4+ Styles]" ++ nl) = (1280, 720).
Proof.
  apply (detectPlayRes_reads ("[Script Info]" ++ nl) (nl ++ "[V4+ Styles]" ++ nl) 1280 720).
  - vm_compute; reflexivity.
  - right. vm_compute; reflexivity.
  - lia.
  - lia.
Defined.

(** X21. A script with no resolution lines gets both of them, in front of
    its styles section, and [detectPlayRes] reads them back. *)
Theorem updateOrInsertPlayRes_inserts (pre post : string) (x y : Z) :
  no_line_starts_with "PlayRes" true pre = true ->
  pre = "" \/ HasSuffix pre nl = true ->
  Contains pre styles_header = false ->
  no_line_starts_with "PlayRes" false post = true ->
  0 <= x < 2 ^ 63 -> 0 <= y < 2 ^ 63 ->
  updateOrInsertPlayRes (pre ++ styles_header ++ post) x y
  = pre ++ playres_lines x y ++ nl ++ styles_header ++ post
  /\ detectPlayRes (updateOrInsertPlayRes (pre ++ styles_header ++ post) x y) = (x, y).
Proof.
  intros Hq Hend Hc Hpost Hx Hy.
  rewrite updateOrInsertPlayRes_result by (done || lia).
  split; [done|]. by apply detectPlayRes_lines.
Qed.

Lemma updateOrInsertPlayRes_inserts_witness :
  updateOrInsertPlayRes ("[Script Info]" ++ nl ++ nl ++ styles_header ++ nl ++ "Format: Name") 1920 1080
  = ("[Script Info]" ++ nl ++ nl) ++ playres_lines 1920 1080 ++ nl ++ styles_header
      ++ nl ++ "Format: Name"
  /\ detectPlayRes (updateOrInsertPlayRes
       ("[Script Info]" ++ nl ++ nl ++ styles_header ++ nl ++ "Format: Name") 1920 1080)
     = (1920, 1080).
Proof.
  apply (updateOrInsertPlayRes_inserts ("[Script Info]" ++ nl ++ nl) (nl ++ "Format: Name")
           1920 1080).
  - vm_compute; reflexivity.
  - right. vm_compute; reflexivity.
  - vm_compute; reflexivity.
  - vm_compute; reflexivity.
  - lia.
  - lia.
Defined.

(** X22. A script that has the two resolution lines keeps its text, with
    the new resolution written in them. *)
Theorem updateOrInsertPlayRes_updates (pre post : string) (x0 y0 x y : Z) :
  no_line_starts_with "PlayRes" true pre = true ->
  pre = "" \/ HasSuffix pre nl = true ->
  no_line_starts_with "PlayRes" true post = true ->
  0 <= x0 -> 0 <= y0 ->
  updateOrInsertPlayRes (pre ++ playres_lines x0 y0 ++ post) x y
  = pre ++ playres_lines x y ++ post.
Proof. apply updateOrInsertPlayRes_replaces. Qed.

Lemma updateOrInsertPlayRes_updates_witness :
  updateOrInsertPlayRes ("[Script Info]" ++ nl ++ "PlayResX: 1280" ++ nl ++ "PlayResY: 720" ++ nl
                         ++ nl ++ "[V4+ Styles]" ++ nl) 1920 1080
  = ("[Script Info]" ++ nl) ++ playres_lines 1920 1080 ++ nl ++ "[V4+ Styles]" ++ nl.
Proof.
  apply (updateOrInsertPlayRes_updates ("[Script Info]" ++ nl) (nl ++ "[V4+ Styles]" ++ nl)
           1280 720 1920 1080).
  - vm_compute; reflexivity.
  - right. vm_compute; reflexivity.
  - vm_compute; reflexivity.
  - lia.
  - lia.
Defined.

(** X23. A document none of whose lines is a style line of 22 fields or more
    leaves the rescaling pass as it came, the empty line after a final
    line feed apart: nothing but those style lines is rewritten. *)
Theorem rescaleStyleMargins_other_lines (lines : list string) (fx fy f : float64) :
  lines <> [] ->
  Forall (fun l => line_ok l = true /\ full_style_line l = false) lines ->
  rescaleStyleMargins (Join lines nl) fx fy f = Join (without_final_empty lines) nl.
Proof.
  intros Hne Hall.
  rewrite rescaleStyleMargins_lines; [|done|].
  2:{ eapply Forall_impl; [exact Hall|]. by intros l [H _]. }
  f_equal. rewrite <- (map_id (without_final_empty lines)) at 2.
  apply map_ext_in. intros l Hl. apply rescaleStyleLine_other.
  apply Forall_without_final_empty in Hall. rewrite Forall_forall in Hall.
  by apply Hall, list_elem_of_In.
Qed.

Lemma rescaleStyleMargins_other_lines_witness :
  ["[Events]"; "Style: short,Arial,20"; "Dialogue: 0,0:00:00.00,0:00:04.00,Default,,0,0,0,,HELLO"; ""]
    <> [] /\
  Forall (fun l => line_ok l = true /\ full_style_line l = false)
    ["[Events]"; "Style: short,Arial,20"; "Dialogue: 0,0:00:00.00,0:00:04.00,Default,,0,0,0,,HELLO"; ""] /\
  rescaleStyleMargins
    (Join ["[Events]"; "Style: short,Arial,20";
           "Dialogue: 0,0:00:00.00,0:00:04.00,Default,,0,0,0,,HELLO"; ""] nl) f15 f15 f15
  = Join ["[Events]"; "Style: short,Arial,20";
          "Dialogue: 0,0:00:00.00,0:00:04.00,Default,,0,0,0,,HELLO"] nl.
Proof.
  assert (Hall : Forall (fun l => line_ok l = true /\ full_style_line l = false)
    ["[Events]"; "Style: short,Arial,20"; "Dialogue: 0,0:00:00.00,0:00:04.00,Default,,0,0,0,,HELLO"; ""]).
  { repeat constructor; vm_compute; reflexivity. }
  split; [discriminate|]. split; [exact Hall|].
  rewrite rescaleStyleMargins_other_lines; [reflexivity | discriminate | exact Hall].
Defined.

(** X24. The rescaling pass turns CR LF line ends into LF: a document
    written with CR LF comes out as the same document written with
    LF. *)
Theorem rescaleStyleMargins_crlf (lines : list string) (fx fy f : float64) :
  lines <> [] -> Forall (fun l => bare_line l = true) lines ->
  rescaleStyleMargins (Join lines (cr ++ nl)) fx fy f
  = rescaleStyleMargins (Join lines nl) fx fy f.
Proof.
  intros Hne Hall. unfold rescaleStyleMargins, scanner_lines.
  rewrite Join_crlf. change nl with (String nl_byte "").
  rewrite !Split_Join; try done.
  - by rewrite scan_tokens_with_cr.
  - eapply Forall_impl; [exact Hall|]. intros x Hx. by apply bare_line_fits.
  - by apply with_cr_nonempty.
  - by apply with_cr_no_nl.
Qed.

Lemma rescaleStyleMargins_crlf_witness :
  ["[V4+ Styles]"; style0; ""] <> [] /\
  Forall (fun l => bare_line l = true) ["[V4+ Styles]"; style0; ""] /\
  rescaleStyleMargins (Join ["[V4+ Styles]"; style0; ""] (cr ++ nl)) f15 f15 f15
  = Join ["[V4+ Styles]";
          "Style: Default,Arial,30,&H00FFFFFF,&H000000FF,&H00000000,&H00000000,0,0,0,0,100,100,2,0,1,2.25,1.5,2,15,15,22,1"] nl.
Proof.
  assert (Hall : Forall (fun l => bare_line l = true) ["[V4+ Styles]"; style0; ""]).
  { repeat constructor. }
  split; [discriminate|]. split; [exact Hall|].
  rewrite rescaleStyleMargins_crlf; [vm_compute; reflexivity | discriminate | exact Hall].
Defined.

(** X25. A document in which no backslash is followed by the initial of one
    of the nine tags goes through [rescaleDialogueTags] as it is,
    whatever the factors: [\clip], [\an], [\c], [\k], [\q], [\r], [\t]
    and the like are never touched. *)
Theorem rescaleDialogueTags_other_tags (content : string) (fx fy f : float64) :
  quiet scaled_initial content = true ->
  rescaleDialogueTags content fx fy f = content.
Proof.
  intros Hq. unfold rescaleDialogueTags.
  assert (Hpass : forall r repl,
    first_in (Ascii.eqb "\") r && second_in scaled_initial r = true ->
    ReplaceAllStringFunc r content repl = content).
  { intros r repl H. apply andb_prop in H as [H1 H2].
    by apply (ReplaceAllStringFunc_quiet scaled_initial). }
  rewrite (Hpass rePos) by (vm_compute; reflexivity).
  rewrite (Hpass reMove) by (vm_compute; reflexivity).
  rewrite (Hpass reOrg) by (vm_compute; reflexivity).
  rewrite (Hpass reClip) by (vm_compute; reflexivity).
  cbn [fold_left].
  rewrite (Hpass (reScalar "fs")) by (vm_compute; reflexivity).
  rewrite (Hpass (reScalar "fsp")) by (vm_compute; reflexivity).
  rewrite (Hpass (reScalar "bord")) by (vm_compute; reflexivity).
  rewrite (Hpass (reScalar "shad")) by (vm_compute; reflexivity).
  rewrite (Hpass (reScalar "blur")) by (vm_compute; reflexivity).
  done.
Qed.

Lemma rescaleDialogueTags_other_tags_witness :
  quiet scaled_initial "{\an8\clip(0,0,640,360)\c&H00FFFF&}HELLO" = true /\
  rescaleDialogueTags "{\an8\clip(0,0,640,360)\c&H00FFFF&}HELLO" f15 f15 f15
  = "{\an8\clip(0,0,640,360)\c&H00FFFF&}HELLO".
Proof.
  split; [vm_compute; reflexivity|].
  apply rescaleDialogueTags_other_tags. vm_compute. reflexivity.
Defined.

(** X26. A [\pos(x,y)] tag written without blanks, in a text none of whose
    other backslashes is followed by the initial of a tag of the
    resampler: [x] is multiplied by [fx] and [y] by [fy], both are
    printed with two decimals, and the rest of the text is kept. *)
Theorem rescaleDialogueTags_pos (pre x y post : string) (fx fy f : float64) :
  quiet scaled_initial pre = true -> quiet scaled_initial post = true ->
  x <> "" -> y <> "" ->
  all_bytes cls_signed x = true -> all_bytes cls_signed y = true ->
  rescaleDialogueTags (pre ++ "\pos(" ++ x ++ "," ++ y ++ ")" ++ post) fx fy f
  = pre ++ "\pos(" ++ f2 (F64.mul (pf x) fx) ++ "," ++ f2 (F64.mul (pf y) fy) ++ ")" ++ post.
Proof.
  intros Hpre Hpost Hx Hy Hax Hay.
  set (X := f2 (F64.mul (pf x) fx)). set (Y := f2 (F64.mul (pf y) fy)).
  assert (Hassoc : forall a b post' : string,
    "\pos(" ++ a ++ "," ++ b ++ ")" ++ post'
    = String "\" ("pos(" ++ a ++ "," ++ b ++ ")") ++ post').
  { intros a b post'. repeat first [rewrite sapp_assoc | rewrite sapp_cons | rewrite sapp_nil_l]. done. }
  assert (Hm : forall prev post',
    match_here rePos prev (String "\" ("pos(" ++ x ++ "," ++ y ++ ")") ++ post')
    = Some (String.length (String "\" ("pos(" ++ x ++ "," ++ y ++ ")")),
            [(2%nat, y); (1%nat, x)])).
  { intros prev post'. rewrite <- Hassoc. unfold match_here.
    change (fun (_ : option ascii) (s' : string) (caps : captures) => Some (s', caps))
      with accept.
    rewrite run_rePos by done. f_equal. f_equal.
    rewrite Hassoc, slength_app. lia. }
  assert (Hpass1 : ReplaceAllStringFunc rePos
            (pre ++ "\pos(" ++ x ++ "," ++ y ++ ")" ++ post) (scalePair rePos "pos" fx fy)
          = pre ++ "\pos(" ++ X ++ "," ++ Y ++ ")" ++ post).
  { unfold ReplaceAllStringFunc. rewrite Hassoc.
    rewrite (FindAll_one scaled_initial rePos pre _ post [(2%nat, y); (1%nat, x)]);
      [ | vm_compute; reflexivity | vm_compute; reflexivity | reflexivity | done | done
        | intros prev; apply Hm ].
    cbn [map concat_strings]. rewrite sapp_nil_r, sapp_assoc. f_equal.
    rewrite Hassoc. f_equal.
    unfold scalePair, FindStringSubmatch.
    pose proof (Hm None "") as Hm0. rewrite sapp_nil_r in Hm0.
    cbn [find_from]. rewrite Hm0. cbn [map seq capture Nat.eqb].
    fold X. fold Y.
    repeat first [rewrite sapp_assoc | rewrite sapp_cons | rewrite sapp_nil_l]. done. }
  unfold rescaleDialogueTags. rewrite Hpass1.
  assert (Hq : quiet other_initial (pre ++ "\pos(" ++ X ++ "," ++ Y ++ ")" ++ post) = true).
  { apply quiet_app.
    - apply (quiet_mono scaled_initial); [apply other_initial_scaled | done].
    - change ("\pos(" ++ X ++ "," ++ Y ++ ")" ++ post)
        with (String "\" (String "p" ("os(" ++ (X ++ "," ++ Y ++ ")" ++ post)))).
      cbn [quiet]. change (other_initial "p") with false. cbn [negb orb andb].
      rewrite (quiet_no_backslash _ "os(") by reflexivity.
      rewrite (quiet_no_backslash _ X) by apply fixed_no_backslash.
      rewrite (quiet_no_backslash _ ",") by reflexivity.
      rewrite (quiet_no_backslash _ Y) by apply fixed_no_backslash.
      rewrite (quiet_no_backslash _ ")") by reflexivity.
      apply (quiet_mono scaled_initial); [apply other_initial_scaled | done].
    - reflexivity. }
  assert (Hpass : forall r repl,
    first_in (Ascii.eqb "\") r && second_in other_initial r = true ->
    ReplaceAllStringFunc r (pre ++ "\pos(" ++ X ++ "," ++ Y ++ ")" ++ post) repl
    = pre ++ "\pos(" ++ X ++ "," ++ Y ++ ")" ++ post).
  { intros r repl H. apply andb_prop in H as [H1 H2].
    by apply (ReplaceAllStringFunc_quiet other_initial). }
  rewrite (Hpass reMove) by (vm_compute; reflexivity).
  rewrite (Hpass reOrg) by (vm_compute; reflexivity).
  rewrite (Hpass reClip) by (vm_compute; reflexivity).
  cbn [fold_left].
  rewrite (Hpass (reScalar "fs")) by (vm_compute; reflexivity).
  rewrite (Hpass (reScalar "fsp")) by (vm_compute; reflexivity).
  rewrite (Hpass (reScalar "bord")) by (vm_compute; reflexivity).
  rewrite (Hpass (reScalar "shad")) by (vm_compute; reflexivity).
  rewrite (Hpass (reScalar "blur")) by (vm_compute; reflexivity).
  done.
Qed.

Lemma rescaleDialogueTags_pos_witness :
  quiet scaled_initial "{\an8" = true /\ quiet scaled_initial "}HELLO" = true /\
  "640" <> "" /\ "360" <> "" /\
  all_bytes cls_signed "640" = true /\ all_bytes cls_signed "360" = true /\
  rescaleDialogueTags ("{\an8" ++ "\pos(" ++ "640" ++ "," ++ "360" ++ ")" ++ "}HELLO")
    f15 f15 f15
  = "{\an8\pos(960.00,540.00)}HELLO".
Proof.
  repeat (split; [first [reflexivity | discriminate]|]).
  rewrite rescaleDialogueTags_pos by first [reflexivity | discriminate].
  vm_compute. reflexivity.
Defined.
